(** * Etz: worktree orchestration, cleanup and build tracking

    A shallow embedding of the core of etz (packages/core/src):
    - [commands/switch.ts]  the create engine ([switchToWorktree]),
    - [commands/clean.ts]   the cleanup engine ([clean]),
    - [commands/build.ts]   the registry of active builds,
    - [git/operations.ts]   the wrappers around the git binary,
    - [commands/list.ts]    the listing of worktrees ([list], [getWorktree]),
    - [commands/branches.ts] the branches of a repository,
    and of the branch mappings read by the [new] command of the CLI
    (packages/cli/src/commands/switch.ts).

    The program is asynchronous but strictly sequential inside one call
    (every git call is awaited), so a call is a state transformer over a
    [World]: the disk, the state of the git repositories, the list of git
    invocations made so far and the registry of active builds.  The git
    binary itself is not part of the program: it is a parameter of the
    development (a function from an invocation to a reply and its effect
    on disk), and every theorem holds for all of its behaviours. *)

From Stdlib Require Import String Ascii List Bool Arith ZArith Lia Sorted.
Import ListNotations.
Open Scope string_scope.

(* ================================================================== *)
(** ** JavaScript string primitives used by the source *)
(* ================================================================== *)

(** A string of the development holds the UTF-8 bytes of the JavaScript
    string it stands for.  The source cuts and compares strings at
    ASCII characters only (prefixes, separators, fixed offsets after an
    ASCII prefix), where bytes and UTF-16 code units agree; [trim] and
    the order of [sort()] look at the characters, and are written out
    on the bytes. *)

Module Js.

(** [s.startsWith(p)] *)
Definition startsWith (s p : string) : bool := String.prefix p s.

(** [s.includes(needle)] *)
Fixpoint includes (s needle : string) : bool :=
  String.prefix needle s ||
  match s with
  | EmptyString => false
  | String _ rest => includes rest needle
  end.

Fixpoint rev_string (s acc : string) : string :=
  match s with
  | EmptyString => acc
  | String c rest => rev_string rest (String c acc)
  end.

Definition reverse (s : string) : string := rev_string s EmptyString.

(** [s.endsWith(suffix)] *)
Definition endsWith (s suffix : string) : bool :=
  String.prefix (reverse suffix) (reverse s).

(** Truthiness of a string: only the empty string is falsy. *)
Definition truthy (s : string) : bool :=
  match s with EmptyString => false | _ => true end.

(** [s.split(sep)] for a one-character separator: always at least one
    piece, pieces may be empty. *)
Fixpoint split (sep : ascii) (s : string) : list string :=
  match s with
  | EmptyString => [EmptyString]
  | String c rest =>
      if Ascii.eqb c sep then EmptyString :: split sep rest
      else match split sep rest with
           | [] => [String c EmptyString]
           | piece :: pieces => String c piece :: pieces
           end
  end.

(** [s.substring(n)] *)
Fixpoint dropChars (n : nat) (s : string) : string :=
  match n, s with
  | O, _ => s
  | S _, EmptyString => EmptyString
  | S m, String _ rest => dropChars m rest
  end.

(** The white space [trim] removes, each character by its UTF-8 bytes:
    the ECMAScript WhiteSpace class (TAB, VT, FF, U+FEFF and the space
    separators U+0020, U+00A0, U+1680, U+2000 to U+200A, U+202F, U+205F,
    U+3000) and the LineTerminator class (LF, CR, U+2028, U+2029). *)
Definition whiteSpace : list (list nat) :=
  [[9]; [10]; [11]; [12]; [13]; [32]; [194; 160]; [225; 154; 128];
   [226; 128; 128]; [226; 128; 129]; [226; 128; 130]; [226; 128; 131];
   [226; 128; 132]; [226; 128; 133]; [226; 128; 134]; [226; 128; 135];
   [226; 128; 136]; [226; 128; 137]; [226; 128; 138];
   [226; 128; 168]; [226; 128; 169]; [226; 128; 175]; [226; 129; 159];
   [227; 128; 128]; [239; 187; 191]].

Fixpoint startsWithBytes (bytes : list nat) (s : string) : bool :=
  match bytes, s with
  | [], _ => true
  | _ :: _, EmptyString => false
  | b :: more, String c rest => (nat_of_ascii c =? b)%nat && startsWithBytes more rest
  end.

(** The number of bytes of the character of [chars] that [s] starts
    with; 0 when it starts with none. *)
Definition charAt (chars : list (list nat)) (s : string) : nat :=
  match find (fun bytes => startsWithBytes bytes s) chars with
  | Some bytes => length bytes
  | None => 0
  end.

(** The characters of [chars] taken off the start of [s]; [fuel] bounds
    their number. *)
Fixpoint dropLeading (chars : list (list nat)) (fuel : nat) (s : string) : string :=
  match fuel with
  | O => s
  | S fuel' =>
      match charAt chars s with
      | O => s
      | n => dropLeading chars fuel' (dropChars n s)
      end
  end.

(** [s.trim()]: the end is trimmed on the reversed bytes. *)
Definition trim (s : string) : string :=
  let front := dropLeading whiteSpace (String.length s) s in
  reverse (dropLeading (map (@rev nat) whiteSpace) (String.length front) (reverse front)).

(** [s.replace(pat, '')] for a string pattern: the first occurrence of
    [pat] is removed. *)
Fixpoint removeFirst (s pat : string) : string :=
  if String.prefix pat s then dropChars (String.length pat) s
  else match s with
       | EmptyString => EmptyString
       | String c rest => String c (removeFirst rest pat)
       end.

(** [arr.slice(-n)]: the last [n] elements (all of them when there are
    fewer). *)
Definition sliceLast {A} (n : nat) (l : list A) : list A :=
  skipn (length l - n) l.

(** [arr.join(sep)] *)
Fixpoint join (sep : string) (l : list string) : string :=
  match l with
  | [] => EmptyString
  | [x] => x
  | x :: rest => x ++ sep ++ join sep rest
  end.

Definition newline : ascii := ascii_of_nat 10.

(** The string of the given bytes. *)
Fixpoint ofBytes (bytes : list nat) : string :=
  match bytes with
  | [] => EmptyString
  | b :: more => String (ascii_of_nat b) (ofBytes more)
  end.

(** The UTF-16 code units of a code point. *)
Definition unitsOf (codePoint : N) : list N :=
  if (codePoint <? 65536)%N then [codePoint]
  else [(55296 + (codePoint - 65536) / 1024)%N; (56320 + (codePoint - 65536) mod 1024)%N].

(** A string holds the UTF-8 bytes of the JavaScript string it stands
    for; these are the UTF-16 code units of that string.  [pending] is
    what has been read of the current character, [awaited] the number of
    its bytes still to come. *)
Fixpoint codeUnitsFrom (pending : N) (awaited : nat) (s : string) : list N :=
  match s with
  | EmptyString => []
  | String c rest =>
      let b := N_of_ascii c in
      match awaited with
      | O =>
          if (b <? 128)%N then b :: codeUnitsFrom 0 0 rest
          else if (b <? 224)%N then codeUnitsFrom (b mod 32) 1 rest
          else if (b <? 240)%N then codeUnitsFrom (b mod 16) 2 rest
          else codeUnitsFrom (b mod 8) 3 rest
      | S O => (unitsOf (pending * 64 + b mod 64) ++ codeUnitsFrom 0 0 rest)%list
      | S more => codeUnitsFrom (pending * 64 + b mod 64) more rest
      end
  end.

Definition codeUnits (s : string) : list N := codeUnitsFrom 0 0 s.

(** The order of sequences of code units: the first difference decides,
    and a prefix comes first. *)
Fixpoint unitsLeb (a b : list N) : bool :=
  match a, b with
  | [], _ => true
  | _ :: _, [] => false
  | x :: a', y :: b' =>
      if (x <? y)%N then true
      else if (y <? x)%N then false
      else unitsLeb a' b'
  end.

(** [a <= b] on strings, as the comparison of [sort()] without a
    comparator has it. *)
Definition leb (a b : string) : bool := unitsLeb (codeUnits a) (codeUnits b).

End Js.

(* ================================================================== *)
(** ** Node's [path] module, POSIX flavour *)
(* ================================================================== *)

Module Path.

Definition sep : string := "/".
Definition slash : ascii := "/"%char.

(** [path.isAbsolute] *)
Definition isAbsolute (p : string) : bool :=
  match p with
  | String c _ => Ascii.eqb c slash
  | EmptyString => false
  end.

(** One step of Node's [normalizeString]: [res] is the list of segments
    kept so far, last one first. *)
Definition pushSegment (allowAboveRoot : bool) (res : list string) (seg : string)
  : list string :=
  if (seg =? "")%string || (seg =? ".")%string then res
  else if (seg =? "..")%string then
    match res with
    | last :: before =>
        if (last =? "..")%string
        then (if allowAboveRoot then ".." :: res else res)
        else before
    | [] => if allowAboveRoot then [".."] else []
    end
  else seg :: res.

Definition normalizeString (p : string) (allowAboveRoot : bool) : string :=
  Js.join "/" (rev (fold_left (pushSegment allowAboveRoot) (Js.split slash p) [])).

(** [path.normalize] *)
Definition normalize (p : string) : string :=
  if (p =? "")%string then "."
  else
    let isAbs := isAbsolute p in
    let trailing := Js.endsWith p "/" in
    let body := normalizeString p (negb isAbs) in
    if (body =? "")%string then
      (if isAbs then "/" else if trailing then "./" else ".")
    else
      let body' := if trailing then body ++ "/" else body in
      if isAbs then "/" ++ body' else body'.

(** [path.join]: empty arguments are skipped. *)
Definition join (parts : list string) : string :=
  match filter Js.truthy parts with
  | [] => "."
  | kept => normalize (Js.join "/" kept)
  end.

Fixpoint dropWhile {A} (f : A -> bool) (l : list A) : list A :=
  match l with
  | [] => []
  | x :: rest => if f x then dropWhile f rest else l
  end.

(** [path.dirname] *)
Definition dirname (p : string) : string :=
  match list_ascii_of_string p with
  | [] => "."
  | c0 :: tl =>
      let hasRoot := Ascii.eqb c0 slash in
      let isSlash := fun c => Ascii.eqb c slash in
      let afterBase :=
        dropWhile (fun c => negb (isSlash c)) (dropWhile isSlash (rev tl)) in
      match afterBase with
      | [] => if hasRoot then "/" else "."
      | _ :: before =>
          if hasRoot && (length before =? 0)%nat then "//"
          else string_of_list_ascii (c0 :: rev before)
      end
  end.

End Path.

(* ================================================================== *)
(** ** The disk *)
(* ================================================================== *)

(** The disk is the list of the paths that exist, each one a file or a
    directory.  Paths are compared as strings: the program only passes
    results of [path.join], which are normalized.  The calls of [fs] are
    taken to succeed (no permission or I/O failure); [readdirSync] and
    [statSync] fail on a path that is not there, as they do in Node. *)
Module Fs.

Inductive kind := File | Dir.

Definition disk := list (string * kind).

Definition lookup (d : disk) (p : string) : option kind :=
  match find (fun e => String.eqb (fst e) p) d with
  | Some e => Some (snd e)
  | None => None
  end.

(** [fs.existsSync] *)
Definition existsSync (d : disk) (p : string) : bool :=
  match lookup d p with Some _ => true | None => false end.

(** [fs.statSync(p).isDirectory()]; [None] when [statSync] throws. *)
Definition isDirectory (d : disk) (p : string) : option bool :=
  match lookup d p with
  | Some Dir => Some true
  | Some File => Some false
  | None => None
  end.

Definition dirPrefix (dir : string) : string :=
  if Js.endsWith dir "/" then dir else dir ++ "/".

(** The name of [p] inside [dir], when [p] is an immediate child. *)
Definition childName (dir p : string) : option string :=
  if String.prefix (dirPrefix dir) p then
    let name := Js.dropChars (String.length (dirPrefix dir)) p in
    if Js.truthy name && negb (Js.includes name "/") then Some name else None
  else None.

Fixpoint children (dir : string) (d : disk) : list string :=
  match d with
  | [] => []
  | (p, _) :: rest =>
      match childName dir p with
      | Some name => name :: children dir rest
      | None => children dir rest
      end
  end.

(** [fs.readdirSync]; [None] when it throws (no such directory). *)
Definition readdirSync (d : disk) (dir : string) : option (list string) :=
  match lookup d dir with
  | Some Dir => Some (children dir d)
  | _ => None
  end.

Definition inside (root p : string) : bool :=
  String.eqb p root || String.prefix (dirPrefix root) p.

(** [fs.rmSync(p, { recursive: true, force: true })] *)
Definition rmSync (d : disk) (p : string) : disk :=
  filter (fun e => negb (inside p (fst e))) d.

(** The proper prefixes of [rest] that end just before a ['/'], each
    one after [pre] (reversed); the directories above a path. *)
Fixpoint ancestors (pre : list ascii) (rest : list ascii) : list string :=
  match rest with
  | [] => []
  | c :: rest' =>
      let here :=
        if Ascii.eqb c Path.slash && negb (length pre =? 0)%nat
        then [string_of_list_ascii (rev pre)] else [] in
      (here ++ ancestors (c :: pre) rest')%list
  end.

Definition addDir (d : disk) (p : string) : disk :=
  if existsSync d p then d else (d ++ [(p, Dir)])%list.

(** [fs.mkdirSync(p, { recursive: true })], taken to succeed: the case
    where a file stands in the way of a directory, in which Node
    throws, is not part of the model. *)
Definition mkdirSync (d : disk) (p : string) : disk :=
  fold_left addDir (ancestors [] (list_ascii_of_string p) ++ [p])%list d.

End Fs.

(* ================================================================== *)
(** ** Label validation (switch.ts, clean.ts, build.ts) *)
(* ================================================================== *)

Definition backslash : string := String (ascii_of_nat 92) EmptyString.

(** A call that may throw: [inl msg] is [throw new Error(msg)]. *)
Definition Throws (A : Type) : Type := (string + A)%type.

(** [validateNoPathTraversal(userInput, paramName)] of clean.ts. *)
Definition validateNoPathTraversal (userInput paramName : string) : Throws unit :=
  if Js.includes userInput ".." || Js.includes userInput "/"
     || Js.includes userInput backslash
  then inl ("Invalid " ++ paramName
            ++ ": cannot contain path separators or traversal sequences")
  else if Path.isAbsolute userInput
  then inl ("Invalid " ++ paramName ++ ": cannot be an absolute path")
  else if negb (Js.truthy userInput) || (String.length (Js.trim userInput) =? 0)%nat
  then inl ("Invalid " ++ paramName ++ ": cannot be empty")
  else inr tt.

(** [validateLabel(label)], defined with the same body in switch.ts and
    in build.ts. *)
Definition validateLabel (label : string) : Throws unit :=
  if Js.includes label ".." || Js.includes label "/" || Js.includes label backslash
  then inl "Invalid label: cannot contain path separators or traversal sequences"
  else if Path.isAbsolute label
  then inl "Invalid label: cannot be an absolute path"
  else if negb (Js.truthy label) || (String.length (Js.trim label) =? 0)%nat
  then inl "Invalid label: cannot be empty"
  else inr tt.

(* ================================================================== *)
(** ** The registry of active builds (build.ts) *)
(* ================================================================== *)

Module Build.

Inductive BuildType := pod_install | build_infra_ios | build_ios | build_android.

Definition typeName (t : BuildType) : string :=
  match t with
  | pod_install => "pod_install"
  | build_infra_ios => "build_infra_ios"
  | build_ios => "build_ios"
  | build_android => "build_android"
  end.

(** [process] is the handle of the child process, [startTime] the
    value of [Date.now()] when it was spawned. *)
Record ActiveBuild := {
  label : string;
  type : BuildType;
  process : nat;
  startTime : nat;
  outputBuffer : list string
}.

Definition withOutput (b : ActiveBuild) (buf : list string) : ActiveBuild :=
  {| label := label b; type := type b; process := process b;
     startTime := startTime b; outputBuffer := buf |}.

(** [Map<string, ActiveBuild>]: entries in insertion order. *)
Definition Registry := list (string * ActiveBuild).

Definition has (k : string) (m : Registry) : bool :=
  existsb (fun e => String.eqb (fst e) k) m.

Definition get (k : string) (m : Registry) : option ActiveBuild :=
  match find (fun e => String.eqb (fst e) k) m with
  | Some e => Some (snd e)
  | None => None
  end.

Definition delete (k : string) (m : Registry) : Registry :=
  filter (fun e => negb (String.eqb (fst e) k)) m.

(** [Map.set]: a present key keeps its place. *)
Definition set (k : string) (v : ActiveBuild) (m : Registry) : Registry :=
  if has k m
  then map (fun e => if String.eqb (fst e) k then (k, v) else e) m
  else (m ++ [(k, v)])%list.

(** The module-level state: the map [activeBuilds], and the handles on
    which [process.kill()] was called. *)
Record Tracker := {
  activeBuilds : Registry;
  killed : list nat
}.

Definition empty : Tracker := {| activeBuilds := []; killed := [] |}.

Definition MAX_OUTPUT_BUFFER_SIZE : nat := 500.

Definition getBuildKey (label type : string) : string := label ++ ":" ++ type.

Record ProcessResult := {
  success : bool;
  output : string;
  error : option string
}.

(** What the synchronous part of a build request does: it resolves at
    once with a failure, or it has spawned the child and the promise
    stays pending until the child closes. *)
Inductive Started :=
| Resolved (r : ProcessResult)
| Pending.

(** [runBuildProcess] up to the registration of the handlers; [pid] is
    the child returned by [spawn], [now] is [Date.now()]. *)
Definition runBuildProcess (lbl : string) (ty : BuildType) (pid now : nat)
           (t : Tracker) : Started * Tracker :=
  match validateLabel lbl with
  | inl msg => (Resolved {| success := false; output := ""; error := Some msg |}, t)
  | inr _ =>
      let buildKey := getBuildKey lbl (typeName ty) in
      if has buildKey (activeBuilds t) then
        (Resolved {| success := false; output := "";
                     error := Some (typeName ty ++ " already in progress") |}, t)
      else
        (Pending,
         {| activeBuilds :=
              set buildKey {| label := lbl; type := ty; process := pid;
                              startTime := now; outputBuffer := [] |}
                  (activeBuilds t);
            killed := killed t |})
  end.

(** [buildIOS] up to the registration of the handlers. *)
Definition buildIOS (lbl : string) (pid now : nat) (t : Tracker)
  : Started * Tracker :=
  match validateLabel lbl with
  | inl msg => (Resolved {| success := false; output := ""; error := Some msg |}, t)
  | inr _ =>
      let buildKey := getBuildKey lbl "build_ios" in
      if has buildKey (activeBuilds t) then
        (Resolved {| success := false; output := "";
                     error := Some "iOS build already in progress" |}, t)
      else
        (Pending,
         {| activeBuilds :=
              set buildKey {| label := lbl; type := build_ios; process := pid;
                              startTime := now; outputBuffer := [] |}
                  (activeBuilds t);
            killed := killed t |})
  end.

(** The four exported entry points. *)
Definition runPodInstall (lbl : string) := runBuildProcess lbl pod_install.
Definition buildInfraIOS (lbl : string) := runBuildProcess lbl build_infra_ios.
Definition buildAndroid (lbl : string) := runBuildProcess lbl build_android.

Definition request (ty : BuildType) (lbl : string) (pid now : nat)
  : Tracker -> Started * Tracker :=
  match ty with
  | pod_install => runPodInstall lbl pid now
  | build_infra_ios => buildInfraIOS lbl pid now
  | build_ios => buildIOS lbl pid now
  | build_android => buildAndroid lbl pid now
  end.

(** [text.trim().split('\n').filter(line => line.length > 0)] *)
Definition chunkLines (text : string) : list string :=
  filter (fun line => (0 <? String.length line)%nat)
         (Js.split Js.newline (Js.trim text)).

(** The ['data'] handlers of stdout and stderr, which treat the buffer
    alike, in [runBuildProcess] and in [buildIOS]. *)
Definition onData (buildKey text : string) (t : Tracker) : Tracker :=
  match get buildKey (activeBuilds t) with
  | Some build =>
      let pushed := (outputBuffer build ++ chunkLines text)%list in
      let kept :=
        if (MAX_OUTPUT_BUFFER_SIZE <? length pushed)%nat
        then Js.sliceLast MAX_OUTPUT_BUFFER_SIZE pushed
        else pushed in
      {| activeBuilds := set buildKey (withOutput build kept) (activeBuilds t);
         killed := killed t |}
  | None => t
  end.

(** The ['close'] handlers: every path through them deletes the key. *)
Definition onClose (buildKey : string) (t : Tracker) : Tracker :=
  {| activeBuilds := delete buildKey (activeBuilds t); killed := killed t |}.

(** [isBuildInProgress(label, type?)] *)
Definition isBuildInProgress (lbl : string) (ty : option string) (t : Tracker)
  : bool :=
  match validateLabel lbl with
  | inl _ => false
  | inr _ =>
      match ty with
      | Some ty' =>
          if Js.truthy ty' then has (getBuildKey lbl ty') (activeBuilds t)
          else existsb (fun e => Js.startsWith (fst e) (lbl ++ ":")) (activeBuilds t)
      | None =>
          existsb (fun e => Js.startsWith (fst e) (lbl ++ ":")) (activeBuilds t)
      end
  end.

Definition firstForLabel (lbl : string) (m : Registry) : option ActiveBuild :=
  match find (fun e => Js.startsWith (fst e) (lbl ++ ":")) m with
  | Some e => Some (snd e)
  | None => None
  end.

(** [getBuildOutput(label, type?)] *)
Definition getBuildOutput (lbl : string) (ty : option string) (t : Tracker)
  : list string :=
  match validateLabel lbl with
  | inl _ => []
  | inr _ =>
      let anyOfLabel :=
        match firstForLabel lbl (activeBuilds t) with
        | Some build => outputBuffer build
        | None => []
        end in
      match ty with
      | Some ty' =>
          if Js.truthy ty' then
            match get (getBuildKey lbl ty') (activeBuilds t) with
            | Some build => outputBuffer build
            | None => []
            end
          else anyOfLabel
      | None => anyOfLabel
      end
  end.

(** [killBuild(label, type)] *)
Definition killBuild (lbl ty : string) (t : Tracker) : bool * Tracker :=
  match validateLabel lbl with
  | inl _ => (false, t)
  | inr _ =>
      let key := getBuildKey lbl ty in
      match get key (activeBuilds t) with
      | Some build =>
          (true, {| activeBuilds := delete key (activeBuilds t);
                    killed := (killed t ++ [process build])%list |})
      | None => (false, t)
      end
  end.

(** [killAllBuildsForLabel(label)] *)
Definition killAllBuildsForLabel (lbl : string) (t : Tracker) : nat * Tracker :=
  match validateLabel lbl with
  | inl _ => (0, t)
  | inr _ =>
      let mine := filter (fun e => String.eqb (label (snd e)) lbl) (activeBuilds t) in
      (length mine,
       {| activeBuilds :=
            filter (fun e => negb (String.eqb (label (snd e)) lbl)) (activeBuilds t);
          killed := (killed t ++ map (fun e => process (snd e)) mine)%list |})
  end.

(** What can happen to the tracker: a build is requested, a child
    writes a chunk, a child closes, a build is killed. *)
Inductive Event :=
| Request (ty : BuildType) (lbl : string) (pid now : nat)
| Data (ty : BuildType) (lbl : string) (text : string)
| Close (ty : BuildType) (lbl : string)
| Kill (lbl ty : string)
| KillAll (lbl : string).

Definition step (t : Tracker) (e : Event) : Tracker :=
  match e with
  | Request ty lbl pid now => snd (request ty lbl pid now t)
  | Data ty lbl text => onData (getBuildKey lbl (typeName ty)) text t
  | Close ty lbl => onClose (getBuildKey lbl (typeName ty)) t
  | Kill lbl ty => snd (killBuild lbl ty t)
  | KillAll lbl => snd (killAllBuildsForLabel lbl t)
  end.

Definition run (t : Tracker) (es : list Event) : Tracker := fold_left step es t.

Definition typeEqb (a b : BuildType) : bool :=
  match a, b with
  | pod_install, pod_install | build_infra_ios, build_infra_ios
  | build_ios, build_ios | build_android, build_android => true
  | _, _ => false
  end.

(** The active builds of one [(label, buildType)] pair. *)
Definition activeFor (lbl : string) (ty : BuildType) (t : Tracker) : Registry :=
  filter (fun e => String.eqb (label (snd e)) lbl && typeEqb (type (snd e)) ty)
         (activeBuilds t).

(** What the registry keeps true: a key occurs once, it is the key of
    the build it maps to, whose label is valid and whose buffer is
    bounded. *)
Definition wellFormed (t : Tracker) : Prop :=
  NoDup (map fst (activeBuilds t)) /\
  Forall (fun e =>
            fst e = getBuildKey (label (snd e)) (typeName (type (snd e)))
            /\ validateLabel (label (snd e)) = inr tt
            /\ length (outputBuffer (snd e)) <= MAX_OUTPUT_BUFFER_SIZE)
         (activeBuilds t).

End Build.

(* ================================================================== *)
(** ** The child processes of the builds (build.ts) *)
(* ================================================================== *)

(** The registry is one side of a build; the other is the child that
    [spawn] returned.  The handlers of a child are closures over the
    [buildKey] of the request that spawned it: its ['data'] handlers
    write to whatever build is registered under that key, and its
    ['close'] handler deletes that key.  [process.kill()] only sends the
    signal: the child exits, and its ['close'] handler runs, in a later
    turn of the event loop. *)
Module Children.
Import Build.

Record Child := {
  handle : nat;
  buildKey : string
}.

(** The registry, and the children spawned that have not exited. *)
Record System := {
  tracker : Tracker;
  running : list Child
}.

Definition start : System := {| tracker := empty; running := [] |}.

(** What happens, one turn of the event loop each: a build function is
    called ([handle] is the child [spawn] returns if it is reached), a
    child writes a chunk, a child exits, [killBuild] or
    [killAllBuildsForLabel] is called. *)
Inductive Action :=
| Start (ty : BuildType) (lbl : string) (handle now : nat)
| Write (handle : nat) (text : string)
| Exit (handle : nat)
| Stop (lbl ty : string)
| StopAll (lbl : string).

Definition childOf (h : nat) (cs : list Child) : option Child :=
  find (fun c => Nat.eqb (handle c) h) cs.

Definition act (s : System) (a : Action) : System :=
  match a with
  | Start ty lbl h now =>
      match request ty lbl h now (tracker s) with
      | (Pending, t) =>
          {| tracker := t;
             running := (running s
                         ++ [{| handle := h;
                                buildKey := getBuildKey lbl (typeName ty) |}])%list |}
      | (Resolved _, t) => {| tracker := t; running := running s |}
      end
  | Write h text =>
      match childOf h (running s) with
      | Some c => {| tracker := onData (buildKey c) text (tracker s);
                     running := running s |}
      | None => s
      end
  | Exit h =>
      match childOf h (running s) with
      | Some c =>
          {| tracker := onClose (buildKey c) (tracker s);
             running := filter (fun c' => negb (Nat.eqb (handle c') h)) (running s) |}
      | None => s
      end
  | Stop lbl ty => {| tracker := snd (killBuild lbl ty (tracker s));
                      running := running s |}
  | StopAll lbl => {| tracker := snd (killAllBuildsForLabel lbl (tracker s));
                      running := running s |}
  end.

Definition run (s : System) (actions : list Action) : System :=
  fold_left act actions s.

(** A handle that [spawn] has not returned so far. *)
Definition fresh (h : nat) (s : System) : bool :=
  negb (existsb (fun c => Nat.eqb (handle c) h) (running s))
  && negb (existsb (Nat.eqb h) (killed (tracker s))).

(** The children of a key that run and were never sent the signal. *)
Definition alive (k : string) (s : System) : list nat :=
  map handle
      (filter (fun c => String.eqb (buildKey c) k
                        && negb (existsb (Nat.eqb (handle c)) (killed (tracker s))))
              (running s)).

End Children.

(* ================================================================== *)
(** ** Types of the core (types.ts) *)
(* ================================================================== *)

Record RepoConfig := {
  name : string;
  base_path : string
}.

Record EtzConfig := {
  base_branch : string;
  worktrees_dir : string;
  repos : list RepoConfig
}.

(** [Record<string, string>]: the own properties of the object.  The
    properties a plain object inherits from [Object.prototype]
    ([constructor], [toString] and the like) are not part of it: the
    repositories are taken to be named otherwise. *)
Definition StringMap := list (string * string).

Definition lookupKey (m : StringMap) (k : string) : option string :=
  match find (fun e => String.eqb (fst e) k) m with
  | Some e => Some (snd e)
  | None => None
  end.

Module Sw.

Record SwitchOptions := {
  label : option string;
  branchMap : option StringMap;
  default : option string;
  baseBranchMap : option StringMap;
  dryRun : option bool;
  repo : option string
}.

Inductive Status :=
| already_exists | already_in_use | dry_run | created_new
| added_local | added_remote | error | skipped.

Record SwitchResult := {
  repoName : string;
  success : bool;
  message : string;
  status : Status
}.

End Sw.

Module Cl.

Record CleanOptions := {
  label : string;
  repo : option string;
  force : option bool;
  dryRun : option bool;
  deleteBranches : option bool
}.

Inductive Status := not_found | not_worktree | dry_run | deleted | error.

Record CleanResult := {
  repoName : string;
  success : bool;
  message : string;
  status : Status
}.

End Cl.

(** [x || false] on an optional flag. *)
Definition flag (b : option bool) : bool :=
  match b with Some true => true | _ => false end.

(** Truthiness of a possibly-undefined string. *)
Definition present (s : option string) : option string :=
  match s with
  | Some v => if Js.truthy v then Some v else None
  | None => None
  end.

(* ================================================================== *)
(** ** The git binary and the world *)
(* ================================================================== *)

(** The three ways operations.ts calls simple-git. *)
Inductive GitCmd :=
| Raw (args : list string)
| Fetch
| RevParse (args : list string).

(** One invocation: the repository the instance was created for, and
    the command. *)
Record GitCall := {
  cwd : string;
  cmd : GitCmd
}.

(** The git binary: from an invocation, the state of the repositories
    and the disk, a reply ([inl] is a rejected promise, with the text
    [String(error)]; [inr] is standard output), and the new state and
    disk. *)
Definition Git (G : Type) : Type :=
  GitCall -> G -> Fs.disk -> (string + string) * G * Fs.disk.

Record World (G : Type) := {
  disk : Fs.disk;
  gitState : G;
  gitLog : list GitCall;
  builds : Build.Tracker
}.

Arguments disk {G} _.
Arguments gitState {G} _.
Arguments gitLog {G} _.
Arguments builds {G} _.

(** A computation over the world. *)
Definition M (G A : Type) : Type := World G -> A * World G.

Definition ret {G A} (a : A) : M G A := fun w => (a, w).

Definition bind {G A B} (m : M G A) (k : A -> M G B) : M G B :=
  fun w => let (a, w') := m w in k a w'.

(** Sequencing inside a [try] block: a throw skips the rest. *)
Definition andThen {G A B} (m : M G (Throws A)) (k : A -> M G (Throws B))
  : M G (Throws B) :=
  bind m (fun r => match r with
                   | inl e => ret (inl e)
                   | inr a => k a
                   end).

Declare Scope world_scope.
Delimit Scope world_scope with world.
Notation "x <- m ;; k" := (bind m (fun x => k))
  (at level 61, m at next level, right associativity) : world_scope.
Notation "x <-! m ;; k" := (andThen m (fun x => k))
  (at level 61, m at next level, right associativity) : world_scope.
Notation "m ;;! k" := (andThen m (fun _ => k))
  (at level 61, right associativity) : world_scope.

(** Reading and writing the disk. *)
Definition readDisk {G A} (f : Fs.disk -> A) : M G A :=
  fun w => (f (disk w), w).

Definition writeDisk {G} (f : Fs.disk -> Fs.disk) : M G unit :=
  fun w => (tt, {| disk := f (disk w); gitState := gitState w;
                   gitLog := gitLog w; builds := builds w |}).

Definition onBuilds {G A} (f : Build.Tracker -> A * Build.Tracker) : M G A :=
  fun w => let (a, t) := f (builds w) in
           (a, {| disk := disk w; gitState := gitState w;
                  gitLog := gitLog w; builds := t |}).

(** The message of [new GitOperationError(operation, details)]. *)
Definition GitOperationError (operation details : string) : string :=
  "Git operation '" ++ operation ++ "' failed: " ++ details.

(** One record of [git worktree list --porcelain]. *)
Record Worktree := {
  wt_path : string;
  wt_branch : string;
  wt_bare : bool
}.

(** The object [currentWorktree] of [listWorktrees], fields unset at
    first. *)
Record Partial := {
  p_path : option string;
  p_branch : option string;
  p_bare : bool
}.

Definition emptyPartial : Partial :=
  {| p_path := None; p_branch := None; p_bare := false |}.

(** One turn of the loop over the lines of the porcelain output. *)
Definition parseLine (acc : list Worktree * Partial) (line : string)
  : list Worktree * Partial :=
  let '(worktrees, current) := acc in
  if Js.startsWith line "worktree " then
    (worktrees, {| p_path := Some (Js.dropChars 9 line);
                   p_branch := p_branch current; p_bare := p_bare current |})
  else if Js.startsWith line "branch " then
    (worktrees, {| p_path := p_path current;
                   p_branch := Some (Js.removeFirst (Js.dropChars 7 line) "refs/heads/");
                   p_bare := p_bare current |})
  else if Js.startsWith line "bare" then
    (worktrees, {| p_path := p_path current; p_branch := p_branch current;
                   p_bare := true |})
  else if String.eqb line "" then
    match present (p_path current) with
    | Some p =>
        ((worktrees ++ [{| wt_path := p;
                           wt_branch := match present (p_branch current) with
                                        | Some b => b
                                        | None => ""
                                        end;
                           wt_bare := p_bare current |}])%list,
         emptyPartial)
    | None => (worktrees, emptyPartial)
    end
  else acc.

Definition parseWorktrees (output : string) : list Worktree :=
  fst (fold_left parseLine (Js.split Js.newline output) ([], emptyPartial)).

Definition refOf (branch : string) : string :=
  if Js.startsWith branch "refs/heads/" then branch else "refs/heads/" ++ branch.

Definition shellMeta : list ascii :=
  [";"; "&"; "|"; "`"; "$"; "("; ")"; "<"; ">"; ascii_of_nat 92]%char.

Fixpoint hasChar (cs : list ascii) (s : string) : bool :=
  match s with
  | EmptyString => false
  | String c rest => existsb (Ascii.eqb c) cs || hasChar cs rest
  end.

(** [validateBranchName(branch)] of switch.ts. *)
Definition validateBranchName (branch : string) : Throws unit :=
  if negb (Js.truthy branch) || (String.length (Js.trim branch) =? 0)%nat
  then inl "Branch name cannot be empty"
  else if hasChar shellMeta branch
  then inl "Invalid branch name: contains shell metacharacters"
  else if Js.startsWith branch "-"
  then inl "Invalid branch name: cannot start with -"
  else inr tt.

(* ================================================================== *)
(** ** git/operations.ts *)
(* ================================================================== *)

Section Engine.

Context {G : Type}.
Variable git : Git G.
Variable homedir : string.

Local Open Scope world_scope.

(** A call of the git instance created for [repoPath]; it is appended to
    the log whatever its outcome. *)
Definition exec (repoPath : string) (c : GitCmd) : M G (Throws string) :=
  fun w =>
    let call := {| cwd := repoPath; cmd := c |} in
    let '(reply, g, d) := git call (gitState w) (disk w) in
    (reply, {| disk := d; gitState := g;
               gitLog := (gitLog w ++ [call])%list; builds := builds w |}).

(** A wrapper of the shape
    [try { await git...(args) } catch (error) { throw new GitOperationError(op, String(error)) }]. *)
Definition wrapped (operation repoPath : string) (c : GitCmd) : M G (Throws string) :=
  r <- exec repoPath c ;;
  ret (match r with
       | inl details => inl (GitOperationError operation details)
       | inr out => inr out
       end).

Definition discard {A} (m : M G (Throws A)) : M G (Throws unit) :=
  r <- m ;;
  ret (match r with inl e => inl e | inr _ => inr tt end).

Definition getCurrentBranch (repoPath : string) : M G (Throws string) :=
  r <- wrapped "get-branch" repoPath (RevParse ["--abbrev-ref"; "HEAD"]) ;;
  ret (match r with inl e => inl e | inr branch => inr (Js.trim branch) end).

Definition listWorktrees (repoPath : string) : M G (Throws (list Worktree)) :=
  r <- wrapped "list-worktrees" repoPath (Raw ["worktree"; "list"; "--porcelain"]) ;;
  ret (match r with inl e => inl e | inr output => inr (parseWorktrees output) end).

Definition addWorktree (repoPath worktreePath branchName : string) (createBranch : bool)
  : M G (Throws unit) :=
  let args :=
    (["worktree"; "add"]
       ++ (if createBranch then ["-b"; branchName] else [])
       ++ [worktreePath]
       ++ (if negb createBranch then [branchName] else []))%list in
  discard (wrapped "add-worktree" repoPath (Raw args)).

Definition removeWorktree (repoPath worktreePath : string) (force : bool)
  : M G (Throws unit) :=
  let args :=
    (["worktree"; "remove"]
       ++ (if force then ["--force"] else [])
       ++ [worktreePath])%list in
  discard (wrapped "remove-worktree" repoPath (Raw args)).

Definition fetchRepo (repoPath : string) : M G (Throws unit) :=
  discard (wrapped "fetch" repoPath Fetch).

Definition worktreeExists (worktreePath : string) : M G bool :=
  readDisk (fun d => Fs.existsSync d worktreePath
                     && Fs.existsSync d (Path.join [worktreePath; ".git"])).

Definition localBranchExists (repoPath branchName : string) : M G bool :=
  r <- exec repoPath (Raw ["show-ref"; "--verify"; "refs/heads/" ++ branchName]) ;;
  ret (match r with inl _ => false | inr _ => true end).

Definition remoteBranchExists (repoPath branchName : string) : M G bool :=
  r <- exec repoPath (Raw ["ls-remote"; "--heads"; "origin"; branchName]) ;;
  ret (match r with inl _ => false | inr result => Js.includes result branchName end).

Definition findWorktreeByBranch (repoPath branchName : string) : M G (option string) :=
  r <- listWorktrees repoPath ;;
  ret (match r with
       | inl _ => None
       | inr worktrees =>
           match find (fun wt => String.eqb (refOf (wt_branch wt)) (refOf branchName))
                      worktrees with
           | Some wt => Some (wt_path wt)
           | None => None
           end
       end).

Definition createBranch (repoPath branchName startPoint : string) : M G (Throws unit) :=
  discard (wrapped "create-branch" repoPath (Raw ["branch"; branchName; startPoint])).

Definition unsetUpstream (repoPath : string) : M G unit :=
  _ <- exec repoPath (Raw ["branch"; "--unset-upstream"]) ;;
  ret tt.

Definition addWorktreeWithTracking
           (repoPath worktreePath localBranchName remoteBranch : string)
  : M G (Throws unit) :=
  discard (wrapped "add-worktree-tracking" repoPath
             (Raw ["worktree"; "add"; "--track"; "-b"; localBranchName;
                   worktreePath; remoteBranch])).

Definition deleteLocalBranch (repoPath branchName : string) (force : bool)
  : M G (Throws unit) :=
  let args := (["branch"] ++ [if force then "-D" else "-d"] ++ [branchName])%list in
  discard (wrapped "delete-branch" repoPath (Raw args)).

(* ================================================================== *)
(** ** commands/switch.ts *)
(* ================================================================== *)

Definition mkSwitch (repoName : string) (success : bool) (message : string)
           (status : Sw.Status) : Sw.SwitchResult :=
  {| Sw.repoName := repoName; Sw.success := success;
     Sw.message := message; Sw.status := status |}.

(** The [try] block of [ensureWorktree]. *)
Definition attachWorktree (repoName baseRepoPath worktreePath branch baseBranch : string)
  : M G (Throws Sw.SwitchResult) :=
  fetchRepo baseRepoPath ;;!
  branchExistsLocally <- localBranchExists baseRepoPath branch ;;
  branchExistsRemotely <- remoteBranchExists baseRepoPath branch ;;
  if negb branchExistsLocally && negb branchExistsRemotely then
    createBranch baseRepoPath branch ("origin/" ++ baseBranch) ;;!
    addWorktree baseRepoPath worktreePath branch false ;;!
    _ <- unsetUpstream worktreePath ;;
    ret (inr (mkSwitch repoName true
                ("Created new branch '" ++ branch ++ "' from origin/" ++ baseBranch
                 ++ " and added worktree")
                Sw.created_new))
  else if branchExistsLocally then
    addWorktree baseRepoPath worktreePath branch false ;;!
    _ <- unsetUpstream worktreePath ;;
    ret (inr (mkSwitch repoName true
                ("Added worktree for existing local branch '" ++ branch ++ "'")
                Sw.added_local))
  else if branchExistsRemotely then
    addWorktreeWithTracking baseRepoPath worktreePath branch ("origin/" ++ branch) ;;!
    ret (inr (mkSwitch repoName true
                ("Added worktree and tracking remote branch 'origin/" ++ branch ++ "'")
                Sw.added_remote))
  else
    ret (inr (mkSwitch repoName false "Unexpected state" Sw.error)).

Definition ensureWorktree
           (repoName baseRepoPath worktreePath branch baseBranch : string)
           (dryRun : bool) : M G Sw.SwitchResult :=
  there <- readDisk (fun d => Fs.existsSync d worktreePath) ;;
  if there then
    ret (mkSwitch repoName true
           ("Worktree already exists at " ++ worktreePath) Sw.already_exists)
  else
    existingPath <- findWorktreeByBranch baseRepoPath branch ;;
    match present existingPath with
    | Some existing =>
        ret (mkSwitch repoName false
               ("Branch '" ++ branch ++ "' is already checked out at " ++ existing)
               Sw.already_in_use)
    | None =>
        if dryRun then
          ret (mkSwitch repoName true
                 ("Would create worktree for branch '" ++ branch ++ "' at "
                  ++ worktreePath)
                 Sw.dry_run)
        else
          r <- attachWorktree repoName baseRepoPath worktreePath branch baseBranch ;;
          ret (match r with
               | inr result => result
               | inl msg =>
                   mkSwitch repoName false
                     ("Failed to create worktree: " ++ msg) Sw.error
               end)
    end.

(** [a || b] where [a] may be undefined and [b] is a string. *)
Definition orString (a : option string) (b : string) : string :=
  match present a with Some v => v | None => b end.

(** [options.baseBranchMap?.[repo.name]] *)
Definition baseOverride (options : Sw.SwitchOptions) (repo : RepoConfig)
  : option string :=
  match Sw.baseBranchMap options with
  | Some m => lookupKey m (name repo)
  | None => None
  end.

(** [options.baseBranchMap?.[repo.name] || config.base_branch || 'master'] *)
Definition resolveBaseBranch (config : EtzConfig) (options : Sw.SwitchOptions)
           (repo : RepoConfig) : string :=
  orString (baseOverride options repo)
           (orString (Some (base_branch config)) "master").

(** [branchMap[repo.name] || options.default], where [branchMap] is
    the copy of [options.branchMap] (empty when there is none). *)
Definition resolveBranch (options : Sw.SwitchOptions) (repo : RepoConfig)
  : option string :=
  let branchMap := match Sw.branchMap options with Some m => m | None => [] end in
  match present (lookupKey branchMap (name repo)) with
  | Some b => Some b
  | None => present (Sw.default options)
  end.

(** [options.repo && repo.name !== options.repo] *)
Definition filteredOut (only : option string) (repo : RepoConfig) : bool :=
  match present only with
  | Some r => negb (String.eqb (name repo) r)
  | None => false
  end.

(** "Ensure parent directory exists": the parent of the worktree path
    is made, with the directories above it, when it is not there. *)
Definition ensureParentDir (worktreePath : string) : M G unit :=
  let parentDir := Path.dirname worktreePath in
  parentThere <- readDisk (fun d => Fs.existsSync d parentDir) ;;
  if parentThere then ret tt
  else writeDisk (fun d => Fs.mkdirSync d parentDir).

(** The body of the loop of [switchToWorktree]: [None] for [continue]
    without a result.  (The [console.log] of the base branch is left
    out.) *)
Definition switchRepo (config : EtzConfig) (options : Sw.SwitchOptions)
           (repo : RepoConfig) : M G (option Sw.SwitchResult) :=
  if filteredOut (Sw.repo options) repo then ret None
  else
    match resolveBranch options repo with
    | None =>
        ret (Some (mkSwitch (name repo) false "No branch specified" Sw.skipped))
    | Some branch =>
        match validateBranchName branch with
        | inl msg => ret (Some (mkSwitch (name repo) false msg Sw.error))
        | inr _ =>
            let labelFolder := orString (Sw.label options) branch in
            match validateLabel labelFolder with
            | inl msg => ret (Some (mkSwitch (name repo) false msg Sw.error))
            | inr _ =>
                let worktreePath :=
                  Path.join [worktrees_dir config; labelFolder; name repo] in
                _ <- ensureParentDir worktreePath ;;
                let baseBranch := resolveBaseBranch config options repo in
                result <- ensureWorktree (name repo) (base_path repo) worktreePath
                            branch baseBranch (flag (Sw.dryRun options)) ;;
                ret (Some result)
            end
        end
    end.

(** [for (const repo of ...) { ...; results.push(result) }] *)
Fixpoint forEachRepo {R} (body : RepoConfig -> M G (option R))
         (rs : list RepoConfig) : M G (list R) :=
  match rs with
  | [] => ret []
  | r :: rest =>
      res <- body r ;;
      more <- forEachRepo body rest ;;
      ret (match res with Some x => x :: more | None => more end)
  end.

Definition switchToWorktree (config : EtzConfig) (options : Sw.SwitchOptions)
  : M G (list Sw.SwitchResult) :=
  match match present (Sw.label options) with
        | Some l => validateLabel l
        | None => inr tt
        end with
  | inl msg => ret [mkSwitch "" false msg Sw.error]
  | inr _ => forEachRepo (switchRepo config options) (repos config)
  end.

(* ================================================================== *)
(** ** commands/clean.ts *)
(* ================================================================== *)

Definition mkClean (repoName : string) (success : bool) (message : string)
           (status : Cl.Status) : Cl.CleanResult :=
  {| Cl.repoName := repoName; Cl.success := success;
     Cl.message := message; Cl.status := status |}.

Definition isProjectEntry (entry : string) : bool :=
  Js.endsWith entry ".xcodeproj" || Js.endsWith entry ".xcworkspace".

Definition isIOSProject (d : Fs.disk) (dirPath : string) : bool :=
  if negb (Fs.existsSync d dirPath) then false
  else match Fs.readdirSync d dirPath with
       | Some entries => existsb isProjectEntry entries
       | None => false
       end.

(** [s.slice(0, s.length - n)] *)
Definition dropLast (n : nat) (s : string) : string :=
  String.substring 0 (String.length s - n) s.

(** [projectFile.replace(/\.(xcodeproj|xcworkspace)$/, '')] *)
Definition stripProjectExtension (projectFile : string) : string :=
  if Js.endsWith projectFile ".xcodeproj" then dropLast 10 projectFile
  else if Js.endsWith projectFile ".xcworkspace" then dropLast 12 projectFile
  else projectFile.

Definition getIOSProjectName (d : Fs.disk) (dirPath : string) : option string :=
  if negb (Fs.existsSync d dirPath) then None
  else match Fs.readdirSync d dirPath with
       | Some entries =>
           match find isProjectEntry entries with
           | Some projectFile => Some (stripProjectExtension projectFile)
           | None => None
           end
       | None => None
       end.

Definition derivedDataDir : string :=
  Path.join [homedir; "Library"; "Developer"; "Xcode"; "DerivedData"].

(** The [entries.find(...)] of [cleanIOSDerivedData]: the first entry
    that starts with the project name and a dash and is a directory.
    The outer [None] is [statSync] throwing, which ends the search. *)
Fixpoint findDerivedData (d : Fs.disk) (projectName : string) (entries : list string)
  : option (option string) :=
  match entries with
  | [] => Some None
  | entry :: rest =>
      if Js.startsWith entry (projectName ++ "-") then
        match Fs.isDirectory d (Path.join [derivedDataDir; entry]) with
        | Some true => Some (Some entry)
        | Some false => findDerivedData d projectName rest
        | None => None
        end
      else findDerivedData d projectName rest
  end.

(** [cleanIOSDerivedData]: the path found, and the disk after its
    removal (unchanged in a dry run); whatever is thrown on the way is
    caught and gives [null]. *)
Definition cleanIOSDerivedData (worktreePath : string) (dryRun : bool)
  : M G (option string) :=
  fun w =>
    let d := disk w in
    match present (getIOSProjectName d worktreePath) with
    | None => (None, w)
    | Some projectName =>
        if negb (Fs.existsSync d derivedDataDir) then (None, w)
        else
          match Fs.readdirSync d derivedDataDir with
          | None => (None, w)
          | Some entries =>
              match findDerivedData d projectName entries with
              | Some (Some projectDerivedData) =>
                  let derivedDataPath := Path.join [derivedDataDir; projectDerivedData] in
                  if dryRun then (Some derivedDataPath, w)
                  else
                    (Some derivedDataPath,
                     snd (writeDisk (fun d' => Fs.rmSync d' derivedDataPath) w))
              | _ => (None, w)
              end
          end
    end.

(** The end of [cleanWorktree]: the directory is deleted, then the
    local branch when that was asked and a branch name was read. *)
Definition deleteDirectory (repoName baseRepoPath worktreePath : string)
           (deleteBranches : bool) (branchName derivedDataDeleted : option string)
  : M G Cl.CleanResult :=
  there <- readDisk (fun d => Fs.existsSync d worktreePath) ;;
  if there then
    _ <- writeDisk (fun d => Fs.rmSync d worktreePath) ;;
    let message :=
      "Successfully deleted: " ++ worktreePath
      ++ match present derivedDataDeleted with
         | Some p => String Js.newline ("Also deleted DerivedData: " ++ p)
         | None => ""
         end in
    match (if deleteBranches then present branchName else None) with
    | Some b =>
        r <- deleteLocalBranch baseRepoPath b true ;;
        ret (mkClean repoName true
               (message ++ String Js.newline
                  match r with
                  | inr _ => "Also deleted local branch: " ++ b
                  | inl msg =>
                      "Failed to delete local branch '" ++ b ++ "': " ++ msg
                  end)
               Cl.deleted)
    | None => ret (mkClean repoName true message Cl.deleted)
    end
  else
    ret (mkClean repoName true "Worktree removed (folder already deleted)"
           Cl.deleted).

(** The part of [cleanWorktree] after the dry-run report, inside its
    [try]: the branch name is read, the worktree removed from git, the
    DerivedData of an iOS project cleaned. *)
Definition removeAndDelete (repoName baseRepoPath worktreePath : string)
           (isWorktree force dryRun deleteBranches : bool) : M G Cl.CleanResult :=
  branchName <- (if deleteBranches && isWorktree
                 then r <- getCurrentBranch worktreePath ;;
                      ret (match r with inr b => Some b | inl _ => None end)
                 else ret None) ;;
  removal <- (if isWorktree then removeWorktree baseRepoPath worktreePath true
              else ret (inr tt)) ;;
  match removal, force with
  | inl msg, false =>
      ret (mkClean repoName false ("Failed to remove Git worktree: " ++ msg) Cl.error)
  | _, _ =>
      ios <- readDisk (fun d => isIOSProject d worktreePath) ;;
      derivedDataDeleted <- (if ios then cleanIOSDerivedData worktreePath dryRun
                             else ret None) ;;
      deleteDirectory repoName baseRepoPath worktreePath deleteBranches
                      branchName derivedDataDeleted
  end.

(** [cleanWorktree].  The [catch] around its last part answers a
    failure of [fs]; as the calls of [fs] are taken to succeed it is
    never entered, and it is left out. *)
Definition cleanWorktree (repoName baseRepoPath worktreePath : string)
           (force dryRun deleteBranches : bool) : M G Cl.CleanResult :=
  there <- readDisk (fun d => Fs.existsSync d worktreePath) ;;
  if negb there then
    ret (mkClean repoName true
           ("Path not found (already deleted): " ++ worktreePath) Cl.not_found)
  else
    isWorktree <- worktreeExists worktreePath ;;
    if negb isWorktree && negb force then
      ret (mkClean repoName false "Not a Git worktree (use force to delete)"
             Cl.not_worktree)
    else if dryRun then
      ios <- readDisk (fun d => isIOSProject d worktreePath) ;;
      derivedDataPath <- (if ios then cleanIOSDerivedData worktreePath true
                          else ret None) ;;
      ret (mkClean repoName true
             ("Would delete: " ++ worktreePath
              ++ match present derivedDataPath with
                 | Some p => String Js.newline ("Would also delete DerivedData: " ++ p)
                 | None => ""
                 end)
             Cl.dry_run)
    else
      removeAndDelete repoName baseRepoPath worktreePath
                      isWorktree force dryRun deleteBranches.

(** The removal of the label folder once it holds no visible entry. *)
Definition removeEmptyLabelFolder (labelFolder : string)
  : M G (list Cl.CleanResult) :=
  there <- readDisk (fun d => Fs.existsSync d labelFolder) ;;
  if there then
    listing <- readDisk (fun d => Fs.readdirSync d labelFolder) ;;
    match listing with
    | Some entries =>
        match filter (fun entry => negb (Js.startsWith entry ".")) entries with
        | [] =>
            _ <- writeDisk (fun d => Fs.rmSync d labelFolder) ;;
            ret [mkClean "" true ("Deleted empty label folder: " ++ labelFolder)
                   Cl.deleted]
        | _ => ret []
        end
    | None => ret []
    end
  else ret [].

Definition clean (config : EtzConfig) (options : Cl.CleanOptions)
  : M G (list Cl.CleanResult) :=
  match validateNoPathTraversal (Cl.label options) "label" with
  | inl msg => ret [mkClean "" false msg Cl.error]
  | inr _ =>
      _ <- onBuilds (Build.killAllBuildsForLabel (Cl.label options)) ;;
      let labelFolder := Path.join [worktrees_dir config; Cl.label options] in
      let normalizedLabelFolder := Path.normalize labelFolder in
      let normalizedWorktreesDir := Path.normalize (worktrees_dir config) in
      if negb (Js.startsWith normalizedLabelFolder (normalizedWorktreesDir ++ Path.sep))
      then ret [mkClean "" false "Security error: path traversal detected" Cl.error]
      else
        there <- readDisk (fun d => Fs.existsSync d labelFolder) ;;
        if negb there then
          ret [mkClean "" false ("No worktree directory found at " ++ labelFolder)
                 Cl.not_found]
        else
          let reposToClean :=
            match present (Cl.repo options) with
            | Some only => filter (fun r => String.eqb (name r) only) (repos config)
            | None => repos config
            end in
          results <- forEachRepo
                       (fun repo =>
                          r <- cleanWorktree (name repo) (base_path repo)
                                 (Path.join [labelFolder; name repo])
                                 (flag (Cl.force options))
                                 (flag (Cl.dryRun options))
                                 (flag (Cl.deleteBranches options)) ;;
                          ret (Some r))
                       reposToClean ;;
          extra <- (if negb (flag (Cl.dryRun options))
                    then removeEmptyLabelFolder labelFolder
                    else ret []) ;;
          ret (results ++ extra)%list
  end.

End Engine.


(** The invocation of [c] by the git instance of [repoPath]. *)
Definition call (repoPath : string) (c : GitCmd) : GitCall :=
  {| cwd := repoPath; cmd := c |}.

(** [results.every(r => r.success)]: the success of a batch, as the
    handler of [etz:clean] in the desktop application computes it from
    the results of [clean]. *)
Definition overallSuccess (results : list Cl.CleanResult) : bool :=
  forallb Cl.success results.

(* ================================================================== *)
(** ** A small git, to run the engines on concrete worlds *)
(* ================================================================== *)

Module Demo.

(** Branches of the one repository and of its remote, the worktrees
    attached (path and branch), and whether the remote can be reached. *)
Record Repo := {
  heads : list string;
  remoteHeads : list string;
  attached : list (string * string);
  online : bool
}.

Definition mem (s : string) (l : list string) : bool := existsb (String.eqb s) l.

Definition porcelain (r : Repo) : string :=
  Js.join ""
    (map (fun wt => "worktree " ++ fst wt ++ String Js.newline
                    ("HEAD 0000" ++ String Js.newline
                     ("branch refs/heads/" ++ snd wt ++ String Js.newline
                      (String Js.newline ""))))
         (attached r)).

Definition attach (r : Repo) (path branch : string) (d : Fs.disk)
  : (string + string) * Repo * Fs.disk :=
  (inr "",
   {| heads := if mem branch (heads r) then heads r else (heads r ++ [branch])%list;
      remoteHeads := remoteHeads r;
      attached := (attached r ++ [(path, branch)])%list; online := online r |},
   (Fs.mkdirSync d path ++ [(Path.join [path; ".git"], Fs.File)])%list).

(** The commands run in the base clone of a repository. *)
Definition inRepo (call : GitCall) (r : Repo) (d : Fs.disk)
  : (string + string) * Repo * Fs.disk :=
  match cmd call with
  | Fetch =>
      if online r then (inr "", r, d)
      else (inl "Error: fatal: unable to access remote", r, d)
  | RevParse _ => (inr ("HEAD" ++ String Js.newline ""), r, d)
  | Raw ["show-ref"; "--verify"; ref] =>
      if mem (Js.dropChars 11 ref) (heads r) then (inr ref, r, d)
      else (inl "Error: fatal: not a valid ref", r, d)
  | Raw ["ls-remote"; "--heads"; "origin"; b] =>
      if negb (online r) then (inl "Error: fatal: unable to access remote", r, d)
      else if mem b (remoteHeads r) then (inr ("0000 refs/heads/" ++ b), r, d)
      else (inr "", r, d)
  | Raw ["worktree"; "list"; "--porcelain"] => (inr (porcelain r), r, d)
  | Raw ["branch"; "-D"; b] =>
      (inr "",
       {| heads := filter (fun h => negb (String.eqb h b)) (heads r);
          remoteHeads := remoteHeads r; attached := attached r;
          online := online r |}, d)
  | Raw ["branch"; b; _] =>
      if mem b (heads r) then (inl "Error: fatal: branch already exists", r, d)
      else (inr "",
            {| heads := (heads r ++ [b])%list; remoteHeads := remoteHeads r;
               attached := attached r; online := online r |}, d)
  | Raw ["worktree"; "add"; path; b] =>
      if mem b (heads r) then attach r path b d
      else (inl "Error: fatal: invalid reference", r, d)
  | Raw ["worktree"; "add"; "--track"; "-b"; b; path; _] => attach r path b d
  | Raw ["worktree"; "remove"; "--force"; path] =>
      if existsb (fun wt => String.eqb (fst wt) path) (attached r) then
        (inr "",
         {| heads := heads r; remoteHeads := remoteHeads r;
            attached := filter (fun wt => negb (String.eqb (fst wt) path)) (attached r);
            online := online r |},
         Fs.rmSync d path)
      else (inl "Error: fatal: not a working tree", r, d)
  | Raw _ => (inl "Error: unknown command", r, d)
  end.

(** The repositories, by the path of their base clone. *)
Definition Repos := list (string * Repo).

Definition git : Git Repos :=
  fun call rs d =>
    match find (fun e => String.eqb (fst e) (cwd call)) rs with
    | Some (base, r) =>
        let '(reply, r', d') := inRepo call r d in
        (reply, map (fun e => if String.eqb (fst e) base then (base, r') else e) rs, d')
    | None =>
        (* a command run inside a worktree *)
        match cmd call with
        | Raw ["branch"; "--unset-upstream"] => (inr "", rs, d)
        | RevParse _ =>
            match find (fun wt => String.eqb (fst wt) (cwd call))
                       (flat_map (fun e => attached (snd e)) rs) with
            | Some wt => (inr (snd wt ++ String Js.newline ""), rs, d)
            | None => (inl "Error: fatal: not a git repository", rs, d)
            end
        | _ => (inl "Error: fatal: not a git repository", rs, d)
        end
    end.

Definition ios : RepoConfig := {| name := "app-ios"; base_path := "/r/ios" |}.
Definition android : RepoConfig := {| name := "app-android"; base_path := "/r/android" |}.

Definition config : EtzConfig :=
  {| base_branch := "main"; worktrees_dir := "/wt"; repos := [ios; android] |}.

Definition world (rs : Repos) (d : Fs.disk) : World Repos :=
  {| disk := d; gitState := rs; gitLog := []; builds := Build.empty |}.

Definition fresh : Repo :=
  {| heads := ["main"]; remoteHeads := ["main"]; attached := []; online := true |}.

Definition offline : Repo :=
  {| heads := ["main"; "auth-feature"]; remoteHeads := ["main"]; attached := [];
     online := false |}.

Definition bothFresh : Repos := [("/r/ios", fresh); ("/r/android", fresh)].

Definition create (label branch : string) : Sw.SwitchOptions :=
  {| Sw.label := Some label; Sw.branchMap := None; Sw.default := Some branch;
     Sw.baseBranchMap := None; Sw.dryRun := None; Sw.repo := None |}.

Definition remove (label : string) (force : bool) : Cl.CleanOptions :=
  {| Cl.label := label; Cl.repo := None; Cl.force := Some force;
     Cl.dryRun := None; Cl.deleteBranches := None |}.

(** Worlds for the examples: an empty worktree root; one where the
    worktrees of the label [auth] are there; one where the directory of
    a worktree is there and git does not know it. *)
Definition emptyRoot : World Repos := world bothFresh [("/wt", Fs.Dir)].

Definition iosOffline : World Repos :=
  world [("/r/ios", offline); ("/r/android", fresh)] [("/wt", Fs.Dir)].

Definition authDisk : Fs.disk :=
  [("/wt", Fs.Dir); ("/wt/auth", Fs.Dir);
   ("/wt/auth/app-ios", Fs.Dir); ("/wt/auth/app-ios/.git", Fs.File);
   ("/wt/auth/app-android", Fs.Dir); ("/wt/auth/app-android/.git", Fs.File)].

Definition attachedRepo (path : string) : Repo :=
  {| heads := ["main"; "auth-feature"]; remoteHeads := ["main"];
     attached := [(path, "auth-feature")]; online := true |}.

Definition withAuth : World Repos :=
  world [("/r/ios", attachedRepo "/wt/auth/app-ios");
         ("/r/android", attachedRepo "/wt/auth/app-android")] authDisk.

Definition staleAuth : World Repos := world bothFresh authDisk.

Definition createUnlabelled (branch : string) : Sw.SwitchOptions :=
  {| Sw.label := Some ""; Sw.branchMap := None; Sw.default := Some branch;
     Sw.baseBranchMap := None; Sw.dryRun := None; Sw.repo := None |}.

(** The world [iosOffline] with the remote of the iOS repository within
    reach. *)
Definition iosOnline : World Repos :=
  world [("/r/ios", {| heads := heads offline; remoteHeads := remoteHeads offline;
                       attached := attached offline; online := true |});
         ("/r/android", fresh)] [("/wt", Fs.Dir)].

Fixpoint lines (line : string) (n : nat) : string :=
  match n with
  | O => ""
  | S m => line ++ String Js.newline (lines line m)
  end.

End Demo.

(* ================================================================== *)
(** ** More of build.ts: queries, progress estimates, pre-conditions *)
(* ================================================================== *)

Module BuildQueries.
Import Build.

(** [getActiveBuildInfo(label)]: the type of the first build whose key
    starts with the label and a colon, and [Date.now() - startTime],
    [now] being [Date.now()]. *)
Definition getActiveBuildInfo (lbl : string) (now : nat) (t : Tracker)
  : option (string * Z) :=
  match validateLabel lbl with
  | inl _ => None
  | inr _ =>
      match find (fun e => Js.startsWith (fst e) (lbl ++ ":")) (activeBuilds t) with
      | Some e =>
          Some (typeName (type (snd e)),
                (Z.of_nat now - Z.of_nat (startTime (snd e)))%Z)
      | None => None
      end
  end.

(** [validateRepoName(repo)] *)
Definition validateRepoName (repo : string) : Throws unit :=
  if Js.includes repo ".." || Js.includes repo "/" || Js.includes repo backslash
  then inl "Invalid repo name: cannot contain path separators or traversal sequences"
  else if Path.isAbsolute repo
  then inl "Invalid repo name: cannot be an absolute path"
  else if negb (Js.truthy repo) || (String.length (Js.trim repo) =? 0)%nat
  then inl "Invalid repo name: cannot be empty"
  else inr tt.

(** The [estimateProgress] of [runPodInstall]: later marks override
    earlier ones. *)
Definition podInstallProgress (output : string) : nat :=
  let progress := 10 in
  let progress := if Js.includes output "Analyzing dependencies" then 20 else progress in
  let progress := if Js.includes output "Downloading dependencies" then 40 else progress in
  let progress := if Js.includes output "Installing" then 60 else progress in
  let progress := if Js.includes output "Generating Pods project" then 80 else progress in
  progress.

(** The [estimateProgress] of [buildInfraIOS]: the first mark found
    decides. *)
Definition infraProgress (output : string) : nat :=
  if Js.includes output "BUILD SUCCESSFUL" then 100
  else if Js.includes output "Scanning for" then 5
  else if Js.includes output "Parsing build file" || Js.includes output "Applying script"
  then 8
  else if Js.includes output "Configuring project" || Js.includes output ":prepareKotlin"
  then 12
  else if Js.includes output "Resolving dependencies" || Js.includes output "Download"
  then 18
  else if Js.includes output "configuration complete" then 25
  else if Js.includes output "compileKotlin" && Js.includes output "UP-TO-DATE" then 30
  else if Js.includes output "compileKotlinIos" then 35
  else if Js.includes output ":shared:" && Js.includes output "compileKotlin" then 45
  else if Js.includes output "Compiling" || Js.includes output "compiling" then 50
  else if Js.includes output "linkDebug" || Js.includes output ":link" then 65
  else if Js.includes output "Linking" then 70
  else if Js.includes output "linkReleaseStatic" then 75
  else if Js.includes output "assembleXCFramework" || Js.includes output "xcframework"
  then 82
  else if Js.includes output "copyFramework" || Js.includes output "Copying" then 88
  else if Js.includes output "spmDevBuild" then 92
  else 5.

(** The estimate in the stdout handler of [buildIOS]. *)
Definition iosProgress (text : string) : nat :=
  let progress := 10 in
  let progress := if Js.includes text "Building workspace" then 20 else progress in
  let progress := if Js.includes text "Compiling" || Js.includes text "Compile"
                  then 40 else progress in
  let progress := if Js.includes text "Linking" then 60 else progress in
  let progress := if Js.includes text "Touching" then 70 else progress in
  let progress := if Js.includes text "ARCHIVE SUCCEEDED" then 80 else progress in
  progress.

(** The [estimateProgress] of [buildAndroid]. *)
Definition androidProgress (output : string) : nat :=
  if Js.includes output "BUILD SUCCESSFUL" then 100
  else if Js.includes output "Configuring" then 20
  else if Js.includes output "Compiling" then 50
  else 10.

(** The estimate a ['data'] handler sends with the lines of a chunk. *)
Definition estimateProgress (ty : BuildType) (text : string) : nat :=
  match ty with
  | pod_install => podInstallProgress text
  | build_infra_ios => infraProgress text
  | build_ios => iosProgress text
  | build_android => androidProgress text
  end.

End BuildQueries.

Module Pre.

Inductive Platform := ios | android.

Inductive Status := pass | fail | warning.

Record BuildPreCondition := {
  id : string;
  name : string;
  status : Status;
  message : string;
  canAutoFix : bool;
  fixAction : option string
}.

Record BuildOptions := {
  label : string;
  platform : Platform;
  repo : string
}.

Record BuildPreCheckResult := {
  r_platform : Platform;
  r_repo : string;
  ready : bool;
  conditions : list BuildPreCondition
}.

Definition cond (id name : string) (status : Status) (message : string)
           (canAutoFix : bool) (fixAction : option string) : BuildPreCondition :=
  {| id := id; name := name; status := status; message := message;
     canAutoFix := canAutoFix; fixAction := fixAction |}.

Definition isFail (c : BuildPreCondition) : bool :=
  match status c with fail => true | _ => false end.

(** [checkAndroidPreConditions(label, androidRepoPath, infraRepoPath)] *)
Definition checkAndroidPreConditions (androidRepoPath infraRepoPath : string)
           (d : Fs.disk) : list BuildPreCondition :=
  ((if Fs.existsSync d infraRepoPath then
      [cond "infra_worktree_exists" "Infra Worktree" pass
            "project.mobile.infra worktree exists" false None;
       if Fs.existsSync d (Path.join [infraRepoPath; "build"; "outputs"])
       then cond "android_infra_built" "Infra Android Build" pass
                 "Android infra is built" false None
       else cond "android_infra_built" "Infra Android Build" fail
                 "Android infra not built" true (Some "build_infra_android")]
    else
      [cond "infra_worktree_exists" "Infra Worktree" fail
            "project.mobile.infra worktree not found" false None])
   ++ [if Fs.existsSync d (Path.join [androidRepoPath; "gradlew"])
       then cond "android_gradle_exists" "Gradle Wrapper" pass
                 "Gradle wrapper found" false None
       else cond "android_gradle_exists" "Gradle Wrapper" fail
                 "Gradle wrapper not found" false None])%list.

Section PreConditions.

(** [checkIOSPreConditions(label, iosRepoPath, infraRepoPath)] reads the
    contents of files ([Podfile.lock], [Package.swift]), which the disk
    of this development does not hold: it is a parameter here. *)
Variable checkIOSPreConditions :
  string -> string -> string -> Fs.disk -> Build.Tracker -> list BuildPreCondition.

(** [checkBuildPreConditions(options)] *)
Definition checkBuildPreConditions (config : EtzConfig) (options : BuildOptions)
           (d : Fs.disk) (t : Build.Tracker) : BuildPreCheckResult :=
  match match validateLabel (label options) with
        | inl msg => inl msg
        | inr _ => BuildQueries.validateRepoName (repo options)
        end with
  | inl msg =>
      {| r_platform := platform options; r_repo := repo options; ready := false;
         conditions := [cond "validation_error" "Input Validation" fail msg false None] |}
  | inr _ =>
      let worktreeDir := Path.join [worktrees_dir config; label options] in
      let repoPath := Path.join [worktreeDir; repo options] in
      let infraPath := Path.join [worktreeDir; "project.mobile.infra"] in
      if negb (Fs.existsSync d repoPath) then
        {| r_platform := platform options; r_repo := repo options; ready := false;
           conditions :=
             [cond "repo_exists" "Repository Worktree" fail
                   (repo options ++ " worktree not found at " ++ repoPath) false None] |}
      else
        let conds :=
          (cond "repo_exists" "Repository Worktree" pass
                (repo options ++ " worktree exists") false None
           :: match platform options with
              | ios => checkIOSPreConditions (label options) repoPath infraPath d t
              | android => checkAndroidPreConditions repoPath infraPath d
              end) in
        {| r_platform := platform options; r_repo := repo options;
           ready := negb (existsb isFail conds);
           conditions := conds |}
  end.

End PreConditions.

End Pre.

(* ================================================================== *)
(** ** The [new] command of the CLI (cli/src/commands/switch.ts) *)
(* ================================================================== *)

Module Cli.

Definition quote : string := String (ascii_of_nat 34) EmptyString.

(** [arr[i]]: [undefined] past the end. *)
Definition item (l : list string) (i : nat) : option string := nth_error l i.

(** [branchMap[repo] = repoBranch] on an object literal: a key that is
    there keeps its place, a new one comes last; an assignment of a
    string to [__proto__] goes to the setter of [Object.prototype], which
    drops it. *)
Definition assign (m : StringMap) (k v : string) : StringMap :=
  if String.eqb k "__proto__" then m
  else if existsb (fun e => String.eqb (fst e) k) m
  then map (fun e => if String.eqb (fst e) k then (k, v) else e) m
  else (m ++ [(k, v)])%list.

(** One turn of the loop over [options.branch]:
    [const [repo, repoBranch] = mapping.split(':')]. *)
Definition addMapping (branchMap : StringMap) (mapping : string) : Throws StringMap :=
  let parts := Js.split ":"%char mapping in
  match present (item parts 0), present (item parts 1) with
  | Some repo, Some repoBranch => inr (assign branchMap repo repoBranch)
  | _, _ =>
      inl ("Invalid branch mapping: " ++ mapping ++ ". Use format "
           ++ quote ++ "repo:branch" ++ quote)
  end.

(** The loop: the first mapping that is not well formed throws. *)
Fixpoint parseMappings (branchMap : StringMap) (mappings : list string)
  : Throws StringMap :=
  match mappings with
  | [] => inr branchMap
  | mapping :: rest =>
      match addMapping branchMap mapping with
      | inl msg => inl msg
      | inr m => parseMappings m rest
      end
  end.

End Cli.

(* ================================================================== *)
(** ** More of git/operations.ts *)
(* ================================================================== *)

Definition additionalPaths : list string :=
  ["/usr/local/bin"; "/opt/homebrew/bin"; "/usr/bin"; "/bin"].

Definition colon : ascii := ":"%char.

(** [getEnrichedPath()]; [envPath] is [process.env.PATH]. *)
Definition getEnrichedPath (envPath : option string) : string :=
  let currentPath := orString envPath "" in
  let pathArray := Js.split colon currentPath in
  let newPaths :=
    filter (fun p => negb (existsb (String.eqb p) pathArray)) additionalPaths in
  Js.join ":" (pathArray ++ newPaths)%list.

(** [new Set()] filled with [add]: a value is kept where it first
    came. *)
Definition setAdd (set : list string) (x : string) : list string :=
  if existsb (String.eqb x) set then set else (set ++ [x])%list.

(** [Array.prototype.sort()] without a comparison function, on strings:
    increasing order of the UTF-16 code units, equal elements keeping
    their order (the sort is stable). *)
Fixpoint insertSorted (x : string) (l : list string) : list string :=
  match l with
  | [] => [x]
  | y :: rest => if Js.leb x y then x :: l else y :: insertSorted x rest
  end.

Definition sortStrings (l : list string) : list string :=
  fold_right insertSorted [] l.

(** [branch.replace(/^remotes\/origin\//, '')] *)
Definition stripRemote (branch : string) : string :=
  if Js.startsWith branch "remotes/origin/" then Js.dropChars 15 branch else branch.

(** The body of [getBranches] once [git.branch(['-a'])] has given
    [branches.all]. *)
Definition normalizeBranches (all : list string) : list string :=
  sortStrings
    (fold_left (fun branchSet branch =>
                  if Js.includes branch "HEAD" then branchSet
                  else setAdd branchSet (stripRemote branch))
               all []).

(** The body of [branchExists] once [git.branch(['-a'])] has given
    [branches.all]. *)
Definition branchInSummary (all : list string) (branchName : string) : bool :=
  existsb (String.eqb branchName) all
  || existsb (fun b => String.eqb b ("remotes/origin/" ++ branchName)) all.

(** [StatusResult] of simple-git, as far as the program reads it. *)
Record StatusResult := {
  isClean : bool;
  modified : list string;
  staged : list string;
  not_added : list string;
  ahead : nat;
  behind : nat
}.


(** The calls of simple-git whose reply is parsed by the library:
    [git.branch(['-a'])], of which the program reads [all], and
    [git.status()].  Like [Git], from the repository, the state of git
    and the disk to a reply and the new state and disk; these calls are
    not entered in [gitLog]. *)
Record Parsed (G : Type) := {
  branchAll : string -> G -> Fs.disk -> (string + list string) * G * Fs.disk;
  statusOf : string -> G -> Fs.disk -> (string + StatusResult) * G * Fs.disk
}.

Arguments branchAll {G} _.
Arguments statusOf {G} _.






Section Listing.

Context {G : Type}.
Variable git : Git G.
Variable parsed : Parsed G.

Local Open Scope world_scope.

Definition ask {A} (query : G -> Fs.disk -> (string + A) * G * Fs.disk)
  : M G (Throws A) :=
  fun w =>
    let '(reply, g, d) := query (gitState w) (disk w) in
    (reply, {| disk := d; gitState := g; gitLog := gitLog w; builds := builds w |}).



(** [branchExists(repoPath, branchName)] *)
Definition branchExists (repoPath branchName : string) : M G bool :=
  r <- ask (branchAll parsed repoPath) ;;
  ret (match r with
       | inl _ => false
       | inr all => branchInSummary all branchName
       end).

(** [getBranches(repoPath)] of operations.ts *)
Definition getBranches (repoPath : string) : M G (Throws (list string)) :=
  r <- ask (branchAll parsed repoPath) ;;
  ret (match r with
       | inl e => inl (GitOperationError "get-branches" e)
       | inr all => inr (normalizeBranches all)
       end).

(** [getBranches(repoName?)] of commands/branches.ts *)
Definition getBranchesOfRepo (config : EtzConfig) (repoName : option string)
  : M G (Throws (list string)) :=
  match match present repoName with
        | Some n =>
            match find (fun r => String.eqb (name r) n) (repos config) with
            | Some repo => inr repo
            | None => inl ("Repository '" ++ n ++ "' not found in configuration")
            end
        | None =>
            match repos config with
            | repo :: _ => inr repo
            | [] => inl "No repositories configured"
            end
        end with
  | inl msg => ret (inl msg)
  | inr repo =>
      _ <- fetchRepo git (base_path repo) ;;
      getBranches (base_path repo)
  end.






End Listing.

(* ================================================================== *)
(** ** Notions used in the statements *)
(* ================================================================== *)

(** The statuses that count as a success of create. *)
Definition succeeds (s : Sw.Status) : bool :=
  match s with
  | Sw.already_exists | Sw.dry_run | Sw.created_new | Sw.added_local
  | Sw.added_remote => true
  | Sw.already_in_use | Sw.error | Sw.skipped => false
  end.

(** The one git command a dry run of create issues. *)
Definition isWorktreeList (c : GitCall) : Prop :=
  cmd c = Raw ["worktree"; "list"; "--porcelain"].

(** The statuses that count as a success of clean. *)
Definition cleans (s : Cl.Status) : bool :=
  match s with
  | Cl.deleted | Cl.dry_run | Cl.not_found => true
  | Cl.not_worktree | Cl.error => false
  end.

(** A line feed, as a string. *)
Definition lineFeed : string := String Js.newline EmptyString.

(** A line of a record that [listWorktrees] passes over: [HEAD <sha>],
    [detached], [locked], [prunable] with their reasons, and whatever
    else git prints that does not start with [worktree ], [branch ] or
    [bare]. *)
Definition passedOver (line : string) : bool :=
  negb (Js.startsWith line "worktree ") && negb (Js.startsWith line "branch ")
  && negb (Js.startsWith line "bare") && negb (String.eqb line "")
  && negb (hasChar [Js.newline] line).

(** One record of [git worktree list --porcelain] as git prints it: the
    worktree it shows, and the other lines of the record, those before
    the [branch] or [bare] line ([HEAD <sha>], of its own commit) and
    those after it ([detached], [locked], [prunable]). *)
Record Printed := {
  shown : Worktree;
  before : list string;
  after : list string
}.

Fixpoint renderLines (lines : list string) : string :=
  match lines with
  | [] => ""
  | line :: rest => line ++ lineFeed ++ renderLines rest
  end.

Definition renderWorktree (record : Printed) : string :=
  "worktree " ++ wt_path (shown record) ++ lineFeed
  ++ renderLines (before record)
  ++ (if wt_bare (shown record) then "bare" ++ lineFeed
      else if Js.truthy (wt_branch (shown record))
           then "branch refs/heads/" ++ wt_branch (shown record) ++ lineFeed
           else "")
  ++ renderLines (after record)
  ++ lineFeed.

Fixpoint renderWorktrees (records : list Printed) : string :=
  match records with
  | [] => ""
  | record :: rest => renderWorktree record ++ renderWorktrees rest
  end.

(** A record git can print: a path that is not empty, no line feed in
    the path or the branch, no branch for a bare repository, and other
    lines that are none of the three the parser reads. *)
Definition printable (record : Printed) : bool :=
  Js.truthy (wt_path (shown record))
  && negb (hasChar [Js.newline] (wt_path (shown record)))
  && negb (hasChar [Js.newline] (wt_branch (shown record)))
  && (if wt_bare (shown record) then negb (Js.truthy (wt_branch (shown record)))
      else true)
  && forallb passedOver (before record)
  && forallb passedOver (after record).

(** The order of [sort()] without a comparator: that of the UTF-16 code
    units. *)
Definition leString (a b : string) : Prop := Js.leb a b = true.




(** A computation that leaves the registry of builds as it was. *)
Definition keepsBuilds {G A} (m : M G A) : Prop :=
  forall w, builds (snd (m w)) = builds w.

(** The pieces of a split but the first and the last. *)
Definition interior (pieces : list string) : list string := removelast (tl pieces).

(** The repository [getBranches] of commands/branches.ts works on: the
    one named, or the first of the configuration. *)
Definition branchesRepo (config : EtzConfig) (repoName : option string)
  : option RepoConfig :=
  match present repoName with
  | Some n => find (fun r => String.eqb (name r) n) (repos config)
  | None => hd_error (repos config)
  end.

(* ================================================================== *)
(** ** More worlds for the examples *)
(* ================================================================== *)

Module Sample.

Definition dryCreate (label branch : string) : Sw.SwitchOptions :=
  {| Sw.label := Some label; Sw.branchMap := None; Sw.default := Some branch;
     Sw.baseBranchMap := None; Sw.dryRun := Some true; Sw.repo := None |}.

Definition dryRemove (label : string) : Cl.CleanOptions :=
  {| Cl.label := label; Cl.repo := None; Cl.force := None;
     Cl.dryRun := Some true; Cl.deleteBranches := None |}.

(** A listing as git prints it: the base clone, a locked worktree on
    another commit, a detached and prunable one. *)
Definition listing : list Printed :=
  [{| shown := {| wt_path := "/r/ios"; wt_branch := "main"; wt_bare := false |};
      before := ["HEAD 1111111111111111111111111111111111111111"];
      after := [] |};
   {| shown := {| wt_path := "/wt/auth/app-ios"; wt_branch := "auth-feature";
                  wt_bare := false |};
      before := ["HEAD 2222222222222222222222222222222222222222"];
      after := ["locked being reviewed"] |};
   {| shown := {| wt_path := "/wt/old/app-ios"; wt_branch := ""; wt_bare := false |};
      before := ["HEAD 3333333333333333333333333333333333333333"; "detached"];
      after := ["prunable gitdir file points to non-existent location"] |}].

(** A git that prints this listing and knows no other command. *)
Definition listingGit : Git unit :=
  fun c g d =>
    match cmd c with
    | Raw ["worktree"; "list"; "--porcelain"] => (inr (renderWorktrees listing), g, d)
    | _ => (inl "Error: unknown command", g, d)
    end.

Definition listed : World unit :=
  {| disk := [("/wt", Fs.Dir)]; gitState := tt; gitLog := []; builds := Build.empty |}.

(** The configuration of [Demo], its root written with a slash at the
    end. *)
Definition slashConfig : EtzConfig :=
  {| base_branch := "main"; worktrees_dir := "/wt/";
     repos := [Demo.ios; Demo.android] |}.

(** The answers of simple-git for the repositories of [Demo]: the
    branches of a base clone and of its remote, a clean status. *)
Definition parsed : Parsed Demo.Repos :=
  {| branchAll := fun repoPath rs d =>
       match find (fun e => String.eqb (fst e) repoPath) rs with
       | Some e =>
           (inr (Demo.heads (snd e)
                 ++ map (fun h => ("remotes/origin/" ++ h)%string)
                        (Demo.remoteHeads (snd e)))%list,
            rs, d)
       | None => (inl "Error: fatal: not a git repository", rs, d)
       end;
     statusOf := fun _ rs d =>
       (inr {| isClean := true; modified := []; staged := []; not_added := [];
               ahead := 0; behind := 0 |}, rs, d) |}.

(** A world without the root of the worktrees. *)
Definition noRoot : World Demo.Repos := Demo.world Demo.bothFresh [].

(** An Android worktree ready to be built. *)
Definition androidDisk : Fs.disk :=
  [("/wt", Fs.Dir); ("/wt/auth", Fs.Dir);
   ("/wt/auth/app-android", Fs.Dir); ("/wt/auth/app-android/gradlew", Fs.File);
   ("/wt/auth/project.mobile.infra", Fs.Dir);
   ("/wt/auth/project.mobile.infra/build", Fs.Dir);
   ("/wt/auth/project.mobile.infra/build/outputs", Fs.Dir)].

Definition buildAndroid : Pre.BuildOptions :=
  {| Pre.label := "auth"; Pre.platform := Pre.android; Pre.repo := "app-android" |}.

Definition noIOSChecks (label iosRepoPath infraRepoPath : string) (d : Fs.disk)
           (t : Build.Tracker) : list Pre.BuildPreCondition := [].


End Sample.

(* ================================================================== *)
(** * Properties *)
(* ================================================================== *)

(** ** Lists and strings *)

Lemma sliceLast_length {A} (n : nat) (l : list A) :
  length (Js.sliceLast n l) = Nat.min n (length l).
Proof.
  unfold Js.sliceLast. rewrite length_skipn. lia.
Qed.

Lemma sliceLast_short {A} (n : nat) (l : list A) :
  length l <= n -> Js.sliceLast n l = l.
Proof.
  intros H. unfold Js.sliceLast.
  replace (length l - n) with 0 by lia. reflexivity.
Qed.

(** Trimming to the last [n], appending and trimming again keeps the
    last [n] of the whole. *)
Lemma sliceLast_app {A} (n : nat) (a b : list A) :
  Js.sliceLast n (Js.sliceLast n a ++ b) = Js.sliceLast n (a ++ b).
Proof.
  unfold Js.sliceLast.
  rewrite !length_app, length_skipn.
  rewrite (skipn_app (length a + length b - n) a b).
  rewrite skipn_app, length_skipn, skipn_skipn.
  f_equal.
  - destruct (Nat.le_gt_cases (length a) (length a + length b - n)) as [Hge | Hlt].
    + rewrite !skipn_all2; [reflexivity | lia | lia].
    + f_equal. lia.
  - f_equal. lia.
Qed.

Lemma list_ascii_app (a b : string) :
  list_ascii_of_string (a ++ b) = (list_ascii_of_string a ++ list_ascii_of_string b)%list.
Proof.
  induction a as [| c a IH]; simpl; [reflexivity | now rewrite IH].
Qed.

Lemma list_ascii_inj (a b : string) :
  list_ascii_of_string a = list_ascii_of_string b -> a = b.
Proof.
  intros H.
  rewrite <- (string_of_list_ascii_of_string a), <- (string_of_list_ascii_of_string b).
  now rewrite H.
Qed.

(** ** The registry of active builds *)

Module BuildFacts.
Import Build.

(** No type name holds a colon, so a key determines its label and type. *)
Lemma getBuildKey_inj (l1 l2 : string) (t1 t2 : BuildType) :
  getBuildKey l1 (typeName t1) = getBuildKey l2 (typeName t2) -> l1 = l2 /\ t1 = t2.
Proof.
  unfold getBuildKey. intros H.
  apply (f_equal list_ascii_of_string) in H.
  rewrite !list_ascii_app in H.
  apply (f_equal (@rev ascii)) in H.
  rewrite !rev_app_distr in H.
  destruct t1, t2; simpl in H; try discriminate H;
    (split; [| reflexivity]);
    apply list_ascii_inj;
    rewrite <- (rev_involutive (list_ascii_of_string l1)),
            <- (rev_involutive (list_ascii_of_string l2));
    f_equal; now inversion H.
Qed.

Lemma has_In (k : string) (m : Registry) :
  has k m = true <-> In k (map fst m).
Proof.
  unfold has. rewrite existsb_exists, in_map_iff. split.
  - intros [e [Hin Heq]]. apply String.eqb_eq in Heq. now exists e.
  - intros [e [Heq Hin]]. exists e. split; [assumption |]. now apply String.eqb_eq.
Qed.

Lemma get_In (k : string) (m : Registry) (b : ActiveBuild) :
  get k m = Some b -> In (k, b) m.
Proof.
  unfold get. destruct (find _ m) as [[k' b'] |] eqn:F; [| discriminate].
  intros [= <-]. apply find_some in F as [Hin Heq].
  simpl in Heq. apply String.eqb_eq in Heq. now subst.
Qed.

Lemma get_has (k : string) (m : Registry) :
  has k m = match get k m with Some _ => true | None => false end.
Proof.
  unfold has, get. induction m as [| e m IH]; simpl; [reflexivity |].
  destruct (String.eqb (fst e) k); simpl; [reflexivity | exact IH].
Qed.

Lemma map_fst_replace (k : string) (v : ActiveBuild) (m : Registry) :
  map fst (map (fun e => if String.eqb (fst e) k then (k, v) else e) m) = map fst m.
Proof.
  induction m as [| e m IH]; simpl; [reflexivity |].
  rewrite IH. f_equal.
  destruct (String.eqb (fst e) k) eqn:E; [| reflexivity].
  apply String.eqb_eq in E. now rewrite E.
Qed.

Lemma get_set_same (k : string) (v : ActiveBuild) (m : Registry) :
  get k (set k v m) = Some v.
Proof.
  unfold set. rewrite get_has. unfold get.
  induction m as [| e m IH]; simpl.
  - now rewrite String.eqb_refl.
  - destruct (String.eqb (fst e) k) eqn:E; simpl.
    + now rewrite String.eqb_refl.
    + destruct (find _ m) eqn:F; simpl in *; rewrite E; exact IH.
Qed.

Lemma get_set_other (k k' : string) (v : ActiveBuild) (m : Registry) :
  k' <> k -> get k' (set k v m) = get k' m.
Proof.
  intros Hne. apply String.eqb_neq in Hne.
  unfold set. rewrite get_has. unfold get.
  induction m as [| e m IH]; simpl.
  - rewrite String.eqb_sym. now rewrite Hne.
  - destruct (String.eqb (fst e) k) eqn:E; simpl.
    + apply String.eqb_eq in E. rewrite E.
      rewrite (String.eqb_sym k k'), Hne.
      clear IH. induction m as [| e' m IH']; simpl; [reflexivity |].
      destruct (String.eqb (fst e') k) eqn:E'; simpl.
      * apply String.eqb_eq in E'. rewrite E'.
        rewrite (String.eqb_sym k k'), Hne. exact IH'.
      * destruct (String.eqb (fst e') k'); [reflexivity | exact IH'].
    + destruct (find (fun e0 => String.eqb (fst e0) k) m) eqn:F; simpl in *;
        destruct (String.eqb (fst e) k'); try reflexivity; exact IH.
Qed.

Lemma has_delete (k : string) (m : Registry) : has k (delete k m) = false.
Proof.
  unfold has, delete. induction m as [| e m IH]; simpl; [reflexivity |].
  destruct (String.eqb (fst e) k) eqn:E; simpl; [exact IH |].
  now rewrite E.
Qed.

Lemma get_delete (k : string) (m : Registry) : get k (delete k m) = None.
Proof.
  pose proof (has_delete k m) as H. rewrite get_has in H.
  destruct (get k (delete k m)); [discriminate | reflexivity].
Qed.

Lemma NoDup_filter_keys (f : string * ActiveBuild -> bool) (m : Registry) :
  NoDup (map fst m) -> NoDup (map fst (filter f m)).
Proof.
  induction m as [| e m IH]; simpl; intros H; [constructor |].
  inversion H as [| ? ? Hnotin Hnd]; subst.
  destruct (f e); simpl; [constructor |]; auto.
  intros Hin. apply Hnotin.
  apply in_map_iff in Hin as [e' [Heq Hin']].
  apply filter_In in Hin' as [Hin' _].
  apply in_map_iff. now exists e'.
Qed.

Lemma Forall_filter {A} (P : A -> Prop) (f : A -> bool) (l : list A) :
  Forall P l -> Forall P (filter f l).
Proof.
  rewrite !Forall_forall. intros H x Hin.
  apply filter_In in Hin as [Hin _]. auto.
Qed.

(** A key that occurs once selects at most one entry. *)
Lemma NoDup_one_entry (k : string) (m : Registry) :
  NoDup (map fst m) ->
  length (filter (fun e => String.eqb (fst e) k) m) <= 1.
Proof.
  induction m as [| e m IH]; simpl; intros H; [lia |].
  inversion H as [| ? ? Hnotin Hnd]; subst.
  destruct (String.eqb (fst e) k) eqn:E; simpl; [| auto].
  apply String.eqb_eq in E.
  assert (filter (fun e0 => String.eqb (fst e0) k) m = []) as ->; [| simpl; lia].
  destruct (filter _ m) as [| e' rest] eqn:F; [reflexivity | exfalso].
  assert (In e' (filter (fun e0 => String.eqb (fst e0) k) m)) as Hin
      by (rewrite F; now left).
  apply filter_In in Hin as [Hin Hk]. apply String.eqb_eq in Hk.
  apply Hnotin. rewrite E, <- Hk. now apply in_map.
Qed.

Lemma typeEqb_eq (a b : BuildType) : typeEqb a b = true <-> a = b.
Proof. destruct a, b; simpl; split; congruence. Qed.

Lemma wellFormed_empty : wellFormed empty.
Proof. split; simpl; constructor. Qed.

(** Registering a build under a key that is free. *)
Lemma wellFormed_spawn (t : Tracker) (lbl : string) (ty : BuildType) (pid now : nat) :
  wellFormed t ->
  validateLabel lbl = inr tt ->
  has (getBuildKey lbl (typeName ty)) (activeBuilds t) = false ->
  wellFormed
    {| activeBuilds :=
         set (getBuildKey lbl (typeName ty))
             {| label := lbl; type := ty; process := pid; startTime := now;
                outputBuffer := [] |} (activeBuilds t);
       killed := killed t |}.
Proof.
  intros [Hnd Hall] Hv Hfree. unfold wellFormed, set; simpl. rewrite Hfree. split.
  - rewrite map_app; simpl.
    apply NoDup_app; [assumption | repeat constructor; intros [] | ].
    intros k Hin [<- | []].
    apply has_In in Hin. congruence.
  - apply Forall_app; split; [assumption |].
    constructor; [| constructor]. simpl.
    repeat split; [assumption | unfold MAX_OUTPUT_BUFFER_SIZE; lia].
Qed.

Lemma wellFormed_request (ty : BuildType) (lbl : string) (pid now : nat) (t : Tracker) :
  wellFormed t -> wellFormed (snd (request ty lbl pid now t)).
Proof.
  intros Hwf.
  assert (forall ty', wellFormed (snd (runBuildProcess lbl ty' pid now t))) as Hrun.
  { intros ty'. unfold runBuildProcess.
    destruct (validateLabel lbl) as [msg | []] eqn:Hv; [exact Hwf |].
    destruct (has _ (activeBuilds t)) eqn:Hhas; [exact Hwf |].
    now apply wellFormed_spawn. }
  destruct ty; simpl;
    [apply Hrun | apply Hrun | | apply Hrun].
  unfold buildIOS.
  destruct (validateLabel lbl) as [msg | []] eqn:Hv; [exact Hwf |].
  destruct (has _ (activeBuilds t)) eqn:Hhas; [exact Hwf |].
  now apply (wellFormed_spawn t lbl build_ios).
Qed.

Lemma onData_buffer_bound (old lines : list string) :
  length (if (MAX_OUTPUT_BUFFER_SIZE <? length (old ++ lines)%list)%nat
          then Js.sliceLast MAX_OUTPUT_BUFFER_SIZE (old ++ lines)%list
          else (old ++ lines)%list) <= MAX_OUTPUT_BUFFER_SIZE.
Proof.
  destruct (Nat.ltb_spec MAX_OUTPUT_BUFFER_SIZE (length (old ++ lines)%list)).
  - rewrite sliceLast_length. lia.
  - assumption.
Qed.

Lemma wellFormed_onData (k text : string) (t : Tracker) :
  wellFormed t -> wellFormed (onData k text t).
Proof.
  intros [Hnd Hall]. unfold onData.
  destruct (get k (activeBuilds t)) as [b |] eqn:Hget; [| now split].
  pose proof (get_In _ _ _ Hget) as Hin.
  unfold wellFormed, set; simpl.
  rewrite get_has, Hget. rewrite map_fst_replace. split; [assumption |].
  rewrite Forall_forall in *. intros e He.
  apply in_map_iff in He as [e0 [<- He0]].
  destruct (String.eqb (fst e0) k); [| auto].
  specialize (Hall _ Hin) as [Hk [Hv _]]. simpl in *.
  repeat split; try assumption. apply onData_buffer_bound.
Qed.

Lemma wellFormed_step (t : Tracker) (e : Event) :
  wellFormed t -> wellFormed (step t e).
Proof.
  intros Hwf. destruct e as [ty lbl pid now | ty lbl text | ty lbl | lbl ty | lbl]; simpl.
  - now apply wellFormed_request.
  - now apply wellFormed_onData.
  - destruct Hwf as [Hnd Hall]. split; simpl;
      [now apply NoDup_filter_keys | now apply Forall_filter].
  - unfold killBuild. destruct (validateLabel lbl); [exact Hwf |].
    destruct (get _ _); [| exact Hwf].
    destruct Hwf as [Hnd Hall]. split; simpl;
      [now apply NoDup_filter_keys | now apply Forall_filter].
  - unfold killAllBuildsForLabel. destruct (validateLabel lbl); [exact Hwf |].
    destruct Hwf as [Hnd Hall]. split; simpl;
      [now apply NoDup_filter_keys | now apply Forall_filter].
Qed.

(** Every state the tracker can reach is well formed. *)
Lemma wellFormed_run (es : list Event) (t : Tracker) :
  wellFormed t -> wellFormed (run t es).
Proof.
  revert t. induction es as [| e es IH]; intros t Hwf; simpl; [assumption |].
  apply IH. now apply wellFormed_step.
Qed.

(** In a well-formed registry the entries of a label and type are the
    entries of their key. *)
Lemma activeFor_by_key (lbl : string) (ty : BuildType) (t : Tracker) :
  wellFormed t ->
  activeFor lbl ty t =
  filter (fun e => String.eqb (fst e) (getBuildKey lbl (typeName ty))) (activeBuilds t).
Proof.
  intros [_ Hall]. unfold activeFor. apply filter_ext_in.
  intros e Hin. rewrite Forall_forall in Hall. destruct (Hall _ Hin) as [Hk _].
  destruct (String.eqb (fst e) _) eqn:E.
  - apply String.eqb_eq in E. rewrite Hk in E.
    apply getBuildKey_inj in E as [-> ->].
    rewrite String.eqb_refl. now destruct ty.
  - apply String.eqb_neq in E.
    destruct (String.eqb (label (snd e)) lbl) eqn:El; [| reflexivity].
    destruct (typeEqb (type (snd e)) ty) eqn:Et; [| reflexivity].
    apply String.eqb_eq in El. apply typeEqb_eq in Et.
    exfalso. apply E. now rewrite Hk, El, Et.
Qed.

(** A key of a well-formed registry belongs to a valid label. *)
Lemma wellFormed_key_valid (lbl : string) (ty : BuildType) (t : Tracker) :
  wellFormed t ->
  has (getBuildKey lbl (typeName ty)) (activeBuilds t) = true ->
  validateLabel lbl = inr tt.
Proof.
  intros [_ Hall] Hhas. rewrite get_has in Hhas.
  destruct (get _ _) as [b |] eqn:Hget; [| discriminate].
  apply get_In in Hget. rewrite Forall_forall in Hall.
  destruct (Hall _ Hget) as [Hk [Hv _]]. simpl in *.
  apply getBuildKey_inj in Hk as [-> _]. exact Hv.
Qed.

Lemma request_busy (ty : BuildType) (lbl : string) (pid now : nat) (t : Tracker) :
  validateLabel lbl = inr tt ->
  has (getBuildKey lbl (typeName ty)) (activeBuilds t) = true ->
  exists msg,
    request ty lbl pid now t
    = (Resolved {| success := false; output := ""; error := Some msg |}, t)
    /\ Js.includes msg "already in progress" = true.
Proof.
  intros Hv Hhas.
  destruct ty; simpl in *;
    unfold runPodInstall, buildInfraIOS, buildAndroid, runBuildProcess, buildIOS;
    rewrite Hv; simpl; rewrite Hhas; eexists; split; reflexivity.
Qed.

Lemma request_free (ty : BuildType) (lbl : string) (pid now : nat) (t : Tracker) :
  validateLabel lbl = inr tt ->
  has (getBuildKey lbl (typeName ty)) (activeBuilds t) = false ->
  request ty lbl pid now t
  = (Pending,
     {| activeBuilds :=
          set (getBuildKey lbl (typeName ty))
              {| label := lbl; type := ty; process := pid; startTime := now;
                 outputBuffer := [] |} (activeBuilds t);
        killed := killed t |}).
Proof.
  intros Hv Hfree.
  destruct ty; simpl in *;
    unfold runPodInstall, buildInfraIOS, buildAndroid, runBuildProcess, buildIOS;
    rewrite Hv; simpl; rewrite Hfree; reflexivity.
Qed.

Lemma kill_frees (lbl : string) (ty : BuildType) (t : Tracker) :
  wellFormed t ->
  has (getBuildKey lbl (typeName ty))
      (activeBuilds (snd (killBuild lbl (typeName ty) t))) = false.
Proof.
  intros Hwf. unfold killBuild.
  destruct (validateLabel lbl) as [msg | []] eqn:Hv; simpl.
  - destruct (has _ _) eqn:Hhas; [| reflexivity].
    apply (wellFormed_key_valid _ _ _ Hwf) in Hhas. congruence.
  - destruct (get _ _) eqn:Hget; simpl.
    + apply has_delete.
    + rewrite get_has. now rewrite Hget.
Qed.

Lemma killAll_frees (lbl : string) (ty : BuildType) (t : Tracker) :
  wellFormed t ->
  has (getBuildKey lbl (typeName ty))
      (activeBuilds (snd (killAllBuildsForLabel lbl t))) = false.
Proof.
  intros Hwf. unfold killAllBuildsForLabel.
  destruct (validateLabel lbl) as [msg | []] eqn:Hv; simpl.
  - destruct (has _ _) eqn:Hhas; [| reflexivity].
    apply (wellFormed_key_valid _ _ _ Hwf) in Hhas. congruence.
  - destruct (has _ _) eqn:Hhas; [| reflexivity]. exfalso.
    apply has_In, in_map_iff in Hhas as [e [Hk Hin]].
    apply filter_In in Hin as [Hin Hother].
    destruct Hwf as [_ Hall]. rewrite Forall_forall in Hall.
    destruct (Hall _ Hin) as [Hkey _]. rewrite Hkey in Hk.
    apply getBuildKey_inj in Hk as [Hl _].
    rewrite Hl, String.eqb_refl in Hother. discriminate.
Qed.

Lemma kept_is_sliceLast (pushed : list string) :
  (if (MAX_OUTPUT_BUFFER_SIZE <? length pushed)%nat
   then Js.sliceLast MAX_OUTPUT_BUFFER_SIZE pushed else pushed)
  = Js.sliceLast MAX_OUTPUT_BUFFER_SIZE pushed.
Proof.
  destruct (Nat.ltb_spec MAX_OUTPUT_BUFFER_SIZE (length pushed)); [reflexivity |].
  symmetry. now apply sliceLast_short.
Qed.

(** The buffer after a run of chunks is the last 500 of all the lines. *)
Lemma onData_chunks (k : string) (chunks : list string) :
  forall (t : Tracker) (b : ActiveBuild) (sofar : list string),
    get k (activeBuilds t) = Some b ->
    outputBuffer b = Js.sliceLast MAX_OUTPUT_BUFFER_SIZE sofar ->
    exists b',
      get k (activeBuilds (fold_left (fun t' text => onData k text t') chunks t))
      = Some b'
      /\ outputBuffer b'
         = Js.sliceLast MAX_OUTPUT_BUFFER_SIZE
             (sofar ++ concat (map chunkLines chunks))%list.
Proof.
  induction chunks as [| c chunks IH]; intros t b sofar Hget Hbuf; simpl.
  - exists b. now rewrite app_nil_r.
  - destruct (IH (onData k c t)
                 (withOutput b (Js.sliceLast MAX_OUTPUT_BUFFER_SIZE
                                  (sofar ++ chunkLines c)%list))
                 (sofar ++ chunkLines c)%list) as [b' [Hget' Hbuf']].
    + unfold onData. rewrite Hget. simpl.
      rewrite get_set_same. f_equal. f_equal.
      rewrite kept_is_sliceLast, Hbuf. apply sliceLast_app.
    + reflexivity.
    + exists b'. split; [exact Hget' |]. now rewrite Hbuf', <- app_assoc.
Qed.

Lemma run_data (ty : BuildType) (lbl : string) (chunks : list string) (t : Tracker) :
  run t (map (Data ty lbl) chunks)
  = fold_left (fun t' text => onData (getBuildKey lbl (typeName ty)) text t') chunks t.
Proof.
  revert t. induction chunks as [| c chunks IH]; intros t; simpl; [reflexivity |].
  apply IH.
Qed.

Lemma getBuildOutput_bound (lbl : string) (ty : option string) (t : Tracker) :
  wellFormed t -> length (getBuildOutput lbl ty t) <= MAX_OUTPUT_BUFFER_SIZE.
Proof.
  intros [_ Hall]. rewrite Forall_forall in Hall.
  assert (forall k b, get k (activeBuilds t) = Some b ->
                      length (outputBuffer b) <= MAX_OUTPUT_BUFFER_SIZE) as Hget.
  { intros k b H. apply get_In in H. now destruct (Hall _ H) as (_ & _ & Hb). }
  assert (length match firstForLabel lbl (activeBuilds t) with
                 | Some build => outputBuffer build
                 | None => []
                 end <= MAX_OUTPUT_BUFFER_SIZE) as Hany.
  { unfold firstForLabel. destruct (find _ _) as [e |] eqn:F; simpl; [| lia].
    apply find_some in F as [Hin _]. now destruct (Hall _ Hin) as (_ & _ & Hb). }
  unfold getBuildOutput. destruct (validateLabel lbl); simpl; [lia |].
  destruct ty as [ty' |]; [| exact Hany].
  destruct (Js.truthy ty'); [| exact Hany].
  destruct (get _ _) eqn:G; simpl; [eauto | lia].
Qed.

End BuildFacts.

(** The registry on its own: it holds at most one entry per
    [(label, buildType)] in every state it reaches; a request for a key
    that is registered is resolved at once with an "already in progress"
    error and leaves the registry as it was (nothing is queued); the
    close handler of a child of the key, a kill of the build or of all
    the builds of its label, removes the key, after which a request for
    the same key is accepted and registered. *)
Theorem registry_keys_are_exclusive
        (es : list Build.Event) (lbl : string) (ty : Build.BuildType) (pid now : nat) :
  let t := Build.run Build.empty es in
  let key := Build.getBuildKey lbl (Build.typeName ty) in
  length (Build.activeFor lbl ty t) <= 1
  /\ (Build.has key (Build.activeBuilds t) = true ->
      exists msg,
        Build.request ty lbl pid now t
        = (Build.Resolved {| Build.success := false; Build.output := "";
                             Build.error := Some msg |}, t)
        /\ Js.includes msg "already in progress" = true)
  /\ (forall t',
        t' = Build.step t (Build.Close ty lbl)
        \/ t' = Build.step t (Build.Kill lbl (Build.typeName ty))
        \/ t' = Build.step t (Build.KillAll lbl) ->
        Build.has key (Build.activeBuilds t') = false
        /\ (validateLabel lbl = inr tt ->
            fst (Build.request ty lbl pid now t') = Build.Pending
            /\ Build.get key (Build.activeBuilds (snd (Build.request ty lbl pid now t')))
               = Some {| Build.label := lbl; Build.type := ty; Build.process := pid;
                         Build.startTime := now; Build.outputBuffer := [] |})).
Proof.
  intros t key.
  assert (Build.wellFormed t) as Hwf
      by (apply BuildFacts.wellFormed_run, BuildFacts.wellFormed_empty).
  split; [| split].
  - rewrite (BuildFacts.activeFor_by_key _ _ _ Hwf).
    apply BuildFacts.NoDup_one_entry. apply Hwf.
  - intros Hhas. apply BuildFacts.request_busy; [| exact Hhas].
    exact (BuildFacts.wellFormed_key_valid _ _ _ Hwf Hhas).
  - intros t' Ht'.
    assert (Build.has key (Build.activeBuilds t') = false) as Hfree.
    { destruct Ht' as [-> | [-> | ->]]; simpl.
      - apply BuildFacts.has_delete.
      - now apply BuildFacts.kill_frees.
      - now apply BuildFacts.killAll_frees. }
    split; [exact Hfree |]. intros Hv.
    rewrite (BuildFacts.request_free _ _ _ _ _ Hv Hfree). simpl.
    split; [reflexivity | apply BuildFacts.get_set_same].
Qed.

Section RestartRace.

Import Build BuildFacts Children.

Lemma wellFormed_close (k : string) (t : Tracker) :
  wellFormed t -> wellFormed (onClose k t).
Proof.
  intros [Hnd Hall]. split; simpl;
    [now apply NoDup_filter_keys | now apply Forall_filter].
Qed.

Lemma wellFormed_act (s : System) (a : Action) :
  wellFormed (tracker s) -> wellFormed (tracker (act s a)).
Proof.
  intros Hwf. destruct a as [ty lbl h now | h text | h | lbl ty | lbl]; simpl.
  - pose proof (wellFormed_request ty lbl h now _ Hwf) as H.
    destruct (request ty lbl h now (tracker s)) as [[r |] t]; exact H.
  - destruct (childOf h (running s)); [now apply wellFormed_onData | exact Hwf].
  - destruct (childOf h (running s)); [now apply wellFormed_close | exact Hwf].
  - exact (wellFormed_step _ (Kill lbl ty) Hwf).
  - exact (wellFormed_step _ (KillAll lbl) Hwf).
Qed.

Lemma wellFormed_reached (actions : list Action) (s : System) :
  wellFormed (tracker s) -> wellFormed (tracker (Children.run s actions)).
Proof.
  revert s. induction actions as [| a actions IH]; intros s Hwf; simpl; [assumption |].
  apply IH. now apply wellFormed_act.
Qed.

Lemma delete_free (k : string) (m : Registry) : has k m = false -> delete k m = m.
Proof.
  unfold has, delete. induction m as [| e m IH]; simpl; [reflexivity |].
  destruct (String.eqb (fst e) k); simpl; [discriminate |].
  intros H. now rewrite IH.
Qed.

Lemma set_free (k : string) (v : ActiveBuild) (m : Registry) :
  has k m = false -> set k v m = (m ++ [(k, v)])%list.
Proof. intros H. unfold set. now rewrite H. Qed.

Lemma delete_set_free (k : string) (v : ActiveBuild) (m : Registry) :
  has k m = false -> delete k (set k v m) = m.
Proof.
  intros H. rewrite (set_free _ _ _ H). unfold delete. rewrite filter_app.
  cbn [filter fst]. rewrite String.eqb_refl. cbn [negb]. rewrite app_nil_r.
  now apply delete_free.
Qed.

Lemma find_past {A} (f : A -> bool) (l1 l2 : list A) :
  existsb f l1 = false -> find f (l1 ++ l2)%list = find f l2.
Proof.
  induction l1 as [| x l1 IH]; simpl; [reflexivity |].
  destruct (f x); simpl; [discriminate | exact IH].
Qed.

Lemma filter_past {A} (f : A -> bool) (l : list A) :
  existsb f l = false -> filter (fun x => negb (f x)) l = l.
Proof.
  induction l as [| x l IH]; simpl; [reflexivity |].
  destruct (f x); simpl; [discriminate |]. intros H. now rewrite IH.
Qed.


(** The live children of a key are not touched by a signal sent to a
    child that is not among those running. *)
Lemma alive_after_signal (k : string) (cs : list Child) (dead : list nat) (h : nat) :
  existsb (fun c => Nat.eqb (handle c) h) cs = false ->
  filter (fun c => String.eqb (buildKey c) k
                   && negb (existsb (Nat.eqb (handle c)) (dead ++ [h])%list)) cs
  = filter (fun c => String.eqb (buildKey c) k
                     && negb (existsb (Nat.eqb (handle c)) dead)) cs.
Proof.
  intros Hfresh. apply filter_ext_in. intros c Hin.
  rewrite existsb_app. cbn [existsb].
  assert (Nat.eqb (handle c) h = false) as ->.
  { destruct (Nat.eqb (handle c) h) eqn:E; [| reflexivity].
    assert (existsb (fun c => Nat.eqb (handle c) h) cs = true) as Hex
        by (apply existsb_exists; now exists c).
    congruence. }
  now rewrite !orb_false_r.
Qed.

(** C2.  The code does not keep one build per key.  In any state the
    registry and the children reach in which the key is free, a build
    is started, killed, and asked for again before the killed child has
    exited: when that child then exits, its ['close'] handler deletes
    the key, which by now is the key of the second child.  From there
    the registry is what it was at the beginning, the second child runs
    without an entry ([isBuildInProgress] is false), a third request
    for the key is accepted, and two more children of the same
    [(label, buildType)], neither of them killed, run at the same time.
    The handles are those [spawn] returns: each is a new object. *)
Theorem restart_after_kill_runs_two_builds
        (history : list Action) (lbl : string) (ty : BuildType)
        (h1 h2 h3 n1 n2 n3 : nat) :
  let s := Children.run start history in
  let key := getBuildKey lbl (typeName ty) in
  validateLabel lbl = inr tt ->
  has key (activeBuilds (tracker s)) = false ->
  fresh h1 s = true -> fresh h2 s = true -> fresh h3 s = true ->
  h1 <> h2 -> h1 <> h3 -> h2 <> h3 ->
  let restarted :=
    Children.run s [Start ty lbl h1 n1; Stop lbl (typeName ty); Start ty lbl h2 n2] in
  let orphaned := act restarted (Exit h1) in
  let doubled := act orphaned (Start ty lbl h3 n3) in
  (get key (activeBuilds (tracker restarted))
   = Some {| label := lbl; type := ty; process := h2; startTime := n2;
             outputBuffer := [] |}
   /\ alive key restarted = (alive key s ++ [h2])%list)
  /\ (alive key orphaned = (alive key s ++ [h2])%list
      /\ activeBuilds (tracker orphaned) = activeBuilds (tracker s)
      /\ isBuildInProgress lbl (Some (typeName ty)) (tracker orphaned) = false)
  /\ (fst (request ty lbl h3 n3 (tracker orphaned)) = Pending
      /\ alive key doubled = (alive key s ++ [h2; h3])%list
      /\ activeFor lbl ty (tracker doubled)
         = [(key, {| label := lbl; type := ty; process := h3; startTime := n3;
                     outputBuffer := [] |})]).
Proof.
  intros s key Hv Hkey F1 F2 F3 H12 H13 H23 restarted orphaned doubled.
  assert (wellFormed (tracker s)) as Hwf
      by (apply wellFormed_reached, wellFormed_empty).
  assert (forall a b : nat, a <> b -> Nat.eqb a b = false) as Hneq
      by (intros a b H; now apply Nat.eqb_neq).
  apply andb_prop in F1 as [R1 K1]. apply andb_prop in F2 as [R2 K2].
  apply andb_prop in F3 as [R3 K3].
  apply negb_true_iff in R1, R2, R3, K1, K2, K3.
  destruct s as [[m dead] cs] eqn:Hs. cbn [tracker activeBuilds running killed] in *.
  set (build := fun h now => {| label := lbl; type := ty; process := h;
                                startTime := now; outputBuffer := [] |}).
  set (child := fun h => {| handle := h; buildKey := key |}).
  assert (forall h now dead',
             request ty lbl h now {| activeBuilds := m; killed := dead' |}
             = (Pending, {| activeBuilds := (m ++ [(key, build h now)])%list;
                            killed := dead' |}))
    as Hfree.
  { intros h now dead'.
    rewrite (request_free ty lbl h now {| activeBuilds := m; killed := dead' |}
               Hv Hkey).
    cbn [activeBuilds killed]. fold key. now rewrite (set_free _ _ _ Hkey). }
  assert (forall b, delete key (m ++ [(key, b)])%list = m) as Hdelete.
  { intros b. rewrite <- (set_free key b m Hkey). now apply delete_set_free. }
  assert (restarted
          = {| tracker := {| activeBuilds := (m ++ [(key, build h2 n2)])%list;
                             killed := (dead ++ [h1])%list |};
               running := (cs ++ [child h1; child h2])%list |}) as Hrestarted.
  { subst restarted. unfold Children.run. cbn [fold_left].
    assert (act {| tracker := {| activeBuilds := m; killed := dead |}; running := cs |}
                (Start ty lbl h1 n1)
            = {| tracker := {| activeBuilds := (m ++ [(key, build h1 n1)])%list;
                               killed := dead |};
                 running := (cs ++ [child h1])%list |}) as ->.
    { unfold act. cbn [tracker running]. now rewrite Hfree. }
    assert (killBuild lbl (typeName ty)
              {| activeBuilds := (m ++ [(key, build h1 n1)])%list; killed := dead |}
            = (true, {| activeBuilds := m; killed := (dead ++ [h1])%list |})) as Hkill.
    { unfold killBuild. rewrite Hv. fold key.
      cbn [activeBuilds killed].
      rewrite <- (set_free key (build h1 n1) m Hkey), get_set_same.
      rewrite (set_free key (build h1 n1) m Hkey), Hdelete. reflexivity. }
    unfold act at 2. cbn [tracker running]. rewrite Hkill. cbn [snd].
    unfold act. cbn [tracker running]. rewrite Hfree.
    now rewrite <- app_assoc. }
  assert (orphaned
          = {| tracker := {| activeBuilds := m; killed := (dead ++ [h1])%list |};
               running := (cs ++ [child h2])%list |}) as Horphaned.
  { subst orphaned. rewrite Hrestarted.
    unfold act, childOf. cbn [running].
    rewrite (find_past _ cs _ R1). cbn [find handle child]. rewrite Nat.eqb_refl.
    cbn [buildKey tracker]. unfold onClose. cbn [activeBuilds killed].
    rewrite Hdelete. rewrite filter_app, (filter_past _ cs R1).
    cbn [filter handle child]. rewrite Nat.eqb_refl.
    rewrite (Hneq h2 h1) by congruence. reflexivity. }
  assert (request ty lbl h3 n3 (tracker orphaned)
          = (Pending, {| activeBuilds := (m ++ [(key, build h3 n3)])%list;
                         killed := (dead ++ [h1])%list |}))
    as Hthird by (rewrite Horphaned; apply Hfree).
  assert (doubled
          = {| tracker := {| activeBuilds := (m ++ [(key, build h3 n3)])%list;
                             killed := (dead ++ [h1])%list |};
               running := (cs ++ [child h2; child h3])%list |}) as Hdoubled.
  { subst doubled. unfold act. rewrite Hthird. rewrite Horphaned.
    cbn [running]. now rewrite <- app_assoc. }
  assert (forall h, h <> h1 -> existsb (Nat.eqb h) dead = false ->
             String.eqb (buildKey (child h)) key
             && negb (existsb (Nat.eqb (handle (child h))) (dead ++ [h1])%list) = true)
    as Hlives.
  { intros h Hh Hk. cbn [child buildKey handle]. rewrite existsb_app, Hk.
    cbn [existsb]. now rewrite String.eqb_refl, (Hneq h h1 Hh). }
  assert (String.eqb (buildKey (child h1)) key
          && negb (existsb (Nat.eqb (handle (child h1))) (dead ++ [h1])%list) = false)
    as Hdead.
  { cbn [child buildKey handle]. rewrite existsb_app. cbn [existsb].
    now rewrite String.eqb_refl, Nat.eqb_refl, orb_true_r. }
  assert (activeFor lbl ty {| activeBuilds := m; killed := (dead ++ [h1])%list |} = [])
    as Hnone.
  { rewrite activeFor_by_key by exact Hwf. cbn [activeBuilds]. fold key.
    clear - Hkey. unfold has in Hkey.
    induction m as [| e m IH]; cbn [filter existsb] in *; [reflexivity |].
    apply orb_false_elim in Hkey as [-> Hm]. now apply IH. }
  rewrite Hthird, Hrestarted, Horphaned, Hdoubled.
  unfold alive, isBuildInProgress.
  cbn [tracker running activeBuilds killed].
  rewrite !filter_app, !alive_after_signal by exact R1.
  cbn [filter]. rewrite Hv, Hdead, !Hlives by congruence.
  rewrite !map_app. cbn [map handle child].
  rewrite <- (set_free key (build h2 n2) m Hkey), get_set_same.
  assert (Js.truthy (typeName ty) = true) as -> by (now destruct ty).
  fold key. rewrite Hkey.
  assert (activeFor lbl ty {| activeBuilds := (m ++ [(key, build h3 n3)])%list;
                              killed := (dead ++ [h1])%list |}
          = [(key, build h3 n3)]) as ->.
  { unfold activeFor in *. cbn [activeBuilds] in *. rewrite filter_app, Hnone.
    cbn [filter snd label type build app].
    rewrite String.eqb_refl.
    assert (typeEqb ty ty = true) as -> by (now apply typeEqb_eq). reflexivity. }
  repeat split.
Qed.

End RestartRace.

(** C6.  In every state the tracker reaches each buffer holds at most
    500 lines, and so does what [getBuildOutput] returns; the lines kept
    are the most recent ones: after the chunks of a build, the output is
    the last 500 of all the lines they held, in order. *)
Theorem output_buffer_bounded
        (es : list Build.Event) (lbl : string) (ty : Build.BuildType) :
  (forall k b, Build.get k (Build.activeBuilds (Build.run Build.empty es)) = Some b ->
               length (Build.outputBuffer b) <= 500)
  /\ (forall ty', length (Build.getBuildOutput lbl ty' (Build.run Build.empty es)) <= 500)
  /\ (forall (t : Build.Tracker) (pid now : nat) (chunks : list string),
        validateLabel lbl = inr tt ->
        Build.has (Build.getBuildKey lbl (Build.typeName ty)) (Build.activeBuilds t) = false ->
        let started := snd (Build.request ty lbl pid now t) in
        let lines := concat (map Build.chunkLines chunks) in
        Build.getBuildOutput lbl (Some (Build.typeName ty))
          (Build.run started (map (Build.Data ty lbl) chunks))
        = skipn (length lines - 500) lines).
Proof.
  assert (Build.wellFormed (Build.run Build.empty es)) as Hwf
      by (apply BuildFacts.wellFormed_run, BuildFacts.wellFormed_empty).
  split; [| split].
  - intros k b Hget. apply BuildFacts.get_In in Hget.
    destruct Hwf as [_ Hall]. rewrite Forall_forall in Hall.
    now destruct (Hall _ Hget) as (_ & _ & Hb).
  - intros ty'. now apply BuildFacts.getBuildOutput_bound.
  - intros t pid now chunks Hv Hfree started lines. subst started.
    rewrite (BuildFacts.request_free _ _ _ _ _ Hv Hfree). simpl.
    rewrite BuildFacts.run_data.
    match goal with
    | |- context [fold_left _ chunks ?t0] =>
        destruct (BuildFacts.onData_chunks (Build.getBuildKey lbl (Build.typeName ty))
                    chunks t0 _ [] (BuildFacts.get_set_same _ _ _) eq_refl)
          as [b' [Hget Hbuf]]
    end.
    unfold Build.getBuildOutput. rewrite Hv.
    assert (Js.truthy (Build.typeName ty) = true) as -> by now destruct ty.
    simpl in Hget. rewrite Hget, Hbuf. reflexivity.
Qed.

(** ** The engines *)

Section EngineFacts.

Context {G : Type}.
Variable git : Git G.
Variable homedir : string.

Lemma forEachRepo_app {R} (body : RepoConfig -> M G (option R))
      (before after : list RepoConfig) (w : World G) :
  forEachRepo body (before ++ after)%list w
  = let (found, w1) := forEachRepo body before w in
    let (rest, w2) := forEachRepo body after w1 in
    ((found ++ rest)%list, w2).
Proof.
  revert w. induction before as [| r before IH]; intros w; simpl.
  - unfold ret. now destruct (forEachRepo body after w).
  - unfold bind. destruct (body r w) as [res w0].
    rewrite IH.
    destruct (forEachRepo body before w0) as [found w1].
    unfold ret. destruct res; cbn;
      destruct (forEachRepo body after w1) as [rest w2]; reflexivity.
Qed.

Lemma lookup_addDir (d : Fs.disk) (q p : string) :
  Fs.existsSync d p = true -> Fs.existsSync (Fs.addDir d q) p = true.
Proof.
  unfold Fs.addDir. destruct (Fs.existsSync d q); [trivial |].
  unfold Fs.existsSync, Fs.lookup.
  induction d as [| e d IH]; simpl; [discriminate |].
  destruct (String.eqb (fst e) p); [trivial | exact IH].
Qed.

Lemma existsSync_mkdirSync (d : Fs.disk) (q p : string) :
  Fs.existsSync d p = true -> Fs.existsSync (Fs.mkdirSync d q) p = true.
Proof.
  unfold Fs.mkdirSync.
  generalize (Fs.ancestors [] (list_ascii_of_string q) ++ [q])%list. intros dirs.
  revert d. induction dirs as [| x dirs IH]; intros d H; simpl; [assumption |].
  apply IH. now apply lookup_addDir.
Qed.

Lemma top_label_ok (options : Sw.SwitchOptions) (branch : string) :
  validateLabel (orString (Sw.label options) branch) = inr tt ->
  match present (Sw.label options) with
  | Some l => validateLabel l
  | None => inr tt
  end = inr tt.
Proof.
  unfold orString. destruct (present (Sw.label options)); trivial.
Qed.

Lemma ensureParentDir_git (p : string) (w : World G) :
  gitLog (snd (ensureParentDir p w)) = gitLog w
  /\ gitState (snd (ensureParentDir p w)) = gitState w
  /\ builds (snd (ensureParentDir p w)) = builds w
  /\ (Fs.existsSync (disk w) (Path.dirname p) = true -> snd (ensureParentDir p w) = w)
  /\ (forall q, Fs.existsSync (disk w) q = true ->
                 Fs.existsSync (disk (snd (ensureParentDir p w))) q = true).
Proof.
  unfold ensureParentDir, bind, readDisk; simpl.
  destruct (Fs.existsSync (disk w) (Path.dirname p)) eqn:E; simpl;
    repeat split; auto; try discriminate.
  intros q Hq. now apply existsSync_mkdirSync.
Qed.

(** A repository that passes the checks of the loop body is handed to
    [ensureWorktree]. *)
Lemma switchRepo_reaches (config : EtzConfig) (options : Sw.SwitchOptions)
      (repo : RepoConfig) (branch : string) (w : World G) :
  filteredOut (Sw.repo options) repo = false ->
  resolveBranch options repo = Some branch ->
  validateBranchName branch = inr tt ->
  validateLabel (orString (Sw.label options) branch) = inr tt ->
  let worktreePath :=
    Path.join [worktrees_dir config; orString (Sw.label options) branch; name repo] in
  switchRepo git config options repo w
  = let (result, w') :=
      ensureWorktree git (name repo) (base_path repo) worktreePath branch
        (resolveBaseBranch config options repo) (flag (Sw.dryRun options))
        (snd (ensureParentDir worktreePath w)) in
    (Some result, w').
Proof.
  intros Hsel Hbranch Hvb Hvl worktreePath.
  unfold switchRepo. rewrite Hsel, Hbranch, Hvb, Hvl.
  fold worktreePath. unfold bind at 1.
  destruct (ensureParentDir worktreePath w) as [[] w0]. reflexivity.
Qed.

Lemma ensureWorktree_existing
      (repoName baseRepoPath worktreePath branch baseBranch : string) (dryRun : bool)
      (w : World G) :
  Fs.existsSync (disk w) worktreePath = true ->
  ensureWorktree git repoName baseRepoPath worktreePath branch baseBranch dryRun w
  = (mkSwitch repoName true ("Worktree already exists at " ++ worktreePath)
       Sw.already_exists, w).
Proof.
  intros H. unfold ensureWorktree, bind, readDisk. now rewrite H.
Qed.

(** C4.  In any call of create, when the turn of a repository comes
    whose worktree path exists on disk, its result is [already_exists]
    with [success = true], and no git command is run for it: the log and
    the state of git are as they were (and so is the whole world, the
    parent directory being there); the repositories before and after it
    are processed as usual. *)
Theorem create_existing_worktree_is_noop
        (config : EtzConfig) (options : Sw.SwitchOptions)
        (before after : list RepoConfig) (repo : RepoConfig) (branch : string)
        (w w1 : World G) (found : list Sw.SwitchResult) :
  repos config = (before ++ repo :: after)%list ->
  filteredOut (Sw.repo options) repo = false ->
  resolveBranch options repo = Some branch ->
  validateBranchName branch = inr tt ->
  validateLabel (orString (Sw.label options) branch) = inr tt ->
  let worktreePath :=
    Path.join [worktrees_dir config; orString (Sw.label options) branch; name repo] in
  forEachRepo (switchRepo git config options) before w = (found, w1) ->
  Fs.existsSync (disk w1) worktreePath = true ->
  exists w2,
    switchRepo git config options repo w1
    = (Some {| Sw.repoName := name repo; Sw.success := true;
               Sw.message := "Worktree already exists at " ++ worktreePath;
               Sw.status := Sw.already_exists |}, w2)
    /\ gitLog w2 = gitLog w1 /\ gitState w2 = gitState w1 /\ builds w2 = builds w1
    /\ (Fs.existsSync (disk w1) (Path.dirname worktreePath) = true -> w2 = w1)
    /\ switchToWorktree git config options w
       = let (rest, w3) := forEachRepo (switchRepo git config options) after w2 in
         ((found ++ {| Sw.repoName := name repo; Sw.success := true;
                       Sw.message := "Worktree already exists at " ++ worktreePath;
                       Sw.status := Sw.already_exists |} :: rest)%list, w3).
Proof.
  intros Hrepos Hsel Hbranch Hvb Hvl worktreePath Hbefore Hthere.
  destruct (ensureParentDir_git worktreePath w1) as (Hlog & Hst & Hb & Hsame & Hkeep).
  exists (snd (ensureParentDir worktreePath w1)).
  assert (switchRepo git config options repo w1
          = (Some (mkSwitch (name repo) true
                     ("Worktree already exists at " ++ worktreePath) Sw.already_exists),
             snd (ensureParentDir worktreePath w1))) as Hstep.
  { rewrite (switchRepo_reaches config options repo branch w1 Hsel Hbranch Hvb Hvl).
    fold worktreePath. rewrite ensureWorktree_existing; [reflexivity |].
    now apply Hkeep. }
  repeat split; try assumption.
  unfold switchToWorktree. rewrite (top_label_ok _ _ Hvl), Hrepos.
  rewrite forEachRepo_app, Hbefore. simpl forEachRepo.
  unfold bind at 1. rewrite Hstep. unfold bind, ret.
  destruct (forEachRepo _ after _) as [rest w3]. reflexivity.
Qed.

Lemma truthy_nonempty (s : string) : Js.truthy s = true <-> s <> "".
Proof. destruct s; simpl; split; congruence. Qed.


Lemma exec_log (repoPath : string) (c : GitCmd) (w w' : World G) (r : Throws string) :
  exec git repoPath c w = (r, w') ->
  gitLog w' = (gitLog w ++ [call repoPath c])%list.
Proof.
  unfold exec. destruct (git _ _ _) as [[reply g] d]. now intros [= _ <-].
Qed.

(** An operation that is one wrapped call adds that call to the log. *)
Lemma wrapped_log (operation repoPath : string) (c : GitCmd)
      (w w' : World G) (r : Throws unit) :
  discard (wrapped git operation repoPath c) w = (r, w') ->
  gitLog w' = (gitLog w ++ [call repoPath c])%list.
Proof.
  unfold discard, wrapped, bind, ret.
  destruct (exec git repoPath c w) as [reply w0] eqn:E.
  intros [= _ <-]. exact (exec_log _ _ _ _ _ E).
Qed.

Lemma findWorktreeByBranch_log (repoPath branch : string) (w w' : World G)
      (r : option string) :
  findWorktreeByBranch git repoPath branch w = (r, w') ->
  gitLog w' = (gitLog w ++ [call repoPath (Raw ["worktree"; "list"; "--porcelain"])])%list.
Proof.
  unfold findWorktreeByBranch, listWorktrees, wrapped, bind, ret.
  destruct (exec git repoPath _ w) as [reply w0] eqn:E.
  intros [= _ <-]. exact (exec_log _ _ _ _ _ E).
Qed.




(** [ensureWorktree] up to its [try] block. *)
Lemma ensureWorktree_attaches
      (repoName baseRepoPath worktreePath branch baseBranch : string)
      (w0 w1 : World G) (existing : option string) :
  Fs.existsSync (disk w0) worktreePath = false ->
  findWorktreeByBranch git baseRepoPath branch w0 = (existing, w1) ->
  present existing = None ->
  ensureWorktree git repoName baseRepoPath worktreePath branch baseBranch false w0
  = let (r, w') :=
      attachWorktree git repoName baseRepoPath worktreePath branch baseBranch w1 in
    (match r with
     | inr result => result
     | inl msg => mkSwitch repoName false ("Failed to create worktree: " ++ msg) Sw.error
     end, w').
Proof.
  intros Habsent Hfind Hfree.
  unfold ensureWorktree, bind, readDisk. rewrite Habsent, Hfind, Hfree.
  reflexivity.
Qed.


Ltac split_cases :=
  repeat (match goal with
          | |- context [git ?c ?g ?d] => destruct (git c g d) as [[[? | ?] ?] ?]
          | |- context [if ?x then _ else _] => destruct x
          end; cbv beta iota).

Ltac unfold_ops :=
  unfold attachWorktree, andThen, fetchRepo, createBranch, addWorktree,
    addWorktreeWithTracking, unsetUpstream, localBranchExists, remoteBranchExists,
    discard, wrapped, bind, ret, exec.

(** What the [try] block of [ensureWorktree] can throw: the error of a
    wrapped git operation. *)
Lemma attachWorktree_throws
      (repoName baseRepoPath worktreePath branch baseBranch msg : string)
      (w w' : World G) :
  attachWorktree git repoName baseRepoPath worktreePath branch baseBranch w
  = (inl msg, w') ->
  exists operation details,
    msg = GitOperationError operation details
    /\ In operation ["fetch"; "create-branch"; "add-worktree"; "add-worktree-tracking"].
Proof.
  unfold_ops. split_cases; intros [= <- _];
    do 2 eexists; (split; [reflexivity | simpl; tauto]).
Qed.

Lemma attachWorktree_repoName
      (repoName baseRepoPath worktreePath branch baseBranch : string)
      (r : Sw.SwitchResult) (w w' : World G) :
  attachWorktree git repoName baseRepoPath worktreePath branch baseBranch w
  = (inr r, w') ->
  Sw.repoName r = repoName.
Proof.
  unfold_ops. split_cases; intros [= <- _]; reflexivity.
Qed.

Lemma ensureWorktree_repoName
      (repoName baseRepoPath worktreePath branch baseBranch : string) (dryRun : bool)
      (w : World G) :
  Sw.repoName
    (fst (ensureWorktree git repoName baseRepoPath worktreePath branch baseBranch
            dryRun w)) = repoName.
Proof.
  unfold ensureWorktree, bind, ret, readDisk.
  destruct (Fs.existsSync _ _); [reflexivity |].
  destruct (findWorktreeByBranch _ _ _ _) as [existing w1].
  destruct (present existing); [reflexivity |].
  destruct dryRun; [reflexivity |].
  destruct (attachWorktree _ _ _ _ _ _ _) as [[msg | r] w2] eqn:E; [reflexivity |].
  exact (attachWorktree_repoName _ _ _ _ _ _ _ _ E).
Qed.

(** The loop body gives no result for a repository that is filtered
    out, and one result, under its name, for any other. *)
Lemma switchRepo_name (config : EtzConfig) (options : Sw.SwitchOptions)
      (repo : RepoConfig) (w : World G) :
  match fst (switchRepo git config options repo w) with
  | Some r => Sw.repoName r = name repo /\ filteredOut (Sw.repo options) repo = false
  | None => filteredOut (Sw.repo options) repo = true
  end.
Proof.
  unfold switchRepo.
  destruct (filteredOut _ _); [reflexivity |].
  destruct (resolveBranch _ _) as [branch |]; [| now split].
  destruct (validateBranchName _); [now split |].
  destruct (validateLabel _); [now split |].
  unfold bind, ret.
  destruct (ensureParentDir _ w) as [[] w0].
  match goal with
  | |- context [ensureWorktree git ?a ?b ?c ?d ?e ?f ?g] =>
      pose proof (ensureWorktree_repoName a b c d e f g) as Hn;
      destruct (ensureWorktree git a b c d e f g) as [result w1]
  end.
  now split.
Qed.

(** One result per selected repository, in the order of the
    configuration, whatever git does. *)
Lemma forEachRepo_order (config : EtzConfig) (options : Sw.SwitchOptions)
      (rs : list RepoConfig) (w : World G) :
  map Sw.repoName (fst (forEachRepo (switchRepo git config options) rs w))
  = map name (filter (fun r => negb (filteredOut (Sw.repo options) r)) rs).
Proof.
  revert w. induction rs as [| r rs IH]; intros w; simpl; [reflexivity |].
  unfold bind, ret.
  pose proof (switchRepo_name config options r w) as Hr.
  destruct (switchRepo git config options r w) as [res w1]. simpl in Hr.
  specialize (IH w1).
  destruct (forEachRepo _ rs w1) as [more w2]. simpl in *.
  destruct res as [x |].
  - destruct Hr as [Hx ->]. simpl. now rewrite Hx, IH.
  - rewrite Hr. simpl. exact IH.
Qed.

(** C7.  In a batch, when the git operations of one repository throw
    (the [try] block of [ensureWorktree] ends in an exception with
    message [msg], which is the error of a wrapped git operation), that
    repository gets a result with status [error] whose message carries
    [msg]; the repositories after it are processed from the world it
    left, and the results come one per selected repository in the order
    of the configuration. *)
Theorem create_isolates_failures
        (config : EtzConfig) (options : Sw.SwitchOptions)
        (before after : list RepoConfig) (repo : RepoConfig) (branch msg : string)
        (existing : option string) (found : list Sw.SwitchResult)
        (w w1 w2 w3 : World G) :
  repos config = (before ++ repo :: after)%list ->
  filteredOut (Sw.repo options) repo = false ->
  resolveBranch options repo = Some branch ->
  validateBranchName branch = inr tt ->
  validateLabel (orString (Sw.label options) branch) = inr tt ->
  flag (Sw.dryRun options) = false ->
  let worktreePath :=
    Path.join [worktrees_dir config; orString (Sw.label options) branch; name repo] in
  forEachRepo (switchRepo git config options) before w = (found, w1) ->
  Fs.existsSync (disk (snd (ensureParentDir worktreePath w1))) worktreePath = false ->
  findWorktreeByBranch git (base_path repo) branch (snd (ensureParentDir worktreePath w1))
  = (existing, w2) ->
  present existing = None ->
  attachWorktree git (name repo) (base_path repo) worktreePath branch
    (resolveBaseBranch config options repo) w2 = (inl msg, w3) ->
  let failed :=
    {| Sw.repoName := name repo; Sw.success := false;
       Sw.message := "Failed to create worktree: " ++ msg;
       Sw.status := Sw.error |} in
  (exists operation details,
      msg = GitOperationError operation details
      /\ In operation ["fetch"; "create-branch"; "add-worktree"; "add-worktree-tracking"])
  /\ switchToWorktree git config options w
     = (let (rest, w4) := forEachRepo (switchRepo git config options) after w3 in
        ((found ++ failed :: rest)%list, w4))
  /\ map Sw.repoName (fst (switchToWorktree git config options w))
     = map name (filter (fun r => negb (filteredOut (Sw.repo options) r)) (repos config)).
Proof.
  intros Hrepos Hsel Hbranch Hvb Hvl Hdry worktreePath Hbefore
         Habsent Hfind Hfree Hthrow failed.
  split; [exact (attachWorktree_throws _ _ _ _ _ _ _ _ Hthrow) |].
  assert (switchRepo git config options repo w1 = (Some failed, w3)) as Hstep.
  { rewrite (switchRepo_reaches config options repo branch w1 Hsel Hbranch Hvb Hvl).
    fold worktreePath. rewrite Hdry.
    rewrite (ensureWorktree_attaches _ _ _ _ _ _ _ _ Habsent Hfind Hfree).
    now rewrite Hthrow. }
  split.
  - unfold switchToWorktree. rewrite (top_label_ok _ _ Hvl), Hrepos.
    rewrite forEachRepo_app, Hbefore. simpl forEachRepo.
    unfold bind at 1. rewrite Hstep. unfold bind, ret.
    destruct (forEachRepo _ after _) as [rest w4]. reflexivity.
  - unfold switchToWorktree. rewrite (top_label_ok _ _ Hvl).
    apply forEachRepo_order.
Qed.

(** C3.  When the label passes the character validation and yet the
    normalized label folder does not start with the normalized worktree
    root followed by the separator, [clean] returns the one security
    error, and neither the disk nor git is touched. *)
Theorem clean_refuses_escaped_folder
        (config : EtzConfig) (options : Cl.CleanOptions) (w : World G) :
  validateNoPathTraversal (Cl.label options) "label" = inr tt ->
  Js.startsWith
    (Path.normalize (Path.join [worktrees_dir config; Cl.label options]))
    (Path.normalize (worktrees_dir config) ++ Path.sep) = false ->
  fst (clean git homedir config options w)
  = [{| Cl.repoName := ""; Cl.success := false;
        Cl.message := "Security error: path traversal detected";
        Cl.status := Cl.error |}]
  /\ disk (snd (clean git homedir config options w)) = disk w
  /\ gitLog (snd (clean git homedir config options w)) = gitLog w
  /\ gitState (snd (clean git homedir config options w)) = gitState w.
Proof.
  intros Hvalid Houtside.
  assert (clean git homedir config options w
          = ([mkClean "" false "Security error: path traversal detected" Cl.error],
             {| disk := disk w; gitState := gitState w; gitLog := gitLog w;
                builds := snd (Build.killAllBuildsForLabel (Cl.label options)
                                 (builds w)) |})) as ->.
  { unfold clean. rewrite Hvalid. unfold bind, onBuilds.
    destruct (Build.killAllBuildsForLabel _ _) as [n t].
    now rewrite Houtside. }
  repeat split.
Qed.

Lemma includes_empty (needle : string) : needle <> "" -> Js.includes "" needle = false.
Proof. destruct needle; simpl; congruence. Qed.

(** A label of one of the rejected shapes fails both validators. *)
Lemma bad_label_rejected (label : string) :
  label = "" \/ Js.includes label ".." = true \/ Js.includes label "/" = true
  \/ Js.includes label backslash = true \/ Path.isAbsolute label = true ->
  (exists msg, validateLabel label = inl msg)
  /\ (exists msg, validateNoPathTraversal label "label" = inl msg).
Proof.
  unfold validateLabel, validateNoPathTraversal.
  intros [-> | [H | [H | [H | H]]]]; try rewrite H; simpl;
    try (split; eexists; reflexivity).
  - rewrite !orb_true_r. split; eexists; reflexivity.
  - rewrite !orb_true_r. split; eexists; reflexivity.
  - destruct (_ || _); split; eexists; reflexivity.
Qed.

(** C5, as the code has it.  A label that contains [..], [/] or [\], or
    is an absolute path, is rejected by create and by clean alike: one
    result with status [error] and the message of the validation, and
    the world is left as it was.  Clean rejects the empty label in the
    same way; create does so only for a label that is not empty. *)
Theorem bad_label_is_rejected_without_effect
        (config : EtzConfig) (label : string) (w : World G) :
  label = "" \/ Js.includes label ".." = true \/ Js.includes label "/" = true
  \/ Js.includes label backslash = true \/ Path.isAbsolute label = true ->
  (forall options, Cl.label options = label ->
     exists msg,
       clean git homedir config options w
       = ([{| Cl.repoName := ""; Cl.success := false; Cl.message := msg;
              Cl.status := Cl.error |}], w))
  /\ (label <> "" ->
      forall options, Sw.label options = Some label ->
        exists msg,
          switchToWorktree git config options w
          = ([{| Sw.repoName := ""; Sw.success := false; Sw.message := msg;
                 Sw.status := Sw.error |}], w)).
Proof.
  intros Hbad. destruct (bad_label_rejected label Hbad) as [[m1 H1] [m2 H2]].
  split.
  - intros options <-. exists m2. unfold clean. now rewrite H2.
  - intros Hne options Hl. exists m1. unfold switchToWorktree. rewrite Hl.
    apply truthy_nonempty in Hne. unfold present. now rewrite Hne, H1.
Qed.

Lemma cleanWorktree_absent (repoName baseRepoPath worktreePath : string)
      (force dryRun deleteBranches : bool) (w : World G) :
  Fs.existsSync (disk w) worktreePath = false ->
  cleanWorktree git homedir repoName baseRepoPath worktreePath force dryRun
    deleteBranches w
  = ({| Cl.repoName := repoName; Cl.success := true;
        Cl.message := "Path not found (already deleted): " ++ worktreePath;
        Cl.status := Cl.not_found |}, w).
Proof.
  intros H. unfold cleanWorktree, bind, readDisk. now rewrite H.
Qed.

(** C10.  For a label that [clean] accepts, when the label folder is
    not on disk the results are the single
    [{repoName: '', status: not_found, success: false}], so the batch as
    a whole is not a success; a worktree path that is absent inside a
    label folder gives [not_found] with [success = true]. *)
Theorem clean_missing_label_folder
        (config : EtzConfig) (options : Cl.CleanOptions) (w : World G) :
  validateNoPathTraversal (Cl.label options) "label" = inr tt ->
  let labelFolder := Path.join [worktrees_dir config; Cl.label options] in
  Js.startsWith (Path.normalize labelFolder)
                (Path.normalize (worktrees_dir config) ++ Path.sep) = true ->
  Fs.existsSync (disk w) labelFolder = false ->
  fst (clean git homedir config options w)
  = [{| Cl.repoName := ""; Cl.success := false;
        Cl.message := "No worktree directory found at " ++ labelFolder;
        Cl.status := Cl.not_found |}]
  /\ overallSuccess (fst (clean git homedir config options w)) = false
  /\ (forall repoName baseRepoPath worktreePath force dryRun deleteBranches w0,
        Fs.existsSync (disk w0) worktreePath = false ->
        cleanWorktree git homedir repoName baseRepoPath worktreePath force dryRun
          deleteBranches w0
        = ({| Cl.repoName := repoName; Cl.success := true;
              Cl.message := "Path not found (already deleted): " ++ worktreePath;
              Cl.status := Cl.not_found |}, w0)).
Proof.
  intros Hvalid labelFolder Hinside Habsent.
  assert (fst (clean git homedir config options w)
          = [mkClean "" false ("No worktree directory found at " ++ labelFolder)
               Cl.not_found]) as Hres.
  { unfold clean. rewrite Hvalid. unfold bind at 1. unfold onBuilds.
    destruct (Build.killAllBuildsForLabel _ _) as [n t].
    fold labelFolder. rewrite Hinside. unfold bind, readDisk. simpl.
    now rewrite Habsent. }
  split; [exact Hres |]. split; [now rewrite Hres |].
  intros. now apply cleanWorktree_absent.
Qed.

Lemma existsSync_rmSync (d : Fs.disk) (p : string) :
  Fs.existsSync (Fs.rmSync d p) p = false.
Proof.
  unfold Fs.existsSync, Fs.lookup, Fs.rmSync.
  induction d as [| e d IH]; simpl; [reflexivity |].
  unfold Fs.inside at 1.
  destruct (String.eqb (fst e) p) eqn:E; simpl; [exact IH |].
  destruct (String.prefix _ _); simpl; [exact IH |].
  now rewrite E.
Qed.

Lemma cleanIOSDerivedData_git (worktreePath : string) (dryRun : bool) (w : World G) :
  gitLog (snd (cleanIOSDerivedData homedir worktreePath dryRun w)) = gitLog w
  /\ gitState (snd (cleanIOSDerivedData homedir worktreePath dryRun w)) = gitState w.
Proof.
  unfold cleanIOSDerivedData.
  repeat match goal with
         | |- context [match ?x with _ => _ end] => destruct x
         end; simpl; auto.
Qed.

Lemma getCurrentBranch_log (repoPath : string) (w : World G) :
  gitLog (snd (getCurrentBranch git repoPath w))
  = (gitLog w ++ [call repoPath (RevParse ["--abbrev-ref"; "HEAD"])])%list.
Proof.
  unfold getCurrentBranch, wrapped, bind, ret.
  destruct (exec git repoPath _ w) as [reply w0] eqn:E.
  simpl. exact (exec_log _ _ _ _ _ E).
Qed.

Lemma deleteDirectory_deletes (repoName baseRepoPath worktreePath : string)
      (deleteBranches : bool) (branchName derived : option string) (w : World G) :
  let result := fst (deleteDirectory git repoName baseRepoPath worktreePath
                       deleteBranches branchName derived w) in
  let w' := snd (deleteDirectory git repoName baseRepoPath worktreePath
                   deleteBranches branchName derived w) in
  Cl.status result = Cl.deleted /\ Cl.success result = true
  /\ (exists tail, gitLog w' = (gitLog w ++ tail)%list)
  /\ exists wd,
       Fs.existsSync (disk wd) worktreePath = false
       /\ (w' = wd \/ exists b, w' = snd (deleteLocalBranch git baseRepoPath b true wd)).
Proof.
  unfold deleteDirectory, bind, readDisk, writeDisk, ret.
  destruct (Fs.existsSync (disk w) worktreePath) eqn:Hthere; simpl.
  - destruct (if deleteBranches then present branchName else None) as [b |]; simpl.
    + destruct (deleteLocalBranch git baseRepoPath b true _) as [r w3] eqn:Hdel.
      simpl. repeat split.
      * eexists. rewrite (wrapped_log _ _ _ _ _ _ Hdel). reflexivity.
      * eexists. split; [| right; exists b; now rewrite Hdel].
        simpl. apply existsSync_rmSync.
    + repeat split.
      * exists []. simpl. now rewrite app_nil_r.
      * eexists. split; [| now left]. simpl. apply existsSync_rmSync.
  - repeat split.
    + exists []. now rewrite app_nil_r.
    + exists w. split; [assumption | now left].
Qed.

(** C8, as the code has it.  When a path that is a git worktree is
    cleaned (no dry run), [git worktree remove] is run with [--force]
    whatever the [force] flag of the caller is.  If that removal fails
    and [force] is false the result is [error] and nothing more is done:
    the world is as the failed removal left it.  If [force] is true the
    cleanup goes on whether the removal failed or not: the directory is
    deleted and the result is [deleted]. *)
Theorem cleanup_removal_is_forced
        (repoName baseRepoPath worktreePath : string) (force deleteBranches : bool)
        (removal : Throws unit) (w wr w2 : World G) :
  Fs.existsSync (disk w) worktreePath = true ->
  Fs.existsSync (disk w) (Path.join [worktreePath; ".git"]) = true ->
  wr = (if deleteBranches then snd (getCurrentBranch git worktreePath w) else w) ->
  removeWorktree git baseRepoPath worktreePath true wr = (removal, w2) ->
  let result := fst (cleanWorktree git homedir repoName baseRepoPath worktreePath
                       force false deleteBranches w) in
  let w' := snd (cleanWorktree git homedir repoName baseRepoPath worktreePath
                   force false deleteBranches w) in
  (exists tail,
      gitLog w'
      = (gitLog wr
         ++ call baseRepoPath (Raw ["worktree"; "remove"; "--force"; worktreePath])
         :: tail)%list)
  /\ (force = false -> forall msg, removal = inl msg ->
      result = {| Cl.repoName := repoName; Cl.success := false;
                  Cl.message := "Failed to remove Git worktree: " ++ msg;
                  Cl.status := Cl.error |}
      /\ w' = w2)
  /\ (force = true ->
      Cl.status result = Cl.deleted /\ Cl.success result = true
      /\ exists wd,
           Fs.existsSync (disk wd) worktreePath = false
           /\ (w' = wd
               \/ exists b, w' = snd (deleteLocalBranch git baseRepoPath b true wd))).
Proof.
  intros Hthere Hgit Hwr Hremove result w'.
  pose proof (wrapped_log _ _ _ _ _ _ Hremove) as Hlog. simpl in Hlog.
  (* the run up to the removal *)
  assert (exists branchName,
             cleanWorktree git homedir repoName baseRepoPath worktreePath
               force false deleteBranches w
             = match removal, force with
               | inl msg, false =>
                   (mkClean repoName false ("Failed to remove Git worktree: " ++ msg)
                      Cl.error, w2)
               | _, _ =>
                   let w3 := snd ((if isIOSProject (disk w2) worktreePath
                                   then cleanIOSDerivedData homedir worktreePath false
                                   else ret None) w2) in
                   let derived := fst ((if isIOSProject (disk w2) worktreePath
                                        then cleanIOSDerivedData homedir worktreePath false
                                        else ret None) w2) in
                   deleteDirectory git repoName baseRepoPath worktreePath
                     deleteBranches branchName derived w3
               end) as [branchName Hrun].
  { unfold cleanWorktree, bind at 1, readDisk at 1. rewrite Hthere. cbn [negb].
    unfold bind at 1, worktreeExists, readDisk at 1. rewrite Hthere, Hgit.
    cbn [negb andb]. unfold removeAndDelete.
    destruct deleteBranches; cbn [andb].
    - unfold bind at 1. unfold bind at 1.
      destruct (getCurrentBranch git worktreePath w) as [r w0] eqn:Hcur.
      simpl in Hwr. subst wr. unfold ret at 1.
      exists (match r with inr b => Some b | inl _ => None end).
      unfold bind at 1. rewrite Hremove.
      destruct removal as [msg | []], force; try reflexivity;
        unfold bind, readDisk;
        destruct ((if isIOSProject (disk w2) worktreePath
                   then cleanIOSDerivedData homedir worktreePath false
                   else ret None) w2); reflexivity.
    - subst wr. exists None. unfold bind at 1, ret at 1.
      unfold bind at 1. rewrite Hremove.
      destruct removal as [msg | []], force; try reflexivity;
        unfold bind, readDisk;
        destruct ((if isIOSProject (disk w2) worktreePath
                   then cleanIOSDerivedData homedir worktreePath false
                   else ret None) w2); reflexivity. }
  (* the world after the cache of an iOS project is cleaned *)
  assert (gitLog
            (snd ((if isIOSProject (disk w2) worktreePath
                   then cleanIOSDerivedData homedir worktreePath false
                   else ret None) w2)) = gitLog w2) as Hcache.
  { destruct (isIOSProject _ _); [apply cleanIOSDerivedData_git | reflexivity]. }
  subst result w'. rewrite Hrun. clear Hrun.
  split; [| split].
  - destruct removal as [msg | []], force; simpl;
      try (exists []; exact Hlog);
      match goal with
      | |- context [deleteDirectory git ?a ?b ?c ?d ?e ?f ?g] =>
          destruct (deleteDirectory_deletes a b c d e f g) as (_ & _ & [tail Ht] & _)
      end;
      exists tail; rewrite Ht, Hcache, Hlog; now rewrite <- app_assoc.
  - intros -> msg ->. split; reflexivity.
  - intros ->.
    destruct removal as [msg | []]; simpl;
      match goal with
      | |- context [deleteDirectory git ?a ?b ?c ?d ?e ?f ?g] =>
          destruct (deleteDirectory_deletes a b c d e f g) as (Hs & Hok & _ & Hd)
      end; auto.
Qed.

(** A fetch that fails ends the [try] block of [ensureWorktree]: the
    result is an error, whatever the branch checks would have found. *)
Lemma fetch_failure_fails_create
      (repoName baseRepoPath worktreePath branch baseBranch msg : string)
      (existing : option string) (w0 w1 w2 : World G) :
  Fs.existsSync (disk w0) worktreePath = false ->
  findWorktreeByBranch git baseRepoPath branch w0 = (existing, w1) ->
  present existing = None ->
  fetchRepo git baseRepoPath w1 = (inl msg, w2) ->
  ensureWorktree git repoName baseRepoPath worktreePath branch baseBranch false w0
  = ({| Sw.repoName := repoName; Sw.success := false;
        Sw.message := "Failed to create worktree: " ++ msg;
        Sw.status := Sw.error |}, w2).
Proof.
  intros Habsent Hfind Hfree Hfetch.
  rewrite (ensureWorktree_attaches _ _ _ _ _ _ _ _ Habsent Hfind Hfree).
  unfold attachWorktree, andThen, bind at 1. now rewrite Hfetch.
Qed.

End EngineFacts.

(* ================================================================== *)
(** * The engines on concrete worlds *)
(* ================================================================== *)

Lemma registry_keys_are_exclusive_example :
  let t := Build.run Build.empty [Build.Request Build.build_android "auth" 7 100] in
  (exists msg,
      Build.request Build.build_android "auth" 8 200 t
      = (Build.Resolved {| Build.success := false; Build.output := "";
                           Build.error := Some msg |}, t)
      /\ Js.includes msg "already in progress" = true)
  /\ fst (Build.request Build.build_android "auth" 8 200
            (Build.step t (Build.Close Build.build_android "auth")))
     = Build.Pending.
Proof.
  intros t.
  destruct (registry_keys_are_exclusive [Build.Request Build.build_android "auth" 7 100]
              "auth" Build.build_android 8 200) as (_ & Hbusy & Hfree).
  split.
  - apply Hbusy. reflexivity.
  - destruct (Hfree _ (or_introl eq_refl)) as [_ Haccept].
    apply Haccept. reflexivity.
Defined.

Lemma restart_after_kill_runs_two_builds_witness :
  let busy :=
    Children.run Children.start
      [Children.Start Build.build_ios "auth" 1 10;
       Children.Start Build.build_android "web" 2 20] in
  let doubled :=
    Children.run busy
      [Children.Start Build.build_android "auth" 7 100;
       Children.Stop "auth" "build_android";
       Children.Start Build.build_android "auth" 8 200;
       Children.Exit 7;
       Children.Start Build.build_android "auth" 9 300] in
  Children.alive "auth:build_android" doubled = [8; 9]
  /\ map fst (Build.activeBuilds (Children.tracker doubled))
     = ["auth:build_ios"; "web:build_android"; "auth:build_android"].
Proof.
  destruct (restart_after_kill_runs_two_builds
              [Children.Start Build.build_ios "auth" 1 10;
               Children.Start Build.build_android "web" 2 20]
              "auth" Build.build_android 7 8 9 100 200 300
              eq_refl eq_refl eq_refl eq_refl eq_refl)
    as (_ & _ & _ & Htwo & _);
    [discriminate | discriminate | discriminate |].
  split; [exact Htwo | reflexivity].
Defined.

Lemma output_buffer_bounded_witness :
  Build.getBuildOutput "auth" (Some "build_android")
    (Build.run (snd (Build.request Build.build_android "auth" 7 100 Build.empty))
       (map (Build.Data Build.build_android "auth")
            [Demo.lines "compiling" 2; "done"]))
  = ["compiling"; "compiling"; "done"].
Proof.
  destruct (output_buffer_bounded [] "auth" Build.build_android) as (_ & _ & Hrecent).
  exact (Hrecent Build.empty 7 100 [Demo.lines "compiling" 2; "done"] eq_refl eq_refl).
Defined.

(** A child that writes 1000 lines, 500 and then 500: what
    [getBuildOutput] returns is the second 500. *)
Example output_after_1000_lines :
  Build.getBuildOutput "auth" (Some "build_android")
    (Build.run Build.empty
       [Build.Request Build.build_android "auth" 7 100;
        Build.Data Build.build_android "auth" (Demo.lines "old" 500);
        Build.Data Build.build_android "auth" (Demo.lines "new" 500)])
  = repeat "new" 500.
Proof. vm_compute. reflexivity. Qed.


Lemma clean_refuses_escaped_folder_witness :
  fst (clean Demo.git "/home" Demo.config (Demo.remove "." true) Demo.withAuth)
  = [{| Cl.repoName := ""; Cl.success := false;
        Cl.message := "Security error: path traversal detected";
        Cl.status := Cl.error |}]
  /\ disk (snd (clean Demo.git "/home" Demo.config (Demo.remove "." true) Demo.withAuth))
     = Demo.authDisk.
Proof.
  destruct (clean_refuses_escaped_folder Demo.git "/home" Demo.config
              (Demo.remove "." true) Demo.withAuth eq_refl eq_refl)
    as (Hres & Hdisk & _).
  split; [exact Hres | exact Hdisk].
Defined.

Lemma create_existing_worktree_is_noop_witness :
  switchToWorktree Demo.git Demo.config (Demo.create "auth" "auth-feature") Demo.withAuth
  = ([{| Sw.repoName := "app-ios"; Sw.success := true;
         Sw.message := "Worktree already exists at /wt/auth/app-ios";
         Sw.status := Sw.already_exists |};
      {| Sw.repoName := "app-android"; Sw.success := true;
         Sw.message := "Worktree already exists at /wt/auth/app-android";
         Sw.status := Sw.already_exists |}],
     Demo.withAuth).
Proof.
  destruct (create_existing_worktree_is_noop Demo.git Demo.config
              (Demo.create "auth" "auth-feature") [] [Demo.android] Demo.ios
              "auth-feature" Demo.withAuth Demo.withAuth []
              eq_refl eq_refl eq_refl eq_refl eq_refl eq_refl eq_refl)
    as (w2 & _ & _ & _ & _ & Hsame & Hrun).
  rewrite Hrun, (Hsame eq_refl). reflexivity.
Defined.

Lemma bad_label_is_rejected_without_effect_witness :
  (exists msg,
      clean Demo.git "/home" Demo.config (Demo.remove "../etc" true) Demo.withAuth
      = ([{| Cl.repoName := ""; Cl.success := false; Cl.message := msg;
             Cl.status := Cl.error |}], Demo.withAuth))
  /\ (exists msg,
         switchToWorktree Demo.git Demo.config (Demo.create "../etc" "auth-feature")
           Demo.withAuth
         = ([{| Sw.repoName := ""; Sw.success := false; Sw.message := msg;
                Sw.status := Sw.error |}], Demo.withAuth)).
Proof.
  destruct (bad_label_is_rejected_without_effect Demo.git "/home" Demo.config "../etc"
              Demo.withAuth (or_intror (or_introl eq_refl))) as [Hclean Hcreate].
  split.
  - exact (Hclean (Demo.remove "../etc" true) eq_refl).
  - refine (Hcreate _ (Demo.create "../etc" "auth-feature") eq_refl). discriminate.
Defined.

Lemma create_isolates_failures_witness :
  map Sw.status
      (fst (switchToWorktree Demo.git Demo.config (Demo.create "auth" "auth-feature")
              Demo.iosOffline))
  = [Sw.error; Sw.created_new]
  /\ map Sw.repoName
         (fst (switchToWorktree Demo.git Demo.config (Demo.create "auth" "auth-feature")
                 Demo.iosOffline))
     = ["app-ios"; "app-android"].
Proof.
  set (path := "/wt/auth/app-ios").
  set (w1 := snd (ensureParentDir path Demo.iosOffline)).
  set (w2 := snd (findWorktreeByBranch Demo.git "/r/ios" "auth-feature" w1)).
  set (w3 := snd (fetchRepo Demo.git "/r/ios" w2)).
  destruct (create_isolates_failures Demo.git Demo.config
              (Demo.create "auth" "auth-feature") [] [Demo.android] Demo.ios
              "auth-feature"
              "Git operation 'fetch' failed: Error: fatal: unable to access remote"
              None [] Demo.iosOffline Demo.iosOffline w2 w3
              eq_refl eq_refl eq_refl eq_refl eq_refl eq_refl eq_refl
              eq_refl eq_refl eq_refl eq_refl) as (_ & Hrun & Horder).
  split.
  - rewrite Hrun. reflexivity.
  - exact Horder.
Defined.

Lemma cleanup_removal_is_forced_witness :
  fst (cleanWorktree Demo.git "/home" "app-ios" "/r/ios" "/wt/auth/app-ios"
         false false false Demo.staleAuth)
  = {| Cl.repoName := "app-ios"; Cl.success := false;
       Cl.message :=
         "Failed to remove Git worktree: Git operation 'remove-worktree' failed: Error: fatal: not a working tree";
       Cl.status := Cl.error |}
  /\ Fs.existsSync
       (disk (snd (cleanWorktree Demo.git "/home" "app-ios" "/r/ios" "/wt/auth/app-ios"
                     false false false Demo.staleAuth)))
       "/wt/auth/app-ios" = true.
Proof.
  set (w2 := snd (removeWorktree Demo.git "/r/ios" "/wt/auth/app-ios" true
                    Demo.staleAuth)).
  destruct (cleanup_removal_is_forced Demo.git "/home" "app-ios" "/r/ios"
              "/wt/auth/app-ios" false false
              (inl "Git operation 'remove-worktree' failed: Error: fatal: not a working tree")
              Demo.staleAuth Demo.staleAuth w2 eq_refl eq_refl eq_refl eq_refl)
    as (_ & Hfail & _).
  destruct (Hfail eq_refl _ eq_refl) as [Hres Hworld].
  split; [exact Hres | rewrite Hworld; reflexivity].
Defined.

Lemma clean_missing_label_folder_witness :
  fst (clean Demo.git "/home" Demo.config (Demo.remove "auth" false) Demo.emptyRoot)
  = [{| Cl.repoName := ""; Cl.success := false;
        Cl.message := "No worktree directory found at /wt/auth";
        Cl.status := Cl.not_found |}]
  /\ overallSuccess
       (fst (clean Demo.git "/home" Demo.config (Demo.remove "auth" false)
               Demo.emptyRoot)) = false.
Proof.
  destruct (clean_missing_label_folder Demo.git "/home" Demo.config
              (Demo.remove "auth" false) Demo.emptyRoot eq_refl eq_refl eq_refl)
    as (Hres & Hall & _).
  split; [exact Hres | exact Hall].
Defined.

(** C5 as stated fails for create: with an empty label nothing is
    rejected; the branch name becomes the folder, git is run and the
    worktrees are made. *)
Lemma create_accepts_empty_label :
  let run := switchToWorktree Demo.git Demo.config
               (Demo.createUnlabelled "auth-feature") Demo.emptyRoot in
  map Sw.status (fst run) = [Sw.created_new; Sw.created_new]
  /\ Fs.existsSync (disk (snd run)) "/wt/auth-feature/app-ios" = true
  /\ length (gitLog (snd run)) = 14
  /\ ~ (exists msg,
           run = ([{| Sw.repoName := ""; Sw.success := false; Sw.message := msg;
                      Sw.status := Sw.error |}], Demo.emptyRoot)).
Proof.
  repeat split; try (vm_compute; reflexivity).
  intros [msg H]. apply (f_equal (fun r => length (fst r))) in H.
  vm_compute in H. discriminate H.
Qed.

(** C8 as stated fails: with [force = false] the worktree is still
    removed with [--force]; the removal without it is never run. *)
Lemma cleanup_forces_removal_without_force_flag :
  let w' := snd (cleanWorktree Demo.git "/home" "app-ios" "/r/ios" "/wt/auth/app-ios"
                   false false false Demo.withAuth) in
  gitLog w' = [call "/r/ios" (Raw ["worktree"; "remove"; "--force"; "/wt/auth/app-ios"])]
  /\ ~ In (call "/r/ios" (Raw ["worktree"; "remove"; "/wt/auth/app-ios"])) (gitLog w').
Proof.
  split; [vm_compute; reflexivity |].
  vm_compute. intros [H | []]. discriminate H.
Qed.

(** C9 on the code: the branch is there locally, and create fails
    because the fetch does, where it adds the worktree once the remote
    can be reached. *)
Theorem fetch_failure_is_not_swallowed :
  map (fun r => (Sw.repoName r, Sw.status r, Sw.success r))
      (fst (switchToWorktree Demo.git Demo.config (Demo.create "auth" "auth-feature")
              Demo.iosOffline))
  = [("app-ios", Sw.error, false); ("app-android", Sw.created_new, true)]
  /\ map (fun r => (Sw.repoName r, Sw.status r, Sw.success r))
         (fst (switchToWorktree Demo.git Demo.config (Demo.create "auth" "auth-feature")
                 Demo.iosOnline))
     = [("app-ios", Sw.added_local, true); ("app-android", Sw.created_new, true)].
Proof. split; vm_compute; reflexivity. Qed.

(* ================================================================== *)
(** * Further properties of the engines *)
(* ================================================================== *)

Section MoreEngineFacts.

Context {G : Type}.
Variable git : Git G.
Variable homedir : string.

Ltac cases_of_git :=
  repeat (match goal with
          | |- context [git ?c ?g ?d] => destruct (git c g d) as [[[? | ?] ?] ?]
          | |- context [if ?x then _ else _] => destruct x
          end; cbv beta iota).

Ltac unfold_git_ops :=
  unfold attachWorktree, andThen, fetchRepo, createBranch, addWorktree,
    addWorktreeWithTracking, unsetUpstream, localBranchExists, remoteBranchExists,
    discard, wrapped, bind, ret, exec.

(** What holds of every result of the loop body holds of the results of
    the loop. *)
Lemma forEachRepo_Forall {R} (P : R -> Prop) (body : RepoConfig -> M G (option R)) :
  (forall r w x, fst (body r w) = Some x -> P x) ->
  forall rs w, Forall P (fst (forEachRepo body rs w)).
Proof.
  intros Hbody. induction rs as [| r rs IH]; intros w; simpl; [constructor |].
  unfold bind, ret.
  pose proof (Hbody r w) as Hr. destruct (body r w) as [res w1]. simpl in Hr.
  specialize (IH w1). destruct (forEachRepo body rs w1) as [more w2]. simpl in *.
  destruct res as [x |]; [constructor; auto | assumption].
Qed.

Lemma attachWorktree_success
      (repoName baseRepoPath worktreePath branch baseBranch : string)
      (r : Sw.SwitchResult) (w w' : World G) :
  attachWorktree git repoName baseRepoPath worktreePath branch baseBranch w
  = (inr r, w') ->
  Sw.success r = succeeds (Sw.status r).
Proof.
  unfold_git_ops. cases_of_git; intros [= <- _]; reflexivity.
Qed.

Lemma ensureWorktree_success
      (repoName baseRepoPath worktreePath branch baseBranch : string) (dryRun : bool)
      (w : World G) :
  let r := fst (ensureWorktree git repoName baseRepoPath worktreePath branch
                  baseBranch dryRun w) in
  Sw.success r = succeeds (Sw.status r).
Proof.
  unfold ensureWorktree, bind, ret, readDisk.
  destruct (Fs.existsSync _ _); [reflexivity |].
  destruct (findWorktreeByBranch _ _ _ _) as [existing w1].
  destruct (present existing); [reflexivity |].
  destruct dryRun; [reflexivity |].
  destruct (attachWorktree _ _ _ _ _ _ _) as [[msg | r] w2] eqn:E; [reflexivity |].
  exact (attachWorktree_success _ _ _ _ _ _ _ _ E).
Qed.

Lemma switchRepo_success (config : EtzConfig) (options : Sw.SwitchOptions)
      (repo : RepoConfig) (w : World G) (x : Sw.SwitchResult) :
  fst (switchRepo git config options repo w) = Some x ->
  Sw.success x = succeeds (Sw.status x).
Proof.
  unfold switchRepo.
  destruct (filteredOut _ _); [discriminate |].
  destruct (resolveBranch _ _) as [branch |]; [| now intros [= <-]].
  destruct (validateBranchName _); [now intros [= <-] |].
  destruct (validateLabel _); [now intros [= <-] |].
  unfold bind, ret.
  destruct (ensureParentDir _ w) as [[] w0].
  match goal with
  | |- context [ensureWorktree git ?a ?b ?c ?d ?e ?f ?g] =>
      pose proof (ensureWorktree_success a b c d e f g) as Hs;
      destruct (ensureWorktree git a b c d e f g) as [result w1]
  end.
  now intros [= <-].
Qed.

(** X1: the [success] flag of every result of create is decided by its
    status: true for [already_exists], [dry_run], [created_new],
    [added_local] and [added_remote], false for [already_in_use],
    [error] and [skipped], whatever git does. *)
Theorem create_success_follows_status
        (config : EtzConfig) (options : Sw.SwitchOptions) (w : World G) :
  Forall (fun r => Sw.success r = succeeds (Sw.status r))
         (fst (switchToWorktree git config options w)).
Proof.
  unfold switchToWorktree.
  destruct (match present (Sw.label options) with
            | Some l => validateLabel l
            | None => inr tt
            end).
  - repeat constructor.
  - apply forEachRepo_Forall. intros r w0 x. apply switchRepo_success.
Qed.

Lemma ensureWorktree_dry
      (repoName baseRepoPath worktreePath branch baseBranch : string) (w : World G) :
  let r := fst (ensureWorktree git repoName baseRepoPath worktreePath branch
                  baseBranch true w) in
  let w' := snd (ensureWorktree git repoName baseRepoPath worktreePath branch
                   baseBranch true w) in
  (w' = w /\ Sw.status r = Sw.already_exists)
  \/ (gitLog w'
      = (gitLog w ++ [call baseRepoPath (Raw ["worktree"; "list"; "--porcelain"])])%list
      /\ (Sw.status r = Sw.already_in_use \/ Sw.status r = Sw.dry_run)).
Proof.
  unfold ensureWorktree, bind, ret, readDisk.
  destruct (Fs.existsSync _ _); [left; now split |]. right.
  destruct (findWorktreeByBranch git baseRepoPath branch w) as [existing w1] eqn:F.
  pose proof (findWorktreeByBranch_log git _ _ _ _ _ F) as Hlog.
  destruct (present existing); simpl; split; auto.
Qed.

Lemma switchRepo_dry (config : EtzConfig) (options : Sw.SwitchOptions)
      (repo : RepoConfig) (w : World G) :
  flag (Sw.dryRun options) = true ->
  (exists calls,
      gitLog (snd (switchRepo git config options repo w)) = (gitLog w ++ calls)%list
      /\ Forall (fun c => isWorktreeList c /\ cwd c = base_path repo) calls)
  /\ (forall x, fst (switchRepo git config options repo w) = Some x ->
                In (Sw.status x)
                   [Sw.already_exists; Sw.already_in_use; Sw.dry_run; Sw.error;
                    Sw.skipped]).
Proof.
  intros Hdry.
  assert (exists calls : list GitCall,
             gitLog w = (gitLog w ++ calls)%list
             /\ Forall (fun c => isWorktreeList c /\ cwd c = base_path repo) calls)
    as Hnone by (exists []; split; [now rewrite app_nil_r | constructor]).
  unfold switchRepo.
  destruct (filteredOut _ _); [split; [exact Hnone | discriminate] |].
  destruct (resolveBranch _ _) as [branch |];
    [| split; [exact Hnone | intros x [= <-]; simpl; auto 10]].
  destruct (validateBranchName _);
    [split; [exact Hnone | intros x [= <-]; simpl; auto 10] |].
  destruct (validateLabel _);
    [split; [exact Hnone | intros x [= <-]; simpl; auto 10] |].
  unfold bind, ret. rewrite Hdry.
  match goal with
  | |- context [ensureParentDir ?p w] =>
      destruct (ensureParentDir_git p w) as (Hlog & _);
      destruct (ensureParentDir p w) as [[] w0]
  end.
  simpl in Hlog.
  match goal with
  | |- context [ensureWorktree git ?a ?b ?c ?d ?e true ?g] =>
      pose proof (ensureWorktree_dry a b c d e g) as Hs;
      destruct (ensureWorktree git a b c d e true g) as [result w1]
  end.
  simpl in *.
  destruct Hs as [[-> Hst] | [Hl Hst]].
  - split.
    + exists []. split; [rewrite app_nil_r; exact Hlog | constructor].
    + intros x [= <-]. rewrite Hst. simpl. auto 10.
  - split.
    + eexists. split; [rewrite Hl, Hlog; reflexivity |].
      repeat constructor.
    + intros x [= <-]. destruct Hst as [-> | ->]; simpl; auto 10.
Qed.

(** X2: a dry run of create asks git for nothing but the list of
    worktrees of the configured repositories, and reports only
    [already_exists], [already_in_use], [dry_run], [error] or [skipped]:
    no fetch, no branch, no worktree is made. *)
Theorem create_dry_run_only_lists
        (config : EtzConfig) (options : Sw.SwitchOptions) (w : World G) :
  flag (Sw.dryRun options) = true ->
  (exists calls,
      gitLog (snd (switchToWorktree git config options w)) = (gitLog w ++ calls)%list
      /\ Forall (fun c => isWorktreeList c
                          /\ In (cwd c) (map base_path (repos config))) calls)
  /\ Forall (fun r => In (Sw.status r)
                         [Sw.already_exists; Sw.already_in_use; Sw.dry_run; Sw.error;
                          Sw.skipped])
            (fst (switchToWorktree git config options w)).
Proof.
  intros Hdry. unfold switchToWorktree.
  destruct (match present (Sw.label options) with
            | Some l => validateLabel l
            | None => inr tt
            end).
  - split.
    + exists []. split; [simpl; now rewrite app_nil_r | constructor].
    + constructor; [simpl; auto 10 | constructor].
  - split.
    + generalize (repos config) as rs. intros rs. revert w.
      induction rs as [| r rs IH]; intros w; simpl.
      * exists []. split; [now rewrite app_nil_r | constructor].
      * unfold bind, ret.
        destruct (switchRepo_dry config options r w Hdry) as [[c1 [Hl1 Hc1]] _].
        destruct (switchRepo git config options r w) as [res w1]. simpl in Hl1.
        destruct (IH w1) as [c2 [Hl2 Hc2]].
        destruct (forEachRepo _ rs w1) as [more w2]. simpl in *.
        exists (c1 ++ c2)%list. split.
        -- now rewrite Hl2, Hl1, app_assoc.
        -- apply Forall_app. split.
           ++ eapply Forall_impl; [| exact Hc1]. intros c [Hc Hcwd].
              split; [exact Hc | left; now rewrite Hcwd].
           ++ eapply Forall_impl; [| exact Hc2]. intros c [Hc Hin].
              split; [exact Hc | now right].
    + apply forEachRepo_Forall. intros r w0 x.
      apply (switchRepo_dry config options r w0 Hdry).
Qed.

Lemma bind_some {A} (m : M G A) (w : World G) :
  bind m (fun r => ret (Some r)) w = (Some (fst (m w)), snd (m w)).
Proof. unfold bind, ret. now destruct (m w). Qed.

Ltac cases_of_match :=
  repeat match goal with
         | |- context [match ?x with _ => _ end] => destruct x
         end.

Lemma cleanIOSDerivedData_dry (worktreePath : string) (w : World G) :
  snd (cleanIOSDerivedData homedir worktreePath true w) = w.
Proof.
  unfold cleanIOSDerivedData. cases_of_match; reflexivity.
Qed.

(** A dry run of [cleanWorktree] leaves the world as it is. *)
Lemma cleanWorktree_dry (repoName baseRepoPath worktreePath : string)
      (force deleteBranches : bool) (w : World G) :
  snd (cleanWorktree git homedir repoName baseRepoPath worktreePath force true
         deleteBranches w) = w
  /\ In (Cl.status (fst (cleanWorktree git homedir repoName baseRepoPath worktreePath
                           force true deleteBranches w)))
        [Cl.not_found; Cl.not_worktree; Cl.dry_run].
Proof.
  unfold cleanWorktree, bind, ret, readDisk, worktreeExists, readDisk.
  destruct (Fs.existsSync (disk w) worktreePath); simpl; [| auto].
  destruct (negb _ && negb force); simpl; [auto |].
  destruct (isIOSProject _ _); simpl; [| auto].
  pose proof (cleanIOSDerivedData_dry worktreePath w) as Hdry.
  destruct (cleanIOSDerivedData homedir worktreePath true w) as [p w1].
  simpl in *. auto 6.
Qed.

Lemma forEachRepo_world {R} (body : RepoConfig -> M G (option R)) :
  (forall r w, snd (body r w) = w) ->
  forall rs w, snd (forEachRepo body rs w) = w.
Proof.
  intros Hbody. induction rs as [| r rs IH]; intros w; simpl; [reflexivity |].
  unfold bind, ret.
  pose proof (Hbody r w) as Hr. destruct (body r w) as [res w1]. simpl in Hr. subst w1.
  specialize (IH w). destruct (forEachRepo body rs w) as [more w2]. exact IH.
Qed.

(** The repositories [clean] goes through. *)
Lemma clean_runs (config : EtzConfig) (options : Cl.CleanOptions) (w : World G) :
  validateNoPathTraversal (Cl.label options) "label" = inr tt ->
  let labelFolder := Path.join [worktrees_dir config; Cl.label options] in
  Js.startsWith (Path.normalize labelFolder)
                (Path.normalize (worktrees_dir config) ++ Path.sep) = true ->
  Fs.existsSync (disk w) labelFolder = true ->
  let w1 := snd (onBuilds (Build.killAllBuildsForLabel (Cl.label options)) w) in
  let body := fun repo =>
                bind (cleanWorktree git homedir (name repo) (base_path repo)
                        (Path.join [labelFolder; name repo])
                        (flag (Cl.force options)) (flag (Cl.dryRun options))
                        (flag (Cl.deleteBranches options)))
                     (fun r => ret (Some r)) in
  let selected := match present (Cl.repo options) with
                  | Some only => filter (fun r => String.eqb (name r) only) (repos config)
                  | None => repos config
                  end in
  clean git homedir config options w
  = let (results, w2) := forEachRepo body selected w1 in
    let (extra, w3) := (if negb (flag (Cl.dryRun options))
                        then removeEmptyLabelFolder labelFolder
                        else ret []) w2 in
    ((results ++ extra)%list, w3).
Proof.
  intros Hvalid labelFolder Hinside Hthere w1 body selected.
  unfold clean. rewrite Hvalid. unfold bind at 1.
  subst w1. destruct (onBuilds _ w) as [n w1] eqn:Hkill.
  assert (disk w1 = disk w) as Hdisk.
  { unfold onBuilds in Hkill. destruct (Build.killAllBuildsForLabel _ _).
    now inversion Hkill. }
  fold labelFolder. rewrite Hinside. cbn [negb].
  unfold bind at 1, readDisk at 1. rewrite Hdisk, Hthere. cbn [negb snd].
  unfold bind at 1. fold selected. fold body.
  destruct (forEachRepo body selected w1) as [results w2].
  unfold bind, ret.
  destruct ((if negb (flag (Cl.dryRun options))
             then removeEmptyLabelFolder labelFolder else fun w0 => ([], w0)) w2)
    as [extra w3]. reflexivity.
Qed.

Lemma clean_absent (config : EtzConfig) (options : Cl.CleanOptions) (w : World G) :
  validateNoPathTraversal (Cl.label options) "label" = inr tt ->
  let labelFolder := Path.join [worktrees_dir config; Cl.label options] in
  Js.startsWith (Path.normalize labelFolder)
                (Path.normalize (worktrees_dir config) ++ Path.sep) = true ->
  Fs.existsSync (disk w) labelFolder = false ->
  clean git homedir config options w
  = ([mkClean "" false ("No worktree directory found at " ++ labelFolder) Cl.not_found],
     snd (onBuilds (Build.killAllBuildsForLabel (Cl.label options)) w)).
Proof.
  intros Hvalid labelFolder Hinside Habsent.
  unfold clean. rewrite Hvalid. unfold bind at 1. unfold onBuilds.
  destruct (Build.killAllBuildsForLabel _ _) as [n t].
  fold labelFolder. rewrite Hinside. unfold bind, readDisk. simpl.
  now rewrite Habsent.
Qed.

Lemma clean_outside (config : EtzConfig) (options : Cl.CleanOptions) (w : World G) :
  validateNoPathTraversal (Cl.label options) "label" = inr tt ->
  Js.startsWith
    (Path.normalize (Path.join [worktrees_dir config; Cl.label options]))
    (Path.normalize (worktrees_dir config) ++ Path.sep) = false ->
  clean git homedir config options w
  = ([mkClean "" false "Security error: path traversal detected" Cl.error],
     snd (onBuilds (Build.killAllBuildsForLabel (Cl.label options)) w)).
Proof.
  intros Hvalid Houtside.
  unfold clean. rewrite Hvalid. unfold bind, onBuilds.
  destruct (Build.killAllBuildsForLabel _ _) as [n t].
  now rewrite Houtside.
Qed.

(** X3: a dry run of clean changes neither the disk nor git, and
    reports [not_found], [not_worktree], [dry_run] or [error] only. *)
Theorem clean_dry_run_touches_nothing
        (config : EtzConfig) (options : Cl.CleanOptions) (w : World G) :
  flag (Cl.dryRun options) = true ->
  disk (snd (clean git homedir config options w)) = disk w
  /\ gitLog (snd (clean git homedir config options w)) = gitLog w
  /\ gitState (snd (clean git homedir config options w)) = gitState w
  /\ Forall (fun r => In (Cl.status r)
                         [Cl.not_found; Cl.not_worktree; Cl.dry_run; Cl.error])
            (fst (clean git homedir config options w)).
Proof.
  intros Hdry.
  destruct (validateNoPathTraversal (Cl.label options) "label") as [msg | []] eqn:Hvalid.
  { unfold clean. rewrite Hvalid. simpl. repeat split.
    constructor; [simpl; auto 10 | constructor]. }
  destruct (Js.startsWith
              (Path.normalize (Path.join [worktrees_dir config; Cl.label options]))
              (Path.normalize (worktrees_dir config) ++ Path.sep)) eqn:Hinside.
  2:{ rewrite (clean_outside config options w Hvalid Hinside).
      unfold onBuilds. destruct (Build.killAllBuildsForLabel _ _) as [n t].
      repeat split. constructor; [simpl; auto 10 | constructor]. }
  destruct (Fs.existsSync (disk w) (Path.join [worktrees_dir config; Cl.label options]))
    eqn:Hthere.
  2:{ rewrite (clean_absent config options w Hvalid Hinside Hthere).
      unfold onBuilds. destruct (Build.killAllBuildsForLabel _ _) as [n t]. simpl.
      repeat split. constructor; [simpl; auto 10 | constructor]. }
  rewrite (clean_runs config options w Hvalid Hinside Hthere).
  rewrite Hdry. cbn [negb]. unfold ret at 2.
  match goal with
  | |- context [forEachRepo ?b ?sel ?w1] => set (body := b); set (selected := sel)
  end.
  assert (forall r w0, snd (body r w0) = w0) as Hworld.
  { intros r w0. unfold body. rewrite bind_some. apply cleanWorktree_dry. }
  assert (forall r w0 x, fst (body r w0) = Some x ->
                         In (Cl.status x)
                            [Cl.not_found; Cl.not_worktree; Cl.dry_run; Cl.error])
    as Hstatus.
  { intros r w0 x. unfold body. rewrite bind_some. intros [= <-].
    match goal with
    | |- context [cleanWorktree git homedir ?a ?b ?c ?d true ?e ?f] =>
        destruct (cleanWorktree_dry a b c d e f) as [_ Hin]
    end.
    simpl in *. intuition. }
  pose proof (forEachRepo_world body Hworld selected) as Hw.
  pose proof (forEachRepo_Forall _ body Hstatus selected) as Hst.
  unfold onBuilds in *. destruct (Build.killAllBuildsForLabel _ _) as [n t].
  cbn [snd] in *.
  match goal with
  | |- context [forEachRepo body selected ?w1] =>
      specialize (Hw w1); specialize (Hst w1);
      destruct (forEachRepo body selected w1) as [results w2]
  end.
  simpl in Hw, Hst. subst w2. simpl. rewrite app_nil_r. repeat split. exact Hst.
Qed.

Lemma deleteDirectory_result (repoName baseRepoPath worktreePath : string)
      (deleteBranches : bool) (branchName derived : option string)
      (r : Cl.CleanResult) (w w' : World G) :
  deleteDirectory git repoName baseRepoPath worktreePath deleteBranches
    branchName derived w = (r, w') ->
  Cl.repoName r = repoName /\ Cl.success r = cleans (Cl.status r).
Proof.
  unfold deleteDirectory, bind, ret, readDisk, writeDisk.
  destruct (Fs.existsSync _ _); simpl; [| intros [= <- _]; now split].
  destruct (if deleteBranches then present branchName else None); simpl;
    [| intros [= <- _]; now split].
  destruct (deleteLocalBranch _ _ _ _ _); simpl. intros [= <- _]. now split.
Qed.

Lemma removeAndDelete_result (repoName baseRepoPath worktreePath : string)
      (isWorktree force dryRun deleteBranches : bool) (r : Cl.CleanResult)
      (w w' : World G) :
  removeAndDelete git homedir repoName baseRepoPath worktreePath isWorktree force
    dryRun deleteBranches w = (r, w') ->
  Cl.repoName r = repoName /\ Cl.success r = cleans (Cl.status r).
Proof.
  unfold removeAndDelete. unfold bind at 1.
  match goal with
  | |- context [(if ?c then ?a else ?b) w] =>
      destruct ((if c then a else b) w) as [branchName w1]
  end.
  unfold bind at 1.
  match goal with
  | |- context [(if ?c then ?a else ?b) w1] =>
      destruct ((if c then a else b) w1) as [removal w2]
  end.
  destruct removal as [msg | []], force; try (intros [= <- _]; now split);
    unfold bind at 1, readDisk at 1; unfold bind at 1;
    match goal with
    | |- context [(if ?c then ?a else ?b) w2] =>
        destruct ((if c then a else b) w2) as [derived w3]
    end;
    apply deleteDirectory_result.
Qed.

Lemma cleanWorktree_result_eq (repoName baseRepoPath worktreePath : string)
      (force dryRun deleteBranches : bool) (r : Cl.CleanResult) (w w' : World G) :
  cleanWorktree git homedir repoName baseRepoPath worktreePath force
    dryRun deleteBranches w = (r, w') ->
  Cl.repoName r = repoName /\ Cl.success r = cleans (Cl.status r).
Proof.
  unfold cleanWorktree, bind at 1, readDisk at 1.
  destruct (Fs.existsSync (disk w) worktreePath) eqn:Hthere; cbn [negb];
    [| intros [= <- _]; now split].
  unfold bind at 1.
  destruct (worktreeExists worktreePath w) as [isWorktree w0] eqn:Hwt.
  assert (w0 = w) as -> by (unfold worktreeExists, readDisk in Hwt; now inversion Hwt).
  destruct (negb isWorktree && negb force); [intros [= <- _]; now split |].
  destruct dryRun; [| apply removeAndDelete_result].
  unfold bind, ret, readDisk.
  destruct (isIOSProject _ _); [| intros [= <- _]; now split].
  destruct (cleanIOSDerivedData _ _ _ _). intros [= <- _]. now split.
Qed.

(** Every result of [cleanWorktree] bears the name of its repository,
    and its [success] flag is decided by its status. *)
Lemma cleanWorktree_result (repoName baseRepoPath worktreePath : string)
      (force dryRun deleteBranches : bool) (w : World G) :
  let r := fst (cleanWorktree git homedir repoName baseRepoPath worktreePath force
                  dryRun deleteBranches w) in
  Cl.repoName r = repoName /\ Cl.success r = cleans (Cl.status r).
Proof.
  intros r. subst r.
  destruct (cleanWorktree _ _ _ _ _ _ _ _ w) as [r w'] eqn:E.
  exact (cleanWorktree_result_eq _ _ _ _ _ _ _ _ _ E).
Qed.

Lemma removeEmptyLabelFolder_result (labelFolder : string) (w : World G) :
  fst (removeEmptyLabelFolder labelFolder w) = []
  \/ fst (removeEmptyLabelFolder labelFolder w)
     = [{| Cl.repoName := ""; Cl.success := true;
           Cl.message := "Deleted empty label folder: " ++ labelFolder;
           Cl.status := Cl.deleted |}].
Proof.
  unfold removeEmptyLabelFolder, bind, ret, readDisk, writeDisk.
  destruct (Fs.existsSync _ _); simpl; [| now left].
  destruct (Fs.readdirSync _ _); simpl; [| now left].
  destruct (filter _ _); simpl; [now right | now left].
Qed.

(** X4: when the label folder is there, clean gives one result per
    selected repository, in the order of the configuration, and after
    them at most one result, for the removal of the label folder, which
    a dry run never gives. *)
Theorem clean_results_in_order
        (config : EtzConfig) (options : Cl.CleanOptions) (w : World G) :
  validateNoPathTraversal (Cl.label options) "label" = inr tt ->
  let labelFolder := Path.join [worktrees_dir config; Cl.label options] in
  Js.startsWith (Path.normalize labelFolder)
                (Path.normalize (worktrees_dir config) ++ Path.sep) = true ->
  Fs.existsSync (disk w) labelFolder = true ->
  let selected := match present (Cl.repo options) with
                  | Some only => filter (fun r => String.eqb (name r) only) (repos config)
                  | None => repos config
                  end in
  exists perRepo extra,
    fst (clean git homedir config options w) = (perRepo ++ extra)%list
    /\ map Cl.repoName perRepo = map name selected
    /\ (extra = []
        \/ extra = [{| Cl.repoName := ""; Cl.success := true;
                       Cl.message := "Deleted empty label folder: " ++ labelFolder;
                       Cl.status := Cl.deleted |}])
    /\ (flag (Cl.dryRun options) = true -> extra = []).
Proof.
  intros Hvalid labelFolder Hinside Hthere selected.
  rewrite (clean_runs config options w Hvalid Hinside Hthere).
  fold labelFolder. fold selected.
  match goal with
  | |- context [forEachRepo ?b selected ?x] => set (body := b); set (w1 := x)
  end.
  assert (forall rs w0,
             map Cl.repoName (fst (forEachRepo body rs w0)) = map name rs) as Hnames.
  { induction rs as [| r rs IH]; intros w0; simpl; [reflexivity |].
    unfold bind at 1. unfold body at 1. rewrite bind_some.
    specialize (IH (snd (cleanWorktree git homedir (name r) (base_path r)
                           (Path.join [labelFolder; name r]) (flag (Cl.force options))
                           (flag (Cl.dryRun options))
                           (flag (Cl.deleteBranches options)) w0))).
    unfold bind, ret. destruct (forEachRepo body rs _) as [more w2]. simpl in *.
    rewrite IH. f_equal. apply cleanWorktree_result. }
  specialize (Hnames selected w1).
  destruct (forEachRepo body selected w1) as [results w2]. simpl in Hnames.
  destruct (flag (Cl.dryRun options)); cbn [negb].
  - exists results, []. unfold ret. simpl. repeat split; auto.
  - pose proof (removeEmptyLabelFolder_result labelFolder w2) as Hextra.
    destruct (removeEmptyLabelFolder labelFolder w2) as [extra w3]. simpl in *.
    exists results, extra. repeat split; auto. discriminate.
Qed.

(** X5: but for the single [not_found] failure that clean returns when
    the label folder is missing, the [success] flag of every result of
    clean is decided by its status: true for [deleted], [dry_run] and
    [not_found], false for [not_worktree] and [error]. *)
Theorem clean_success_follows_status
        (config : EtzConfig) (options : Cl.CleanOptions) (w : World G) :
  (Fs.existsSync (disk w) (Path.join [worktrees_dir config; Cl.label options]) = false
   /\ exists msg,
        fst (clean git homedir config options w)
        = [{| Cl.repoName := ""; Cl.success := false; Cl.message := msg;
              Cl.status := Cl.not_found |}])
  \/ Forall (fun r => Cl.success r = cleans (Cl.status r))
            (fst (clean git homedir config options w)).
Proof.
  destruct (validateNoPathTraversal (Cl.label options) "label") as [msg | []] eqn:Hvalid.
  { right. unfold clean. rewrite Hvalid. simpl. repeat constructor. }
  destruct (Js.startsWith
              (Path.normalize (Path.join [worktrees_dir config; Cl.label options]))
              (Path.normalize (worktrees_dir config) ++ Path.sep)) eqn:Hinside.
  2:{ right. rewrite (clean_outside config options w Hvalid Hinside).
      repeat constructor. }
  destruct (Fs.existsSync (disk w) (Path.join [worktrees_dir config; Cl.label options]))
    eqn:Hthere.
  2:{ left. split; [reflexivity |].
      rewrite (clean_absent config options w Hvalid Hinside Hthere).
      eexists. reflexivity. }
  right. rewrite (clean_runs config options w Hvalid Hinside Hthere).
  match goal with
  | |- context [forEachRepo ?b ?sel ?w1] =>
      pose proof (forEachRepo_Forall (fun r => Cl.success r = cleans (Cl.status r)) b)
        as Hall;
      specialize (Hall ltac:(intros r w0 x; cbv beta; rewrite bind_some; intros [= <-];
                             apply cleanWorktree_result) sel w1);
      destruct (forEachRepo b sel w1) as [results w2]
  end.
  simpl in Hall.
  destruct (flag (Cl.dryRun options)); cbn [negb].
  - unfold ret. simpl. now rewrite app_nil_r.
  - match goal with
    | |- context [removeEmptyLabelFolder ?lf w2] =>
        pose proof (removeEmptyLabelFolder_result lf w2) as Hextra;
        destruct (removeEmptyLabelFolder lf w2) as [extra w3]
    end.
    simpl in *. apply Forall_app. split; [exact Hall |].
    destruct Hextra as [-> | ->]; repeat constructor.
Qed.

End MoreEngineFacts.

(* ================================================================== *)
(** * Splitting and joining *)
(* ================================================================== *)

Lemma split_one (sep : ascii) (a : string) :
  hasChar [sep] a = false -> Js.split sep a = [a].
Proof.
  induction a as [| c a IH]; simpl; [reflexivity |].
  rewrite orb_false_r. intros H. apply orb_false_iff in H as [Hc Ha].
  rewrite Hc, (IH Ha). reflexivity.
Qed.

(** The first piece of a split ends at the first separator. *)
Lemma split_app (sep : ascii) (a b : string) :
  hasChar [sep] a = false ->
  Js.split sep (a ++ String sep b) = a :: Js.split sep b.
Proof.
  induction a as [| c a IH]; simpl.
  - intros _. now rewrite Ascii.eqb_refl.
  - rewrite orb_false_r. intros H. apply orb_false_iff in H as [Hc Ha].
    rewrite Hc, (IH Ha). reflexivity.
Qed.

Lemma split_pieces (sep : ascii) (s : string) :
  Forall (fun piece => hasChar [sep] piece = false) (Js.split sep s).
Proof.
  induction s as [| c s IH]; simpl; [repeat constructor |].
  destruct (Ascii.eqb c sep) eqn:E.
  - constructor; [reflexivity | exact IH].
  - destruct (Js.split sep s) as [| piece pieces]; [repeat constructor; simpl |].
    + now rewrite E.
    + inversion IH; subst. constructor; [| assumption].
      simpl. now rewrite E, orb_false_r.
Qed.

Lemma split_not_empty (sep : ascii) (s : string) : Js.split sep s <> [].
Proof.
  destruct s as [| c s]; simpl; [discriminate |].
  destruct (Ascii.eqb c sep); [discriminate |].
  destruct (Js.split sep s); discriminate.
Qed.

(** Joining pieces that hold no separator and splitting again gives the
    pieces back. *)
Lemma split_join (sep : ascii) (l : list string) :
  l <> [] ->
  Forall (fun piece => hasChar [sep] piece = false) l ->
  Js.split sep (Js.join (String sep EmptyString) l) = l.
Proof.
  induction l as [| x l IH]; [congruence |]. intros _ Hall.
  inversion Hall as [| ? ? Hx Hl]; subst.
  destruct l as [| y l]; simpl.
  - now apply split_one.
  - change (String sep EmptyString ++ ?s)%string with (String sep s).
    simpl append.
    rewrite (split_app sep x _ Hx). f_equal. apply IH; [discriminate | assumption].
Qed.

(* ================================================================== *)
(** * git/operations.ts: the enriched PATH, the branches *)
(* ================================================================== *)

Lemma Forall_filter_keep {A} (P : A -> Prop) (f : A -> bool) (l : list A) :
  Forall P l -> Forall P (filter f l).
Proof.
  rewrite !Forall_forall. intros H x Hin.
  apply filter_In in Hin as [Hin _]. auto.
Qed.

Lemma filter_none {A} (f : A -> bool) (l : list A) :
  (forall x, In x l -> f x = false) -> filter f l = [].
Proof.
  induction l as [| x l IH]; simpl; intros H; [reflexivity |].
  rewrite (H x (or_introl eq_refl)). apply IH. intros y Hy. apply H. now right.
Qed.

Lemma orString_some (s : string) : orString (Some s) "" = s.
Proof. unfold orString, present. now destruct s. Qed.

Lemma existsb_eqb_In (x : string) (l : list string) :
  existsb (String.eqb x) l = true <-> In x l.
Proof.
  rewrite existsb_exists. split.
  - intros [y [Hin Heq]]. apply String.eqb_eq in Heq. now subst.
  - intros Hin. exists x. split; [assumption | apply String.eqb_refl].
Qed.

(** The entries of the enriched PATH. *)
Lemma getEnrichedPath_entries (envPath : option string) :
  Js.split colon (getEnrichedPath envPath)
  = (Js.split colon (orString envPath "")
     ++ filter (fun p => negb (existsb (String.eqb p)
                                       (Js.split colon (orString envPath ""))))
               additionalPaths)%list.
Proof.
  unfold getEnrichedPath. apply (split_join colon).
  - intros H. apply app_eq_nil in H as [H _]. exact (split_not_empty _ _ H).
  - apply Forall_app. split; [apply split_pieces |].
    apply Forall_filter_keep. repeat constructor.
Qed.

(** X6: the enriched PATH holds the entries of the PATH it was given, in
    their order, followed by those of the four standard locations that
    were missing; so each standard location is in it, and enriching an
    enriched PATH changes nothing. *)
Theorem getEnrichedPath_adds_missing_once (envPath : option string) :
  let entries := Js.split colon (getEnrichedPath envPath) in
  (exists added,
      entries = (Js.split colon (orString envPath "") ++ added)%list
      /\ forall p, In p added <->
                   In p additionalPaths
                   /\ ~ In p (Js.split colon (orString envPath "")))
  /\ (forall p, In p additionalPaths -> In p entries)
  /\ getEnrichedPath (Some (getEnrichedPath envPath)) = getEnrichedPath envPath.
Proof.
  intros entries. subst entries. rewrite getEnrichedPath_entries.
  set (given := Js.split colon (orString envPath "")).
  set (added := filter (fun p => negb (existsb (String.eqb p) given)) additionalPaths).
  assert (forall p, In p added <-> In p additionalPaths /\ ~ In p given) as Hadded.
  { intros p. unfold added. rewrite filter_In, negb_true_iff.
    split; intros [Hp Hn]; (split; [exact Hp |]).
    - intros Hin. apply existsb_eqb_In in Hin. congruence.
    - destruct (existsb (String.eqb p) given) eqn:E; [| reflexivity].
      exfalso. apply Hn. now apply existsb_eqb_In. }
  assert (forall p, In p additionalPaths -> In p (given ++ added)%list) as Hall.
  { intros p Hp. apply in_or_app.
    destruct (existsb (String.eqb p) given) eqn:E.
    - left. now apply existsb_eqb_In.
    - right. apply Hadded. split; [assumption |].
      rewrite <- existsb_eqb_In, E. discriminate. }
  split; [exists added; now split |]. split; [exact Hall |].
  unfold getEnrichedPath at 1. rewrite orString_some, getEnrichedPath_entries.
  fold given. fold added.
  assert (filter (fun p => negb (existsb (String.eqb p) (given ++ added)%list))
                 additionalPaths = []) as ->.
  { apply filter_none. intros p Hp.
    apply negb_false_iff, existsb_eqb_In. now apply Hall. }
  rewrite app_nil_r. reflexivity.
Qed.

Lemma unitsLeb_total (a b : list N) : Js.unitsLeb a b = true \/ Js.unitsLeb b a = true.
Proof.
  revert b. induction a as [| x a IH]; intros [| y b]; simpl; auto.
  destruct (x <? y)%N eqn:Exy; [now left |].
  destruct (y <? x)%N eqn:Eyx; [now right |]. apply IH.
Qed.

Lemma leb_total (a b : string) : Js.leb a b = true \/ Js.leb b a = true.
Proof. apply unitsLeb_total. Qed.

Lemma insertSorted_In (x z : string) (l : list string) :
  In z (insertSorted x l) <-> z = x \/ In z l.
Proof.
  induction l as [| y l IH]; simpl; [intuition |].
  destruct (Js.leb x y); simpl; [intuition |].
  rewrite IH. intuition.
Qed.

Lemma insertSorted_HdRel (a x : string) (l : list string) :
  HdRel leString a l -> leString a x -> HdRel leString a (insertSorted x l).
Proof.
  intros Hl Hx. destruct l as [| y l]; simpl; [now constructor |].
  destruct (Js.leb x y); constructor; [assumption |].
  now inversion Hl.
Qed.

Lemma insertSorted_Sorted (x : string) (l : list string) :
  Sorted leString l -> Sorted leString (insertSorted x l).
Proof.
  induction l as [| y l IH]; simpl; intros Hs; [repeat constructor |].
  inversion Hs as [| ? ? Hl Hy]; subst.
  destruct (Js.leb x y) eqn:E.
  - constructor; [assumption | now constructor].
  - constructor; [now apply IH |].
    apply insertSorted_HdRel; [assumption |].
    destruct (leb_total x y) as [H | H]; [congruence | exact H].
Qed.

Lemma insertSorted_NoDup (x : string) (l : list string) :
  ~ In x l -> NoDup l -> NoDup (insertSorted x l).
Proof.
  induction l as [| y l IH]; simpl; intros Hx Hnd; [repeat constructor; auto |].
  inversion Hnd as [| ? ? Hy Hl]; subst.
  destruct (Js.leb x y).
  - constructor; [simpl; intuition | assumption].
  - constructor; [| apply IH; intuition].
    rewrite insertSorted_In. intuition.
Qed.

Lemma sortStrings_facts (l : list string) :
  Sorted leString (sortStrings l)
  /\ (forall z, In z (sortStrings l) <-> In z l)
  /\ (NoDup l -> NoDup (sortStrings l)).
Proof.
  induction l as [| x l (Hs & Hin & Hnd)]; simpl.
  - repeat split; auto; constructor.
  - split; [now apply insertSorted_Sorted |]. split.
    + intros z. rewrite insertSorted_In, Hin. intuition.
    + intros H. inversion H; subst.
      apply insertSorted_NoDup; [now rewrite Hin | auto].
Qed.

Lemma setAdd_facts (set : list string) (x : string) :
  (forall z, In z (setAdd set x) <-> In z set \/ z = x)
  /\ (NoDup set -> NoDup (setAdd set x)).
Proof.
  unfold setAdd. destruct (existsb (String.eqb x) set) eqn:E.
  - apply existsb_eqb_In in E. split; [intros z; intuition; now subst | auto].
  - split.
    + intros z. rewrite in_app_iff. simpl. intuition.
    + intros Hnd. apply NoDup_app; [assumption | repeat constructor; auto |].
      intros z Hz [<- | []]. apply existsb_eqb_In in Hz. congruence.
Qed.

Lemma branchSet_facts (all set : list string) :
  let result :=
    fold_left (fun branchSet branch =>
                 if Js.includes branch "HEAD" then branchSet
                 else setAdd branchSet (stripRemote branch)) all set in
  (forall z, In z result <->
             In z set
             \/ exists b, In b all /\ Js.includes b "HEAD" = false /\ z = stripRemote b)
  /\ (NoDup set -> NoDup result).
Proof.
  revert set. induction all as [| b all IH]; intros set; simpl.
  - split; [| auto]. intros z. split; [auto | intros [H | [b [[] _]]]; exact H].
  - destruct (Js.includes b "HEAD") eqn:E.
    + destruct (IH set) as [Hin Hnd]. split; [| exact Hnd].
      intros z. rewrite Hin. split.
      * intros [H | [b' (Hb' & Hh & Hz)]]; [now left | right; exists b'; auto].
      * intros [H | [b' ([<- | Hb'] & Hh & Hz)]];
          [now left | congruence | right; exists b'; auto].
    + destruct (IH (setAdd set (stripRemote b))) as [Hin Hnd].
      destruct (setAdd_facts set (stripRemote b)) as [Hadd Hnd'].
      split; [| auto].
      intros z. rewrite Hin, Hadd. split.
      * intros [[H | ->] | [b' (Hb' & Hh & Hz)]];
          [now left | right; exists b; auto | right; exists b'; auto].
      * intros [H | [b' ([<- | Hb'] & Hh & Hz)]];
          [auto | auto | right; exists b'; auto].
Qed.

(** X7: the list [getBranches] makes of [branches.all] is in increasing
    order and without duplicates, and holds exactly the names of the
    entries that do not mention [HEAD], their prefix [remotes/origin/]
    taken off. *)
Theorem branches_sorted_and_unique (all : list string) :
  Sorted leString (normalizeBranches all)
  /\ NoDup (normalizeBranches all)
  /\ forall z, In z (normalizeBranches all) <->
               exists b, In b all /\ Js.includes b "HEAD" = false /\ z = stripRemote b.
Proof.
  unfold normalizeBranches.
  destruct (branchSet_facts all []) as [Hin Hnd].
  match goal with
  | |- context [sortStrings ?l] => destruct (sortStrings_facts l) as (Hs & Hsin & Hsnd)
  end.
  split; [exact Hs |]. split; [apply Hsnd, Hnd; constructor |].
  intros z. rewrite Hsin, Hin. simpl. intuition.
Qed.

(* ================================================================== *)
(** * Reading [git worktree list --porcelain] *)
(* ================================================================== *)

Lemma prefix_empty (s : string) : String.prefix "" s = true.
Proof. now destruct s. Qed.

Lemma parseLine_worktree (acc : list Worktree) (cur : Partial) (p : string) :
  parseLine (acc, cur) ("worktree " ++ p)
  = (acc, {| p_path := Some p; p_branch := p_branch cur; p_bare := p_bare cur |}).
Proof.
  unfold parseLine, Js.startsWith. cbn. now rewrite prefix_empty.
Qed.

Lemma parseLine_branch (acc : list Worktree) (cur : Partial) (b : string) :
  parseLine (acc, cur) ("branch refs/heads/" ++ b)
  = (acc, {| p_path := p_path cur; p_branch := Some b; p_bare := p_bare cur |}).
Proof.
  unfold parseLine, Js.startsWith. cbn. now rewrite prefix_empty.
Qed.

Lemma parseLine_bare (acc : list Worktree) (cur : Partial) :
  parseLine (acc, cur) "bare"
  = (acc, {| p_path := p_path cur; p_branch := p_branch cur; p_bare := true |}).
Proof. reflexivity. Qed.

Lemma parseLine_blank (acc : list Worktree) (cur : Partial) :
  parseLine (acc, cur) ""
  = match present (p_path cur) with
    | Some p =>
        ((acc ++ [{| wt_path := p;
                     wt_branch := match present (p_branch cur) with
                                  | Some b => b
                                  | None => ""
                                  end;
                     wt_bare := p_bare cur |}])%list, emptyPartial)
    | None => (acc, emptyPartial)
    end.
Proof. reflexivity. Qed.

Lemma append_assoc (a b c : string) : ((a ++ b) ++ c = a ++ (b ++ c))%string.
Proof. induction a as [| x a IH]; simpl; [reflexivity | now rewrite IH]. Qed.

Lemma split_line (a rest : string) :
  hasChar [Js.newline] a = false ->
  Js.split Js.newline (a ++ lineFeed ++ rest) = a :: Js.split Js.newline rest.
Proof. intros H. exact (split_app Js.newline a rest H). Qed.

Lemma hasChar_app (cs : list ascii) (a b : string) :
  hasChar cs (a ++ b) = hasChar cs a || hasChar cs b.
Proof.
  induction a as [| x a IH]; simpl; [reflexivity |].
  now rewrite IH, orb_assoc.
Qed.

Lemma append_empty (s : string) : (s ++ "")%string = s.
Proof. induction s as [| c s IH]; simpl; [reflexivity | now rewrite IH]. Qed.

Lemma parseLine_passedOver (st : list Worktree * Partial) (line : string) :
  passedOver line = true -> parseLine st line = st.
Proof.
  unfold passedOver. intros H.
  repeat (apply andb_true_iff in H as [H ?]).
  repeat match goal with
         | H : negb _ = true |- _ => apply negb_true_iff in H
         end.
  unfold parseLine. destruct st as [worktrees current].
  now repeat match goal with
             | H : ?c = false |- context [if ?c then _ else _] => rewrite H
             end.
Qed.

Lemma passedOver_line (line : string) :
  passedOver line = true -> hasChar [Js.newline] line = false.
Proof.
  unfold passedOver. intros H. apply andb_true_iff in H as [_ H].
  now apply negb_true_iff.
Qed.

(** The lines passed over leave the state of the parser as it is. *)
Lemma parse_passedOver (lines : list string) (rest : string)
      (st : list Worktree * Partial) :
  forallb passedOver lines = true ->
  fold_left parseLine (Js.split Js.newline (renderLines lines ++ rest)) st
  = fold_left parseLine (Js.split Js.newline rest) st.
Proof.
  induction lines as [| line lines IH]; cbn [renderLines forallb]; [reflexivity |].
  intros H. apply andb_true_iff in H as [Hline Hlines].
  rewrite !append_assoc, (split_line line _ (passedOver_line line Hline)).
  cbn [fold_left]. rewrite (parseLine_passedOver st line Hline).
  now apply IH.
Qed.

(** One printed record, read back. *)
Lemma parse_record (rest : string) (record : Printed) (acc : list Worktree) :
  printable record = true ->
  fold_left parseLine (Js.split Js.newline (renderWorktree record ++ rest))
            (acc, emptyPartial)
  = fold_left parseLine (Js.split Js.newline rest)
              ((acc ++ [shown record])%list, emptyPartial).
Proof.
  destruct record as [[p b bare] pre post]. unfold printable, renderWorktree.
  cbn [shown before after wt_path wt_branch wt_bare].
  intros Hok.
  apply andb_true_iff in Hok as [Hok Hpost].
  apply andb_true_iff in Hok as [Hok Hpre].
  apply andb_true_iff in Hok as [Hok Hbare].
  apply andb_true_iff in Hok as [Hok Hb]. apply negb_true_iff in Hb.
  apply andb_true_iff in Hok as [Hp Hnl]. apply negb_true_iff in Hnl.
  assert (hasChar [Js.newline] ("worktree " ++ p) = false) as Hl1
      by (rewrite hasChar_app; now rewrite Hnl).
  assert (hasChar [Js.newline] ("branch refs/heads/" ++ b) = false) as Hl3
      by (rewrite hasChar_app; now rewrite Hb).
  assert (present (Some p) = Some p) as Hpresent by (unfold present; now rewrite Hp).
  rewrite !append_assoc, <- (append_assoc "worktree " p).
  rewrite (split_line ("worktree " ++ p) _ Hl1). cbn [fold_left].
  rewrite parseLine_worktree. cbn [p_branch p_bare emptyPartial].
  rewrite (parse_passedOver pre _ _ Hpre).
  destruct bare.
  - apply negb_true_iff in Hbare.
    assert (b = "") as -> by (now destruct b).
    rewrite !append_assoc, (split_line "bare" _ eq_refl). cbn [fold_left].
    rewrite parseLine_bare. rewrite (parse_passedOver post _ _ Hpost).
    change (lineFeed ++ rest) with ("" ++ lineFeed ++ rest).
    rewrite (split_line "" rest eq_refl). cbn [fold_left].
    rewrite parseLine_blank.
    cbn [p_path p_branch p_bare emptyPartial]. rewrite Hpresent. reflexivity.
  - destruct (Js.truthy b) eqn:Hbt.
    + rewrite !append_assoc, <- (append_assoc "branch refs/heads/" b).
      rewrite (split_line ("branch refs/heads/" ++ b) _ Hl3). cbn [fold_left].
      rewrite parseLine_branch. rewrite (parse_passedOver post _ _ Hpost).
      change (lineFeed ++ rest) with ("" ++ lineFeed ++ rest).
      rewrite (split_line "" rest eq_refl). cbn [fold_left].
      rewrite parseLine_blank.
      cbn [p_path p_branch p_bare emptyPartial]. rewrite Hpresent.
      unfold present at 1. rewrite Hbt. reflexivity.
    + assert (b = "") as -> by (now destruct b).
      change ("" ++ renderLines post ++ lineFeed ++ rest)
        with (renderLines post ++ lineFeed ++ rest).
      rewrite (parse_passedOver post _ _ Hpost).
      change (lineFeed ++ rest) with ("" ++ lineFeed ++ rest).
      rewrite (split_line "" rest eq_refl). cbn [fold_left].
      rewrite parseLine_blank.
      cbn [p_path p_branch p_bare emptyPartial]. rewrite Hpresent. reflexivity.
Qed.

Lemma parse_records (tail : string) (records : list Printed) (acc : list Worktree) :
  forallb printable records = true ->
  fold_left parseLine (Js.split Js.newline (renderWorktrees records ++ tail))
            (acc, emptyPartial)
  = fold_left parseLine (Js.split Js.newline tail)
              ((acc ++ map shown records)%list, emptyPartial).
Proof.
  revert acc.
  induction records as [| record records IH]; intros acc Hok;
    cbn [renderWorktrees forallb map] in *.
  - change ("" ++ tail)%string with tail. now rewrite app_nil_r.
  - apply andb_true_iff in Hok as [Hrecord Hrecords].
    rewrite append_assoc, (parse_record _ record acc Hrecord), (IH _ Hrecords).
    now rewrite <- app_assoc.
Qed.

Lemma parseWorktrees_render (records : list Printed) :
  forallb printable records = true ->
  parseWorktrees (renderWorktrees records) = map shown records.
Proof.
  intros Hok. unfold parseWorktrees.
  rewrite <- (append_empty (renderWorktrees records)).
  rewrite (parse_records "" records [] Hok). reflexivity.
Qed.


Section Conflict.

Context {G : Type}.
Variable git : Git G.

(** X9: when the listing git prints for the repository holds a worktree
    on the branch asked for, and the worktree path is free, create
    reports [already_in_use], naming the path of the first such
    worktree, and has run nothing but the listing: no second worktree
    is made. *)
Theorem create_reports_branch_in_use
        (repoName baseRepoPath worktreePath branch baseBranch : string)
        (dryRun : bool) (records : list Printed) (w : World G) (g : G) (d : Fs.disk) :
  Fs.existsSync (disk w) worktreePath = false ->
  forallb printable records = true ->
  git (call baseRepoPath (Raw ["worktree"; "list"; "--porcelain"])) (gitState w) (disk w)
  = (inr (renderWorktrees records), g, d) ->
  existsb (fun wt => String.eqb (refOf (wt_branch wt)) (refOf branch))
          (map shown records) = true ->
  exists wt,
    find (fun wt => String.eqb (refOf (wt_branch wt)) (refOf branch))
         (map shown records) = Some wt
    /\ ensureWorktree git repoName baseRepoPath worktreePath branch baseBranch dryRun w
       = ({| Sw.repoName := repoName; Sw.success := false;
             Sw.message := "Branch '" ++ branch ++ "' is already checked out at "
                           ++ wt_path wt;
             Sw.status := Sw.already_in_use |},
          {| disk := d; gitState := g;
             gitLog := (gitLog w
                        ++ [call baseRepoPath (Raw ["worktree"; "list"; "--porcelain"])])%list;
             builds := builds w |}).
Proof.
  intros Hfree Hok Hgit Hused.
  destruct (find (fun wt => String.eqb (refOf (wt_branch wt)) (refOf branch))
                 (map shown records)) as [wt |] eqn:Hfind.
  2:{ exfalso. apply existsb_exists in Hused as [x [Hin Hx]].
      now rewrite (find_none _ _ Hfind x Hin) in Hx. }
  destruct (find_some _ _ Hfind) as [Hin Href].
  exists wt. split; [reflexivity |].
  assert (Js.truthy (wt_path wt) = true) as Hpath.
  { apply in_map_iff in Hin as [record [<- Hin]].
    apply (proj1 (forallb_forall _ _) Hok) in Hin. unfold printable in Hin.
    repeat (apply andb_true_iff in Hin as [Hin _]). exact Hin. }
  unfold ensureWorktree, bind at 1, readDisk at 1. rewrite Hfree.
  unfold bind at 1, findWorktreeByBranch, listWorktrees, wrapped, bind, ret, exec.
  unfold call in Hgit. rewrite Hgit.
  rewrite (parseWorktrees_render records Hok), Hfind.
  unfold present. rewrite Hpath. reflexivity.
Qed.

End Conflict.

(* ================================================================== *)
(** * The validators of labels and repository names *)
(* ================================================================== *)

Lemma absolute_includes_slash (s : string) :
  Path.isAbsolute s = true -> Js.includes s "/" = true.
Proof.
  destruct s as [| c s]; simpl; [discriminate |].
  unfold Path.slash. intros H. apply Ascii.eqb_eq in H. subst c.
  simpl. now rewrite prefix_empty.
Qed.

Lemma includes_char (c : ascii) (s : string) :
  Js.includes s (String c EmptyString) = false -> ~ In c (list_ascii_of_string s).
Proof.
  induction s as [| x s IH]; simpl; [tauto |].
  intros H. apply orb_false_iff in H as [Hx Hs].
  intros [-> | Hin]; [| exact (IH Hs Hin)].
  destruct (ascii_dec c c) as [_ | Hne]; [| now apply Hne].
  now rewrite prefix_empty in Hx.
Qed.

Lemma append_cancel_l (a x y : string) : (a ++ x = a ++ y)%string -> x = y.
Proof.
  induction a as [| c a IH]; simpl; [trivial |]. intros [= H]. auto.
Qed.

Lemma other_message (paramName x y : string) :
  x <> y ->
  @inl string unit ("Invalid " ++ paramName ++ x) <> inl ("Invalid " ++ paramName ++ y).
Proof.
  intros Hne [= H]. apply append_cancel_l in H. contradiction.
Qed.

(** X10: the three copies of the validator (labels in switch.ts and
    build.ts, user input in clean.ts, repository names in build.ts)
    accept the same strings; none of them can give its "absolute path"
    error, an absolute path being refused for its [/] first; and what
    they accept is one path segment: not empty, without [/] or [\]. *)
Theorem validators_agree (s paramName : string) :
  (validateNoPathTraversal s paramName = inr tt <-> validateLabel s = inr tt)
  /\ (BuildQueries.validateRepoName s = inr tt <-> validateLabel s = inr tt)
  /\ validateLabel s <> inl "Invalid label: cannot be an absolute path"
  /\ validateNoPathTraversal s paramName
     <> inl ("Invalid " ++ paramName ++ ": cannot be an absolute path")
  /\ (validateLabel s = inr tt ->
      s <> "" /\ Path.isAbsolute s = false
      /\ ~ In "/"%char (list_ascii_of_string s)
      /\ ~ In (ascii_of_nat 92) (list_ascii_of_string s)).
Proof.
  unfold validateNoPathTraversal, validateLabel, BuildQueries.validateRepoName.
  destruct (Js.includes s "..") eqn:Hdots; cbn [orb];
    [repeat split; try discriminate; apply other_message; discriminate |].
  destruct (Js.includes s "/") eqn:Hslash; cbn [orb];
    [repeat split; try discriminate; apply other_message; discriminate |].
  destruct (Js.includes s backslash) eqn:Hback;
    [repeat split; try discriminate; apply other_message; discriminate |].
  assert (Path.isAbsolute s = false) as Habs.
  { destruct (Path.isAbsolute s) eqn:E; [| reflexivity].
    apply absolute_includes_slash in E. congruence. }
  rewrite Habs.
  destruct (negb (Js.truthy s) || (String.length (Js.trim s) =? 0)%nat) eqn:Hempty;
    [repeat split; try discriminate; apply other_message; discriminate |].
  repeat split; try discriminate; try reflexivity.
  - intros ->. discriminate.
  - now apply includes_char.
  - now apply includes_char.
Qed.

(* ================================================================== *)
(** * The queries and the kills of the build registry *)
(* ================================================================== *)

Section RegistryFacts.

Import Build BuildFacts.

Lemma prefix_cons (a b : ascii) (p s : string) :
  String.prefix (String a p) (String b s)
  = if ascii_dec a b then String.prefix p s else false.
Proof. reflexivity. Qed.

Lemma no_colon_prefix (x s : string) :
  hasChar [":"%char] s = false -> String.prefix (x ++ ":") s = false.
Proof.
  revert s. induction x as [| c x IH]; intros [| d s]; try reflexivity;
    cbn [append hasChar existsb]; rewrite prefix_cons; intros H;
    apply orb_false_iff in H as [Hd H].
  - destruct (ascii_dec ":" d) as [<- |]; [discriminate | reflexivity].
  - destruct (ascii_dec c d); [now apply IH | reflexivity].
Qed.

Lemma typeName_no_colon (ty : BuildType) : hasChar [":"%char] (typeName ty) = false.
Proof. now destruct ty. Qed.

(** A key starts with a label and a colon when it is a key of that
    label, or of a label that itself starts with that label and a
    colon. *)
Lemma key_prefix (lbl l' : string) (ty : BuildType) :
  Js.startsWith (getBuildKey l' (typeName ty)) (lbl ++ ":") = true
  <-> l' = lbl \/ Js.startsWith l' (lbl ++ ":") = true.
Proof.
  unfold Js.startsWith, getBuildKey.
  revert l'. induction lbl as [| a lbl IH]; intros [| c l']; cbn [append];
    rewrite ?prefix_cons.
  - rewrite prefix_empty. split; [now left | reflexivity].
  - destruct (ascii_dec ":" c).
    + rewrite !prefix_empty. split; [now right | reflexivity].
    + split; [discriminate | intros [H | H]; discriminate].
  - destruct (ascii_dec a ":").
    + rewrite no_colon_prefix by apply typeName_no_colon.
      split; [discriminate | intros [H | H]; discriminate].
    + split; [discriminate | intros [H | H]; discriminate].
  - destruct (ascii_dec a c) as [<- | Hne].
    + rewrite IH. split; (intros [H | H]; [left | now right]); congruence.
    + split; [discriminate | intros [H | H]; [congruence | discriminate]].
Qed.

Lemma find_filter_one (k : string) (m : Registry) (e : string * ActiveBuild) :
  NoDup (map fst m) ->
  find (fun e => String.eqb (fst e) k) m = Some e ->
  filter (fun e => String.eqb (fst e) k) m = [e].
Proof.
  induction m as [| x m IH]; simpl; [discriminate |].
  intros Hnd. inversion Hnd as [| ? ? Hnotin Hnd']; subst.
  destruct (String.eqb (fst x) k) eqn:E.
  - intros [= ->]. f_equal. apply String.eqb_eq in E. subst k.
    clear IH Hnd Hnd'. induction m as [| y m IH]; simpl; [reflexivity |].
    destruct (String.eqb (fst y) (fst e)) eqn:E.
    + exfalso. apply Hnotin. left. now apply String.eqb_eq.
    + apply IH. intros Hin. apply Hnotin. now right.
  - now apply IH.
Qed.

Lemma find_filter_none {A} (f : A -> bool) (l : list A) :
  find f l = None -> filter f l = [].
Proof.
  induction l as [| x l IH]; simpl; [reflexivity |].
  destruct (f x); [discriminate | exact IH].
Qed.

(** The builds of a pair, read through the key of the pair. *)
Lemma activeFor_get (lbl : string) (ty : BuildType) (t : Tracker) :
  wellFormed t ->
  activeFor lbl ty t
  = match get (getBuildKey lbl (typeName ty)) (activeBuilds t) with
    | Some b => [(getBuildKey lbl (typeName ty), b)]
    | None => []
    end.
Proof.
  intros Hwf. rewrite (activeFor_by_key lbl ty t Hwf). unfold get.
  destruct (find _ (activeBuilds t)) as [e |] eqn:E.
  - rewrite (find_filter_one _ _ e (proj1 Hwf) E).
    apply find_some in E as [_ E]. apply String.eqb_eq in E.
    destruct e as [k b]. simpl in *. now subst k.
  - now apply find_filter_none.
Qed.

Lemma activeFor_invalid (lbl : string) (ty : BuildType) (t : Tracker) :
  wellFormed t -> validateLabel lbl <> inr tt -> activeFor lbl ty t = [].
Proof.
  intros [_ Hall] Hbad. unfold activeFor.
  apply filter_none. intros e He.
  rewrite Forall_forall in Hall. destruct (Hall e He) as (_ & Hv & _).
  destruct (String.eqb (label (snd e)) lbl) eqn:E; [| reflexivity].
  apply String.eqb_eq in E. congruence.
Qed.

Lemma validateLabel_cases (lbl : string) :
  validateLabel lbl = inr tt \/ exists msg, validateLabel lbl = inl msg.
Proof. destruct (validateLabel lbl) as [msg | []]; [right; now exists msg | now left]. Qed.

Lemma wellFormed_entry (t : Tracker) (e : string * ActiveBuild) :
  wellFormed t -> In e (activeBuilds t) ->
  fst e = getBuildKey (label (snd e)) (typeName (type (snd e)))
  /\ validateLabel (label (snd e)) = inr tt.
Proof.
  intros [_ Hall] He. rewrite Forall_forall in Hall.
  destruct (Hall e He) as (Hk & Hv & _). now split.
Qed.

Lemma existsb_find {A} (f : A -> bool) (l : list A) :
  existsb f l = match find f l with Some _ => true | None => false end.
Proof.
  induction l as [| x l IH]; simpl; [reflexivity |]. now destruct (f x).
Qed.

Lemma has_prefix (lbl : string) (ty : BuildType) (m : Registry) :
  has (getBuildKey lbl (typeName ty)) m = true ->
  existsb (fun e => Js.startsWith (fst e) (lbl ++ ":")) m = true.
Proof.
  unfold has. rewrite !existsb_exists. intros [e [He Hk]].
  exists e. split; [assumption |]. apply String.eqb_eq in Hk. rewrite Hk.
  apply key_prefix. now left.
Qed.

Lemma typeName_truthy (ty : BuildType) : Js.truthy (typeName ty) = true.
Proof. now destruct ty. Qed.

(** X11: on every state the registry reaches, [isBuildInProgress] with
    a type is true exactly when the one build of the pair is active;
    without a type it is true exactly when a build is active whose label
    is the one asked for, or starts with it and a colon (so the builds
    of the label [a:b] answer for the label [a]); [getActiveBuildInfo]
    gives a build exactly then; and where [getBuildOutput] has output,
    [isBuildInProgress] with the same arguments is true. *)
Theorem build_queries_match_registry
        (es : list Event) (lbl : string) (ty : BuildType) (now : nat) :
  let t := run empty es in
  (isBuildInProgress lbl (Some (typeName ty)) t = true
   <-> length (activeFor lbl ty t) = 1)
  /\ (isBuildInProgress lbl None t = true
      <-> validateLabel lbl = inr tt
          /\ exists e, In e (activeBuilds t)
                       /\ (label (snd e) = lbl
                           \/ Js.startsWith (label (snd e)) (lbl ++ ":") = true))
  /\ (BuildQueries.getActiveBuildInfo lbl now t <> None
      <-> isBuildInProgress lbl None t = true)
  /\ (isBuildInProgress lbl (Some (typeName ty)) t = true ->
      isBuildInProgress lbl None t = true)
  /\ (forall ty', getBuildOutput lbl ty' t <> [] ->
                  isBuildInProgress lbl ty' t = true).
Proof.
  intros t.
  assert (wellFormed t) as Hwf by (apply wellFormed_run, wellFormed_empty).
  unfold isBuildInProgress, BuildQueries.getActiveBuildInfo, getBuildOutput,
    firstForLabel.
  rewrite typeName_truthy.
  destruct (validateLabel lbl) as [msg | []] eqn:Hv.
  - rewrite (activeFor_invalid lbl ty t Hwf) by congruence.
    repeat split; try discriminate; try (intros [H _]; discriminate H);
      try (intros H; now contradiction H).
    intros _ H. now contradiction H.
  - rewrite (activeFor_get lbl ty t Hwf), get_has.
    split; [| split; [| split; [| split]]].
    + destruct (get _ _); simpl; split; congruence.
    + rewrite existsb_exists. split.
      * intros [e [He Hp]]. split; [reflexivity |]. exists e. split; [assumption |].
        destruct (wellFormed_entry t e Hwf He) as [Hk _]. rewrite Hk in Hp.
        now apply key_prefix in Hp.
      * intros [_ [e [He Hl]]]. exists e. split; [assumption |].
        destruct (wellFormed_entry t e Hwf He) as [Hk _]. rewrite Hk.
        now apply key_prefix.
    + rewrite existsb_find. destruct (find _ _); split; congruence.
    + rewrite <- get_has. apply has_prefix.
    + intros [ty' |].
      * destruct (Js.truthy ty').
        -- rewrite get_has. destruct (get _ _); congruence.
        -- rewrite existsb_find. destruct (find _ _); congruence.
      * rewrite existsb_find. destruct (find _ _); congruence.
Qed.

Lemma filter_other_key (k k' : string) (m : Registry) :
  k' <> k ->
  filter (fun e => String.eqb (fst e) k') (delete k m)
  = filter (fun e => String.eqb (fst e) k') m.
Proof.
  intros Hne. unfold delete. induction m as [| e m IH]; simpl; [reflexivity |].
  destruct (String.eqb (fst e) k) eqn:Ek; simpl.
  - apply String.eqb_eq in Ek.
    destruct (String.eqb (fst e) k') eqn:Ek'; [| exact IH].
    apply String.eqb_eq in Ek'. congruence.
  - destruct (String.eqb (fst e) k'); [f_equal |]; exact IH.
Qed.

(** X12: [killBuild] answers whether the build of the pair was active;
    it then removes that build and no other and signals its process and
    no other; when it answers false nothing has changed. *)
Theorem killBuild_removes_that_build
        (es : list Event) (lbl : string) (ty : BuildType) :
  let t := run empty es in
  let r := killBuild lbl (typeName ty) t in
  fst r = isBuildInProgress lbl (Some (typeName ty)) t
  /\ activeFor lbl ty (snd r) = []
  /\ (forall lbl' ty', (lbl', ty') <> (lbl, ty) ->
                       activeFor lbl' ty' (snd r) = activeFor lbl' ty' t)
  /\ killed (snd r)
     = (killed t ++ map (fun e => process (snd e)) (activeFor lbl ty t))%list
  /\ (fst r = false -> snd r = t).
Proof.
  intros t r.
  assert (wellFormed t) as Hwf by (apply wellFormed_run, wellFormed_empty).
  assert (wellFormed (snd r)) as Hwf'
      by (apply (wellFormed_step t (Kill lbl (typeName ty))), Hwf).
  rewrite (activeFor_get lbl ty (snd r) Hwf'), (activeFor_get lbl ty t Hwf).
  subst r. unfold killBuild, isBuildInProgress in *. rewrite typeName_truthy.
  destruct (validateLabel lbl) as [msg | []] eqn:Hv; cbn [fst snd] in *.
  - pose proof (activeFor_invalid lbl ty t Hwf) as Hnone.
    rewrite (activeFor_get lbl ty t Hwf) in Hnone.
    rewrite Hnone by congruence. rewrite app_nil_r. repeat split; auto.
  - rewrite get_has.
    destruct (get (getBuildKey lbl (typeName ty)) (activeBuilds t)) as [b |] eqn:Hget;
      cbn [fst snd activeBuilds killed map] in *.
    + rewrite get_delete. repeat split; try discriminate.
      intros lbl' ty' Hne.
      rewrite (activeFor_by_key lbl' ty' _ Hwf'), (activeFor_by_key lbl' ty' t Hwf).
      apply filter_other_key. intros Hk. apply getBuildKey_inj in Hk as [-> ->].
      now apply Hne.
    + rewrite Hget, app_nil_r. repeat split; auto.
Qed.

Lemma count_by_type (lbl : string) (m : Registry) :
  length (filter (fun e => String.eqb (label (snd e)) lbl) m)
  = length (filter (fun e => String.eqb (label (snd e)) lbl
                             && typeEqb (type (snd e)) pod_install) m)
    + length (filter (fun e => String.eqb (label (snd e)) lbl
                               && typeEqb (type (snd e)) build_infra_ios) m)
    + length (filter (fun e => String.eqb (label (snd e)) lbl
                               && typeEqb (type (snd e)) build_ios) m)
    + length (filter (fun e => String.eqb (label (snd e)) lbl
                               && typeEqb (type (snd e)) build_android) m).
Proof.
  induction m as [| e m IH]; simpl; [reflexivity |].
  destruct (String.eqb (label (snd e)) lbl); simpl; [| exact IH].
  destruct (type (snd e)); simpl; lia.
Qed.

Lemma activeFor_at_most_one (lbl : string) (ty : BuildType) (t : Tracker) :
  wellFormed t -> length (activeFor lbl ty t) <= 1.
Proof.
  intros Hwf. rewrite (activeFor_by_key lbl ty t Hwf).
  apply NoDup_one_entry, Hwf.
Qed.

(** X13: [killAllBuildsForLabel] returns the number of active builds
    of the label, at most one per build type and so at most four; it
    removes these builds and leaves those of every other label, and it
    signals the processes of the builds it removes and no other. *)
Theorem killAllBuildsForLabel_removes_the_label (es : list Event) (lbl : string) :
  let t := run empty es in
  let r := killAllBuildsForLabel lbl t in
  fst r = length (activeFor lbl pod_install t)
          + length (activeFor lbl build_infra_ios t)
          + length (activeFor lbl build_ios t)
          + length (activeFor lbl build_android t)
  /\ fst r <= 4
  /\ (forall ty, activeFor lbl ty (snd r) = [])
  /\ (forall lbl' ty, lbl' <> lbl ->
                      activeFor lbl' ty (snd r) = activeFor lbl' ty t)
  /\ length (killed (snd r)) = length (killed t) + fst r
  /\ (forall p, In p (killed (snd r))
                <-> In p (killed t)
                    \/ exists e, In e (activeBuilds t)
                                 /\ label (snd e) = lbl /\ process (snd e) = p).
Proof.
  intros t r.
  assert (wellFormed t) as Hwf by (apply wellFormed_run, wellFormed_empty).
  assert (fst r = length (activeFor lbl pod_install t)
                  + length (activeFor lbl build_infra_ios t)
                  + length (activeFor lbl build_ios t)
                  + length (activeFor lbl build_android t)) as Hcount.
  { subst r. unfold killAllBuildsForLabel.
    destruct (validateLabel lbl) as [msg | []] eqn:Hv; cbn [fst].
    - now rewrite !(activeFor_invalid lbl _ t Hwf) by congruence.
    - apply count_by_type. }
  split; [exact Hcount |]. split.
  { rewrite Hcount.
    pose proof (activeFor_at_most_one lbl pod_install t Hwf).
    pose proof (activeFor_at_most_one lbl build_infra_ios t Hwf).
    pose proof (activeFor_at_most_one lbl build_ios t Hwf).
    pose proof (activeFor_at_most_one lbl build_android t Hwf). lia. }
  clear Hcount. subst r. unfold killAllBuildsForLabel.
  destruct (validateLabel lbl) as [msg | []] eqn:Hv; cbn [fst snd killed activeBuilds].
  - split; [intros ty; apply activeFor_invalid; [assumption | congruence] |].
    split; [reflexivity |]. split; [lia |].
    intros p. split; [now left |]. intros [H | [e (He & Hl & _)]]; [assumption |].
    destruct (wellFormed_entry t e Hwf He) as [_ Hvalid]. congruence.
  - split; [| split; [| split]].
    + intros ty. unfold activeFor. cbn [activeBuilds].
      apply filter_none. intros e He. apply filter_In in He as [_ He].
      apply negb_true_iff in He. now rewrite He.
    + intros lbl' ty Hne. unfold activeFor. cbn [activeBuilds].
      induction (activeBuilds t) as [| e m IH]; simpl; [reflexivity |].
      destruct (String.eqb (label (snd e)) lbl) eqn:E; simpl.
      * apply String.eqb_eq in E.
        destruct (String.eqb (label (snd e)) lbl') eqn:E'; simpl; [| exact IH].
        apply String.eqb_eq in E'. congruence.
      * rewrite IH. reflexivity.
    + rewrite length_app, length_map. reflexivity.
    + intros p. rewrite in_app_iff, in_map_iff. split.
      * intros [H | [e [Hp He]]]; [now left |]. right. exists e.
        apply filter_In in He as [He Hl]. apply String.eqb_eq in Hl. auto.
      * intros [H | [e (He & Hl & Hp)]]; [now left |]. right. exists e.
        split; [assumption |]. apply filter_In. split; [assumption |].
        now apply String.eqb_eq.
Qed.

End RegistryFacts.

(* ================================================================== *)
(** * The progress estimates *)
(* ================================================================== *)

Section ProgressFacts.

Import Build BuildQueries.

Ltac by_marks :=
  repeat match goal with
         | |- context [if ?c then _ else _] => destruct c eqn:?
         end.

(** X14: every estimate of progress is between 5 and 100; 100 is given
    only by the two gradle builds, and exactly when the chunk holds
    [BUILD SUCCESSFUL]; the estimates of pod install and of xcodebuild
    stay between 10 and 80. *)
Theorem progress_estimates_in_range (ty : BuildType) (text : string) :
  5 <= estimateProgress ty text <= 100
  /\ (estimateProgress ty text = 100
      <-> (ty = build_infra_ios \/ ty = build_android)
          /\ Js.includes text "BUILD SUCCESSFUL" = true)
  /\ (ty = pod_install \/ ty = build_ios -> 10 <= estimateProgress ty text <= 80).
Proof.
  destruct ty; cbn [estimateProgress];
    unfold podInstallProgress, infraProgress, iosProgress, androidProgress;
    cbv zeta; by_marks;
    (split; [lia |]);
    (split; [split; [intros H; try discriminate H; try lia; (split; [auto | congruence])
                    | intros [[H | H] H']; try discriminate H; congruence] |]);
    try (intros _; lia); intros [H | H]; discriminate H.
Qed.

End ProgressFacts.

(* ================================================================== *)
(** * The pre-conditions of a build *)
(* ================================================================== *)

Section ReadinessFacts.

Variable checkIOSPreConditions :
  string -> string -> string -> Fs.disk -> Build.Tracker -> list Pre.BuildPreCondition.

(** X15: [checkBuildPreConditions] always gives at least one condition,
    and reports ready exactly when none of its conditions has failed.
    For Android it is ready exactly when the label and the repository
    name are valid and the worktree of the repository, that of
    [project.mobile.infra], the [build/outputs] of the latter and the
    [gradlew] of the former are all there; its conditions then have
    distinct ids, and none is a warning. *)
Theorem build_ready_iff_nothing_failed
        (config : EtzConfig) (options : Pre.BuildOptions) (d : Fs.disk)
        (t : Build.Tracker) :
  let r := Pre.checkBuildPreConditions checkIOSPreConditions config options d t in
  let worktreeDir := Path.join [worktrees_dir config; Pre.label options] in
  let repoPath := Path.join [worktreeDir; Pre.repo options] in
  let infraPath := Path.join [worktreeDir; "project.mobile.infra"] in
  Pre.conditions r <> []
  /\ (Pre.ready r = true
      <-> Forall (fun c => Pre.status c <> Pre.fail) (Pre.conditions r))
  /\ (Pre.ready r = true ->
      validateLabel (Pre.label options) = inr tt
      /\ BuildQueries.validateRepoName (Pre.repo options) = inr tt
      /\ Fs.existsSync d repoPath = true)
  /\ (Pre.platform options = Pre.android ->
      (Pre.ready r = true
       <-> validateLabel (Pre.label options) = inr tt
           /\ BuildQueries.validateRepoName (Pre.repo options) = inr tt
           /\ Fs.existsSync d repoPath = true
           /\ Fs.existsSync d infraPath = true
           /\ Fs.existsSync d (Path.join [infraPath; "build"; "outputs"]) = true
           /\ Fs.existsSync d (Path.join [repoPath; "gradlew"]) = true)
      /\ NoDup (map Pre.id (Pre.conditions r))
      /\ Forall (fun c => Pre.status c <> Pre.warning) (Pre.conditions r)).
Proof.
  intros r worktreeDir repoPath infraPath.
  assert (Pre.ready r = negb (existsb Pre.isFail (Pre.conditions r))) as Hready.
  { subst r. unfold Pre.checkBuildPreConditions.
    destruct (validateLabel (Pre.label options)) as [msg | []];
      [reflexivity |].
    destruct (BuildQueries.validateRepoName (Pre.repo options)) as [msg | []];
      [reflexivity |].
    cbv zeta. now destruct (Fs.existsSync d _). }
  split; [| split; [| split]].
  - subst r. unfold Pre.checkBuildPreConditions.
    destruct (validateLabel (Pre.label options)) as [msg | []]; [discriminate |].
    destruct (BuildQueries.validateRepoName (Pre.repo options)) as [msg | []];
      [discriminate |].
    cbv zeta. destruct (Fs.existsSync d _); discriminate.
  - rewrite Hready, negb_true_iff, Forall_forall. split.
    + intros Hnone c Hc Hfail.
      assert (existsb Pre.isFail (Pre.conditions r) = true) as Hsome.
      { apply existsb_exists. exists c. split; [assumption |].
        unfold Pre.isFail. now rewrite Hfail. }
      congruence.
    + intros Hall. destruct (existsb Pre.isFail (Pre.conditions r)) eqn:E;
        [| reflexivity].
      apply existsb_exists in E as [c [Hc Hfail]]. exfalso. apply (Hall c Hc).
      unfold Pre.isFail in Hfail. now destruct (Pre.status c).
  - subst r. unfold Pre.checkBuildPreConditions.
    destruct (validateLabel (Pre.label options)) as [msg | []]; [discriminate |].
    destruct (BuildQueries.validateRepoName (Pre.repo options)) as [msg | []];
      [discriminate |].
    cbv zeta. fold worktreeDir. fold repoPath.
    destruct (Fs.existsSync d repoPath); [auto | discriminate].
  - intros Handroid. subst r. unfold Pre.checkBuildPreConditions.
    rewrite Handroid.
    destruct (validateLabel (Pre.label options)) as [msg | []];
      [cbn; repeat split; try (intros H; now decompose [and] H);
       repeat constructor; simpl; intuition discriminate |].
    destruct (BuildQueries.validateRepoName (Pre.repo options)) as [msg | []];
      [cbn; repeat split; try (intros H; now decompose [and] H);
       repeat constructor; simpl; intuition discriminate |].
    cbv zeta. fold worktreeDir. fold repoPath. fold infraPath.
    unfold Pre.checkAndroidPreConditions.
    destruct (Fs.existsSync d repoPath);
      [| cbn; repeat split; try (intros H; now decompose [and] H);
         repeat constructor; simpl; intuition discriminate].
    destruct (Fs.existsSync d infraPath);
      destruct (Fs.existsSync d (Path.join [infraPath; "build"; "outputs"]));
      destruct (Fs.existsSync d (Path.join [repoPath; "gradlew"]));
      cbn; repeat split; try (intros H; now decompose [and] H);
      repeat constructor; simpl; intuition discriminate.
Qed.

End ReadinessFacts.

(* ================================================================== *)
(** * The branch mappings of the command line *)
(* ================================================================== *)

Lemma lookup_assign_same (m : StringMap) (k v : string) :
  k <> "__proto__" -> lookupKey (Cli.assign m k v) k = Some v.
Proof.
  intros Hk. unfold Cli.assign, lookupKey.
  apply String.eqb_neq in Hk. rewrite Hk.
  destruct (existsb _ m) eqn:E.
  - induction m as [| e m IH]; simpl in *; [discriminate |].
    destruct (String.eqb (fst e) k) eqn:Ee; simpl.
    + now rewrite String.eqb_refl.
    + rewrite Ee. apply IH. exact E.
  - induction m as [| e m IH]; simpl in *; [now rewrite String.eqb_refl |].
    apply orb_false_iff in E as [Ee E]. rewrite Ee. now apply IH.
Qed.

Lemma lookup_assign_other (m : StringMap) (k k' v : string) :
  k' <> k -> lookupKey (Cli.assign m k v) k' = lookupKey m k'.
Proof.
  intros Hne. unfold Cli.assign, lookupKey.
  destruct (String.eqb k "__proto__"); [reflexivity |].
  assert (String.eqb k k' = false) as Hkk by (apply String.eqb_neq; congruence).
  destruct (existsb _ m).
  - induction m as [| e m IH]; simpl; [reflexivity |].
    destruct (String.eqb (fst e) k) eqn:Ee; simpl.
    + rewrite Hkk. apply String.eqb_eq in Ee. rewrite Ee, Hkk. exact IH.
    + destruct (String.eqb (fst e) k'); [reflexivity | exact IH].
  - induction m as [| e m IH]; simpl; [now rewrite Hkk |].
    destruct (String.eqb (fst e) k'); [reflexivity | exact IH].
Qed.

(** The mapping after the name of the repository. *)
Lemma addMapping_repo (m : StringMap) (repo tail : string) :
  Js.truthy repo = true -> hasChar [":"%char] repo = false ->
  Cli.addMapping m (repo ++ String ":" tail)
  = match present (hd_error (Js.split ":" tail)) with
    | Some branch => inr (Cli.assign m repo branch)
    | None => inl ("Invalid branch mapping: " ++ (repo ++ String ":" tail)
                   ++ ". Use format " ++ Cli.quote ++ "repo:branch" ++ Cli.quote)
    end.
Proof.
  intros Hrepo Hcr. unfold Cli.addMapping.
  rewrite (split_app ":" repo tail Hcr).
  unfold Cli.item. cbn [nth_error present]. rewrite Hrepo.
  destruct (Js.split ":" tail) as [| b rest]; reflexivity.
Qed.

(** X16: a mapping [repo:branch] of the command line, both parts
    present and without a colon, is entered as the branch of that
    repository, which create then uses for it whatever the default, the
    entries of the other repositories staying as they were; what follows
    a second colon is dropped; and a mapping without a colon, or with
    nothing before or after it, is refused with the usage message. *)
Theorem cli_branch_mapping_sets_branch (m : StringMap) :
  (forall repo branch : string,
      Js.truthy repo = true -> hasChar [":"%char] repo = false ->
      Js.truthy branch = true -> hasChar [":"%char] branch = false ->
      repo <> "__proto__" ->
      Cli.addMapping m (repo ++ ":" ++ branch) = inr (Cli.assign m repo branch)
      /\ (forall rest,
             Cli.addMapping m (repo ++ ":" ++ branch ++ ":" ++ rest)
             = inr (Cli.assign m repo branch))
      /\ (forall (options : Sw.SwitchOptions) (r : RepoConfig),
             Sw.branchMap options = Some (Cli.assign m repo branch) ->
             name r = repo -> resolveBranch options r = Some branch)
      /\ (forall k, k <> repo ->
                    lookupKey (Cli.assign m repo branch) k = lookupKey m k))
  /\ (forall mapping : string,
         hasChar [":"%char] mapping = false
         \/ Js.startsWith mapping ":" = true
         \/ (exists repo, hasChar [":"%char] repo = false /\ mapping = repo ++ ":") ->
         Cli.addMapping m mapping
         = inl ("Invalid branch mapping: " ++ mapping ++ ". Use format "
                ++ Cli.quote ++ "repo:branch" ++ Cli.quote)).
Proof.
  split.
  - intros repo branch Hrepo Hcr Hbranch Hcb Hproto.
    split; [| split; [| split]].
    + change (repo ++ ":" ++ branch) with (repo ++ String ":" branch).
      rewrite (addMapping_repo m repo branch Hrepo Hcr), (split_one ":" branch Hcb).
      cbn [hd_error present]. now rewrite Hbranch.
    + intros rest.
      change (repo ++ ":" ++ branch ++ ":" ++ rest)
        with (repo ++ String ":" (branch ++ String ":" rest)).
      rewrite (addMapping_repo m repo _ Hrepo Hcr), (split_app ":" branch rest Hcb).
      cbn [hd_error present]. now rewrite Hbranch.
    + intros options r Hmap <-. unfold resolveBranch. rewrite Hmap.
      rewrite (lookup_assign_same m (name r) branch Hproto).
      cbn [present]. now rewrite Hbranch.
    + intros k Hk. now apply lookup_assign_other.
  - intros mapping [Hnone | [Hfirst | [repo [Hcr ->]]]]; unfold Cli.addMapping.
    + rewrite (split_one ":" mapping Hnone). unfold Cli.item. cbn [nth_error present].
      now destruct (Js.truthy mapping).
    + destruct mapping as [| c rest]; [discriminate |].
      unfold Js.startsWith in Hfirst. rewrite prefix_cons in Hfirst.
      destruct (ascii_dec ":" c) as [<- |]; [| discriminate].
      cbn [Js.split]. rewrite Ascii.eqb_refl.
      unfold Cli.item. cbn [nth_error present Js.truthy]. reflexivity.
    + change (repo ++ ":") with (repo ++ String ":" "").
      rewrite (split_app ":" repo "" Hcr). cbn [Js.split].
      unfold Cli.item. cbn [nth_error present Js.truthy].
      now destruct (Js.truthy repo).
Qed.

(* ================================================================== *)
(** * The engines and the registry of builds *)
(* ================================================================== *)

Section BuildsFrame.

Context {G : Type}.
Variable git : Git G.
Variable homedir : string.

Lemma keeps_ret {A} (a : A) : keepsBuilds (@ret G A a).
Proof. intros w. reflexivity. Qed.

Lemma keeps_bind {A B} (m : M G A) (k : A -> M G B) :
  keepsBuilds m -> (forall a, keepsBuilds (k a)) -> keepsBuilds (bind m k).
Proof.
  intros Hm Hk w. unfold bind. specialize (Hm w).
  destruct (m w) as [a w1]. simpl in Hm. rewrite <- Hm. apply Hk.
Qed.

Lemma keeps_andThen {A B} (m : M G (Throws A)) (k : A -> M G (Throws B)) :
  keepsBuilds m -> (forall a, keepsBuilds (k a)) -> keepsBuilds (andThen m k).
Proof.
  intros Hm Hk. apply keeps_bind; [assumption |].
  intros [e | a]; [apply keeps_ret | apply Hk].
Qed.

Lemma keeps_readDisk {A} (f : Fs.disk -> A) : keepsBuilds (@readDisk G A f).
Proof. intros w. reflexivity. Qed.

Lemma keeps_writeDisk (f : Fs.disk -> Fs.disk) : keepsBuilds (@writeDisk G f).
Proof. intros w. reflexivity. Qed.

Lemma keeps_exec (repoPath : string) (c : GitCmd) : keepsBuilds (exec git repoPath c).
Proof.
  intros w. unfold exec.
  now destruct (git _ (gitState w) (disk w)) as [[reply g] d].
Qed.

Lemma keeps_cleanIOSDerivedData (worktreePath : string) (dryRun : bool) :
  keepsBuilds (cleanIOSDerivedData (G := G) homedir worktreePath dryRun).
Proof.
  intros w. unfold cleanIOSDerivedData.
  repeat match goal with
         | |- context [match ?x with _ => _ end] => destruct x; try reflexivity
         end.
Qed.

(** The operations are made of the steps above: [apply] unfolds them as
    far as it needs to. *)
Ltac keeps :=
  repeat first
    [ apply keeps_ret | apply keeps_readDisk | apply keeps_writeDisk
    | apply keeps_exec | apply keeps_cleanIOSDerivedData
    | apply keeps_bind; [| intros ?]
    | apply keeps_andThen; [| intros ?]
    | progress cbv zeta
    | match goal with
      | |- keepsBuilds (if ?c then _ else _) => destruct c
      | |- keepsBuilds (match ?x with _ => _ end) => destruct x
      end ].

Lemma keeps_forEachRepo {R} (body : RepoConfig -> M G (option R))
      (rs : list RepoConfig) :
  (forall r, keepsBuilds (body r)) -> keepsBuilds (forEachRepo body rs).
Proof.
  intros Hbody. induction rs as [| r rs IH]; simpl; keeps; auto.
Qed.

Lemma keeps_switchToWorktree (config : EtzConfig) (options : Sw.SwitchOptions) :
  keepsBuilds (switchToWorktree git config options).
Proof.
  unfold switchToWorktree.
  destruct (match present (Sw.label options) with
            | Some l => validateLabel l
            | None => inr tt
            end); [apply keeps_ret |].
  apply keeps_forEachRepo. intros r. unfold switchRepo. keeps.
Qed.

Lemma keeps_cleanWorktree (repoName baseRepoPath worktreePath : string)
      (force dryRun deleteBranches : bool) :
  keepsBuilds (cleanWorktree git homedir repoName baseRepoPath worktreePath
                             force dryRun deleteBranches).
Proof. unfold cleanWorktree. keeps. Qed.

Lemma validators_same (s : string) :
  validateNoPathTraversal s "label" = inr tt <-> validateLabel s = inr tt.
Proof.
  unfold validateNoPathTraversal, validateLabel.
  repeat match goal with
         | |- context [if ?c then _ else _] => destruct c
         end; split; congruence.
Qed.

(** X19: create never touches the registry of builds.  Clean leaves in
    it exactly what [killAllBuildsForLabel] leaves for its label: the
    builds of the label are killed in every run that passes the check of
    the label, even in a dry run, for a single repository, or when the
    label folder is missing, and nothing else in clean changes the
    registry. *)
Theorem clean_kills_builds_of_label
        (config : EtzConfig) (w : World G) :
  (forall options : Sw.SwitchOptions,
      builds (snd (switchToWorktree git config options w)) = builds w)
  /\ (forall options : Cl.CleanOptions,
         builds (snd (clean git homedir config options w))
         = snd (Build.killAllBuildsForLabel (Cl.label options) (builds w))).
Proof.
  split; [intros options; apply keeps_switchToWorktree |].
  intros options. unfold clean.
  destruct (validateNoPathTraversal (Cl.label options) "label") as [msg | []] eqn:Hv.
  - unfold Build.killAllBuildsForLabel.
    destruct (validateLabel (Cl.label options)) as [msg' | []] eqn:Hv';
      [reflexivity |].
    apply validators_same in Hv'. congruence.
  - unfold bind at 1. unfold onBuilds.
    destruct (Build.killAllBuildsForLabel (Cl.label options) (builds w)) as [n t].
    match goal with
    | |- builds (snd (?m ?w1)) = _ =>
        assert (keepsBuilds m) as Hkeep; [| exact (Hkeep w1)]
    end.
    unfold removeEmptyLabelFolder. keeps.
    all: apply keeps_forEachRepo; intros r; keeps; apply keeps_cleanWorktree.
Qed.

End BuildsFrame.

(* ================================================================== *)
(** * A root of the worktrees written with a slash at its end *)
(* ================================================================== *)

Lemma split_sep_app (sep : ascii) (a b : string) :
  Js.split sep (a ++ String sep b) = (Js.split sep a ++ Js.split sep b)%list.
Proof.
  induction a as [| c a IH]; cbn [append Js.split].
  - now rewrite Ascii.eqb_refl.
  - rewrite IH. destruct (Ascii.eqb c sep); [reflexivity |].
    destruct (Js.split sep a) as [| piece pieces] eqn:E;
      [now apply split_not_empty in E | reflexivity].
Qed.

Lemma prefix_app_exists (p s : string) :
  String.prefix p s = true -> exists r, s = p ++ r.
Proof.
  revert s. induction p as [| a p IH]; intros s; [now exists s |].
  destruct s as [| b s]; [discriminate |]. rewrite prefix_cons.
  destruct (ascii_dec a b) as [<- |]; [| discriminate].
  intros H. destruct (IH s H) as [r ->]. now exists r.
Qed.

Lemma interior_inner_empty (A B : list string) :
  A <> [] -> B <> [] -> In "" (interior (A ++ "" :: B)).
Proof.
  intros HA HB. destruct A as [| a A]; [congruence |].
  unfold interior. cbn [tl app].
  rewrite removelast_app by discriminate.
  apply in_or_app. right.
  destruct B as [| b B]; [congruence |]. now left.
Qed.

(** What Node's [normalizeString] keeps: segments that are not empty
    and hold no slash. *)
Lemma pushSegment_keeps (allowAboveRoot : bool) (res : list string) (seg : string) :
  Forall (fun s => s <> "" /\ hasChar ["/"%char] s = false) res ->
  hasChar ["/"%char] seg = false ->
  Forall (fun s => s <> "" /\ hasChar ["/"%char] s = false)
         (Path.pushSegment allowAboveRoot res seg).
Proof.
  intros Hres Hseg. unfold Path.pushSegment.
  destruct (seg =? "")%string eqn:Eempty; [assumption |].
  destruct (seg =? ".")%string; [assumption |]. cbn [orb].
  destruct (seg =? "..")%string.
  - destruct res as [| last before].
    + destruct allowAboveRoot; repeat constructor; discriminate.
    + destruct (last =? "..")%string.
      * destruct allowAboveRoot; [| assumption].
        constructor; [split; [discriminate | reflexivity] | assumption].
      * now inversion Hres.
  - constructor; [| assumption]. split; [| assumption].
    intros ->. discriminate.
Qed.

Lemma normalizeString_segments (allowAboveRoot : bool) (pieces res : list string) :
  Forall (fun s => hasChar ["/"%char] s = false) pieces ->
  Forall (fun s => s <> "" /\ hasChar ["/"%char] s = false) res ->
  Forall (fun s => s <> "" /\ hasChar ["/"%char] s = false)
         (fold_left (Path.pushSegment allowAboveRoot) pieces res).
Proof.
  revert res. induction pieces as [| seg pieces IH]; intros res Hp Hres;
    cbn [fold_left]; [assumption |].
  inversion Hp; subst. apply IH; [assumption |]. now apply pushSegment_keeps.
Qed.

Lemma interior_incl (l : list string) (x : string) : In x (interior l) -> In x l.
Proof.
  unfold interior. destruct l as [| a l]; [tauto |]. cbn [tl]. intros H. right.
  revert H. induction l as [| b l IH]; [tauto |].
  destruct l as [| c l]; [simpl; tauto |].
  intros [-> | H]; [now left | right; now apply IH].
Qed.

(** In a normalized path an empty piece can only come first or last:
    no two slashes follow each other. *)
Lemma normalize_interior (p : string) :
  ~ In "" (interior (Js.split Path.slash (Path.normalize p))).
Proof.
  unfold Path.normalize, Path.normalizeString.
  destruct (p =? "")%string; [vm_compute; tauto |].
  set (segs := rev (fold_left _ _ _)).
  assert (Forall (fun s => s <> "" /\ hasChar ["/"%char] s = false) segs) as Hsegs.
  { apply Forall_rev, normalizeString_segments; [apply split_pieces | constructor]. }
  destruct (Js.join "/" segs =? "")%string eqn:Ebody.
  - destruct (Path.isAbsolute p); [vm_compute; tauto |].
    destruct (Js.endsWith p "/"); vm_compute; tauto.
  - assert (segs <> []) as Hne by (intros E; rewrite E in Ebody; discriminate).
    assert (Js.split Path.slash (Js.join "/" segs) = segs) as Hsplit.
    { apply (split_join Path.slash segs Hne).
      eapply Forall_impl; [| exact Hsegs]. now intros s [_ H]. }
    assert (~ In "" segs) as Hfull.
    { intros Hin. rewrite Forall_forall in Hsegs. now destruct (Hsegs "" Hin). }
    assert (Js.split Path.slash (Js.join "/" segs ++ "/") = (segs ++ [""])%list)
      as Htrail.
    { change (Js.join "/" segs ++ "/") with (Js.join "/" segs ++ String Path.slash "").
      now rewrite split_sep_app, Hsplit. }
    destruct (Js.endsWith p "/"), (Path.isAbsolute p).
    + change ("/" ++ (Js.join "/" segs ++ "/"))
        with ("" ++ String Path.slash (Js.join "/" segs ++ "/")).
      rewrite split_sep_app, Htrail. unfold interior. cbn [Js.split app tl].
      now rewrite removelast_last.
    + rewrite Htrail. destruct segs as [| s segs']; [congruence |].
      unfold interior. cbn [app tl]. rewrite removelast_last.
      intros Hin. apply Hfull. now right.
    + change ("/" ++ Js.join "/" segs) with ("" ++ String Path.slash (Js.join "/" segs)).
      rewrite split_sep_app, Hsplit. unfold interior. cbn [Js.split app tl].
      intros Hin. apply Hfull. clear - Hin.
      induction segs as [| a l IH]; [tauto |].
      destruct l as [| b l]; [simpl in Hin; tauto |].
      destruct Hin as [<- | Hin]; [now left | right; now apply IH].
    + rewrite Hsplit. intros Hin. apply Hfull. now apply interior_incl.
Qed.

Lemma normalize_trailing (p : string) :
  Js.endsWith p "/" = true -> exists q, Path.normalize p = q ++ "/".
Proof.
  intros Htrail. unfold Path.normalize. rewrite Htrail.
  destruct (p =? "")%string eqn:E.
  - apply String.eqb_eq in E. subst p. discriminate Htrail.
  - destruct (Path.normalizeString p _ =? "")%string, (Path.isAbsolute p).
    + now exists "".
    + now exists ".".
    + now exists ("/" ++ Path.normalizeString p false).
    + now exists (Path.normalizeString p true).
Qed.

(** No normalized path starts with a normalized root that ends with a
    slash, followed by the separator. *)
Lemma never_inside_root_with_trailing_slash (root p : string) :
  Js.endsWith root "/" = true ->
  Js.startsWith (Path.normalize p) (Path.normalize root ++ Path.sep) = false.
Proof.
  intros Htrail. destruct (normalize_trailing root Htrail) as [q Hq].
  destruct (Js.startsWith _ _) eqn:E; [| reflexivity]. exfalso.
  apply prefix_app_exists in E as [r Hr].
  apply (normalize_interior p). rewrite Hr, Hq.
  replace (((q ++ "/") ++ Path.sep) ++ r)
    with (q ++ String Path.slash (String Path.slash r))
    by (unfold Path.sep; now rewrite !append_assoc).
  rewrite split_sep_app. cbn [Js.split]. rewrite Ascii.eqb_refl.
  apply interior_inner_empty; apply split_not_empty.
Qed.

Section TrailingSlash.

Context {G : Type}.
Variable git : Git G.
Variable homedir : string.

(** X20: when the root of the worktrees is configured with a slash at
    its end, which [path.normalize] keeps, clean refuses every label: a
    label that passes the validation is stopped by the containment check
    with the security error, since no normalized path holds the two
    slashes the check then looks for; neither the disk nor git is
    touched. *)
Theorem clean_refuses_all_under_root_with_trailing_slash
        (config : EtzConfig) (options : Cl.CleanOptions) (w : World G) :
  Js.endsWith (worktrees_dir config) "/" = true ->
  (exists msg,
      fst (clean git homedir config options w)
      = [{| Cl.repoName := ""; Cl.success := false; Cl.message := msg;
            Cl.status := Cl.error |}]
      /\ (validateNoPathTraversal (Cl.label options) "label" = inr tt ->
          msg = "Security error: path traversal detected"))
  /\ disk (snd (clean git homedir config options w)) = disk w
  /\ gitLog (snd (clean git homedir config options w)) = gitLog w
  /\ gitState (snd (clean git homedir config options w)) = gitState w.
Proof.
  intros Htrail. unfold clean.
  destruct (validateNoPathTraversal (Cl.label options) "label") as [msg | []].
  - split; [exists msg; split; [reflexivity | discriminate] | repeat split].
  - unfold bind, onBuilds.
    destruct (Build.killAllBuildsForLabel _ _) as [n t].
    rewrite (never_inside_root_with_trailing_slash (worktrees_dir config) _ Htrail).
    split; [eexists; split; [reflexivity | reflexivity] | repeat split].
Qed.

End TrailingSlash.

(* ================================================================== *)
(** * The folder of a label under an absolute root *)
(* ================================================================== *)















(* ================================================================== *)
(** * The listing of worktrees *)
(* ================================================================== *)

Section ListingFacts.

Context {G : Type}.
Variable git : Git G.
Variable parsed : Parsed G.

















End ListingFacts.

(* ================================================================== *)
(** * The branches of a repository (commands/branches.ts) *)
(* ================================================================== *)

Lemma normalizeBranches_sorted (all : list string) :
  Sorted leString (normalizeBranches all) /\ NoDup (normalizeBranches all).
Proof.
  unfold normalizeBranches.
  destruct (branchSet_facts all []) as [_ Hnd].
  match goal with
  | |- context [sortStrings ?l] => destruct (sortStrings_facts l) as (Hs & _ & Hsnd)
  end.
  split; [exact Hs | apply Hsnd, Hnd; constructor].
Qed.

Section BranchesFacts.

Context {G : Type}.
Variable git : Git G.
Variable parsed : Parsed G.

(** X21: the branches command fetches once in the base clone of its
    repository and goes on when the fetch fails: what it returns is the
    list made of the local cache, in increasing order and without
    duplicates, or the error of the listing, never the error of the
    fetch.  For a repository that is not configured it fails before
    running anything. *)
Theorem branches_command_survives_fetch_failure
        (config : EtzConfig) (repoName : option string) (w : World G) :
  let run := getBranchesOfRepo git parsed config repoName w in
  match fst run with
  | inr branches => Sorted leString branches /\ NoDup branches
  | inl msg => forall details, msg <> GitOperationError "fetch" details
  end
  /\ match branchesRepo config repoName with
     | Some repo =>
         gitLog (snd run) = (gitLog w ++ [call (base_path repo) Fetch])%list
         /\ run = getBranches parsed (base_path repo)
                    (snd (fetchRepo git (base_path repo) w))
     | None => (exists msg, fst run = inl msg) /\ snd run = w
     end.
Proof.
  intros run. subst run. unfold getBranchesOfRepo, branchesRepo.
  assert (forall repo,
             let run := bind (fetchRepo git (base_path repo))
                             (fun _ => getBranches parsed (base_path repo)) w in
             match fst run with
             | inr branches => Sorted leString branches /\ NoDup branches
             | inl msg => forall details, msg <> GitOperationError "fetch" details
             end
             /\ gitLog (snd run) = (gitLog w ++ [call (base_path repo) Fetch])%list
             /\ run = getBranches parsed (base_path repo)
                        (snd (fetchRepo git (base_path repo) w))) as Hrepo.
  { intros repo run.
    assert (run = getBranches parsed (base_path repo)
                    (snd (fetchRepo git (base_path repo) w))) as Hrun.
    { subst run. unfold bind. now destruct (fetchRepo git (base_path repo) w). }
    rewrite Hrun. clear Hrun run.
    assert (gitLog (snd (fetchRepo git (base_path repo) w))
            = (gitLog w ++ [call (base_path repo) Fetch])%list) as Hlog.
    { unfold fetchRepo, discard, wrapped, exec, bind, ret, call.
      now destruct (git _ (gitState w) (disk w)) as [[reply g] d]. }
    destruct (fetchRepo git (base_path repo) w) as [r w1]. cbn [snd] in *.
    unfold getBranches, ask, bind, ret.
    destruct (branchAll parsed (base_path repo) (gitState w1) (disk w1))
      as [[[e | all] g] d]; cbn [fst snd gitLog].
    - split; [| split; [exact Hlog | reflexivity]].
      intros details. unfold GitOperationError. discriminate.
    - split; [apply normalizeBranches_sorted | split; [exact Hlog | reflexivity]]. }
  destruct (present repoName) as [n |].
  - destruct (find _ (repos config)) as [repo |].
    + destruct (Hrepo repo) as (H1 & H2 & H3). auto.
    + unfold ret. cbn [fst snd]. split; [discriminate |].
      split; [eexists; reflexivity | reflexivity].
  - destruct (repos config) as [| repo rest]; cbn [hd_error].
    + unfold ret. cbn [fst snd]. split; [discriminate |].
      split; [eexists; reflexivity | reflexivity].
    + destruct (Hrepo repo) as (H1 & H2 & H3). auto.
Qed.

End BranchesFacts.

(* ================================================================== *)
(** * The DerivedData of an iOS project *)
(* ================================================================== *)

Section DerivedDataFacts.

Context {G : Type}.
Variable homedir : string.

Lemma findDerivedData_found (d : Fs.disk) (projectName : string)
      (entries : list string) (entry : string) :
  findDerivedData homedir d projectName entries = Some (Some entry) ->
  In entry entries
  /\ Js.startsWith entry (projectName ++ "-") = true
  /\ Fs.isDirectory d (Path.join [derivedDataDir homedir; entry]) = Some true.
Proof.
  induction entries as [| e entries IH]; simpl; [discriminate |].
  destruct (Js.startsWith e (projectName ++ "-")) eqn:Estart.
  - destruct (Fs.isDirectory d (Path.join [derivedDataDir homedir; e]))
      as [[|] |] eqn:Edir.
    + intros [= <-]. auto.
    + intros H. destruct (IH H) as (Hin & Hs & Hd). auto.
    + discriminate.
  - intros H. destruct (IH H) as (Hin & Hs & Hd). auto.
Qed.

Lemma readdirSync_children (d : Fs.disk) (dir : string) (entries : list string) :
  Fs.readdirSync d dir = Some entries -> entries = Fs.children dir d.
Proof.
  unfold Fs.readdirSync. destruct (Fs.lookup d dir) as [[|] |]; congruence.
Qed.

Lemma getIOSProjectName_found (d : Fs.disk) (dirPath projectName : string) :
  getIOSProjectName d dirPath = Some projectName ->
  exists projectFile,
    In projectFile (Fs.children dirPath d)
    /\ isProjectEntry projectFile = true
    /\ projectName = stripProjectExtension projectFile.
Proof.
  unfold getIOSProjectName.
  destruct (negb (Fs.existsSync d dirPath)); [discriminate |].
  destruct (Fs.readdirSync d dirPath) as [entries |] eqn:Edir; [| discriminate].
  apply readdirSync_children in Edir. subst entries.
  destruct (find isProjectEntry (Fs.children dirPath d)) as [projectFile |] eqn:Efind;
    [| discriminate].
  intros [= <-]. apply find_some in Efind as [Hin Hproj]. now exists projectFile.
Qed.

(** X22: what the cleanup of an iOS worktree deletes outside the
    worktree is at most one entry of Xcode's DerivedData directory: a
    directory right under it whose name starts with the name of the
    project ([.xcodeproj] or [.xcworkspace] entry of the worktree, its
    extension taken off) and a dash.  Its path is what is reported; a
    dry run reports it and deletes nothing; when nothing is reported
    nothing has changed; and something is reported only for a worktree
    that [isIOSProject] recognizes. *)
Theorem derived_data_cleanup_is_confined
        (worktreePath : string) (dryRun : bool) (w : World G) :
  let run := cleanIOSDerivedData homedir worktreePath dryRun w in
  match fst run with
  | None => snd run = w
  | Some deleted =>
      (exists projectFile entry,
          In projectFile (Fs.children worktreePath (disk w))
          /\ isProjectEntry projectFile = true
          /\ In entry (Fs.children (derivedDataDir homedir) (disk w))
          /\ Js.startsWith entry (stripProjectExtension projectFile ++ "-") = true
          /\ deleted = Path.join [derivedDataDir homedir; entry])
      /\ Fs.isDirectory (disk w) deleted = Some true
      /\ isIOSProject (disk w) worktreePath = true
      /\ snd run
         = {| disk := if dryRun then disk w else Fs.rmSync (disk w) deleted;
              gitState := gitState w; gitLog := gitLog w; builds := builds w |}
  end.
Proof.
  intros run. subst run. unfold cleanIOSDerivedData.
  destruct (getIOSProjectName (disk w) worktreePath) as [projectName |] eqn:Ename;
    [| reflexivity].
  cbn [present]. destruct (Js.truthy projectName); [| reflexivity].
  destruct (negb (Fs.existsSync (disk w) (derivedDataDir homedir))); [reflexivity |].
  destruct (Fs.readdirSync (disk w) (derivedDataDir homedir)) as [entries |] eqn:Edir;
    [| reflexivity].
  apply readdirSync_children in Edir. subst entries.
  destruct (findDerivedData homedir (disk w) projectName _) as [[entry |] |] eqn:Efind;
    try reflexivity.
  destruct (findDerivedData_found _ _ _ _ Efind) as (Hin & Hstart & Hisdir).
  destruct (getIOSProjectName_found _ _ _ Ename) as (projectFile & Hfile & Hproj & ->).
  assert (isIOSProject (disk w) worktreePath = true) as Hios.
  { unfold isIOSProject. unfold getIOSProjectName in Ename.
    destruct (negb (Fs.existsSync (disk w) worktreePath)); [discriminate |].
    destruct (Fs.readdirSync (disk w) worktreePath) as [entries |] eqn:E;
      [| discriminate].
    apply readdirSync_children in E. subst entries.
    apply existsb_exists. now exists projectFile. }
  destruct dryRun; cbn [fst snd].
  - split; [exists projectFile, entry; auto 10 |].
    split; [exact Hisdir |]. split; [exact Hios |]. now destruct w.
  - split; [exists projectFile, entry; auto 10 |].
    split; [exact Hisdir |]. split; [exact Hios |]. reflexivity.
Qed.

End DerivedDataFacts.

(* ================================================================== *)
(** * The further properties on concrete worlds *)
(* ================================================================== *)

Lemma create_dry_run_only_lists_witness :
  Forall (fun r => In (Sw.status r)
                      [Sw.already_exists; Sw.already_in_use; Sw.dry_run; Sw.error;
                       Sw.skipped])
         (fst (switchToWorktree Demo.git Demo.config
                 (Sample.dryCreate "auth" "auth-feature") Demo.emptyRoot)).
Proof.
  exact (proj2 (create_dry_run_only_lists Demo.git Demo.config
                  (Sample.dryCreate "auth" "auth-feature") Demo.emptyRoot eq_refl)).
Defined.

Lemma clean_dry_run_touches_nothing_witness :
  disk (snd (clean Demo.git "/home" Demo.config (Sample.dryRemove "auth") Demo.withAuth))
  = Demo.authDisk.
Proof.
  exact (proj1 (clean_dry_run_touches_nothing Demo.git "/home" Demo.config
                  (Sample.dryRemove "auth") Demo.withAuth eq_refl)).
Defined.

Lemma clean_results_in_order_witness :
  exists perRepo extra,
    fst (clean Demo.git "/home" Demo.config (Demo.remove "auth" true) Demo.withAuth)
    = (perRepo ++ extra)%list
    /\ map Cl.repoName perRepo = ["app-ios"; "app-android"].
Proof.
  destruct (clean_results_in_order Demo.git "/home" Demo.config
              (Demo.remove "auth" true) Demo.withAuth eq_refl eq_refl eq_refl)
    as (perRepo & extra & Hrun & Hnames & _).
  exists perRepo, extra. split; [exact Hrun | exact Hnames].
Defined.

Lemma getEnrichedPath_adds_missing_once_witness :
  In "/usr/bin" (Js.split colon (getEnrichedPath (Some "/opt/tools/bin:/bin"))).
Proof.
  destruct (getEnrichedPath_adds_missing_once (Some "/opt/tools/bin:/bin"))
    as (_ & Hall & _).
  apply Hall. simpl. auto.
Defined.

(** Names outside ASCII: [sort()] puts U+1F600, whose code units are
    the surrogates D83D DE00, before U+FF61, though its UTF-8 bytes come
    after. *)
Example branches_sorted_by_code_units :
  let e_acute := Js.ofBytes [195; 169] in
  let grinning := Js.ofBytes [240; 159; 152; 128] in
  let halfwidth_stop := Js.ofBytes [239; 189; 161] in
  normalizeBranches [halfwidth_stop; grinning; "z"; e_acute; "main"]
  = ["main"; "z"; e_acute; grinning; halfwidth_stop]
  /\ Js.codeUnits grinning = [55357; 56832]%N
  /\ Js.codeUnits halfwidth_stop = [65377]%N.
Proof. repeat split. Qed.

Lemma branches_sorted_and_unique_witness :
  In "main" (normalizeBranches ["remotes/origin/main"; "remotes/origin/HEAD"; "dev"]).
Proof.
  destruct (branches_sorted_and_unique
              ["remotes/origin/main"; "remotes/origin/HEAD"; "dev"]) as (_ & _ & Hin).
  apply Hin. exists "remotes/origin/main". split; [now left | split; reflexivity].
Defined.


Lemma create_reports_branch_in_use_witness :
  fst (ensureWorktree Sample.listingGit "app-ios" "/r/ios" "/wt/other/app-ios"
         "auth-feature" "main" false Sample.listed)
  = {| Sw.repoName := "app-ios"; Sw.success := false;
       Sw.message := "Branch 'auth-feature' is already checked out at /wt/auth/app-ios";
       Sw.status := Sw.already_in_use |}.
Proof.
  destruct (create_reports_branch_in_use Sample.listingGit "app-ios" "/r/ios"
              "/wt/other/app-ios" "auth-feature" "main" false Sample.listing
              Sample.listed tt [("/wt", Fs.Dir)] eq_refl eq_refl eq_refl eq_refl)
    as (wt & Hfound & Hrun).
  injection Hfound as <-. rewrite Hrun. reflexivity.
Defined.

Lemma validators_agree_witness :
  "auth" <> "" /\ Path.isAbsolute "auth" = false.
Proof.
  destruct (validators_agree "auth" "label") as (_ & _ & _ & _ & Hshape).
  destruct (Hshape eq_refl) as (Hne & Hrel & _). split; [exact Hne | exact Hrel].
Defined.

Lemma build_queries_match_registry_witness :
  Build.isBuildInProgress "auth" None
    (Build.run Build.empty [Build.Request Build.build_android "auth" 7 100]) = true.
Proof.
  destruct (build_queries_match_registry
              [Build.Request Build.build_android "auth" 7 100] "auth"
              Build.build_android 200) as (Htyped & _ & _ & Hany & _).
  apply Hany, Htyped. reflexivity.
Defined.

Lemma killBuild_removes_that_build_witness :
  snd (Build.killBuild "auth" "build_ios"
         (Build.run Build.empty [Build.Request Build.build_android "auth" 7 100]))
  = Build.run Build.empty [Build.Request Build.build_android "auth" 7 100].
Proof.
  destruct (killBuild_removes_that_build
              [Build.Request Build.build_android "auth" 7 100] "auth" Build.build_ios)
    as (_ & _ & _ & _ & Hnothing).
  apply Hnothing. reflexivity.
Defined.

Lemma killAllBuildsForLabel_removes_the_label_witness :
  let t := Build.run Build.empty
             [Build.Request Build.build_android "auth" 7 100;
              Build.Request Build.build_android "login" 8 200] in
  Build.activeFor "login" Build.build_android
    (snd (Build.killAllBuildsForLabel "auth" t))
  = Build.activeFor "login" Build.build_android t.
Proof.
  intros t.
  destruct (killAllBuildsForLabel_removes_the_label
              [Build.Request Build.build_android "auth" 7 100;
               Build.Request Build.build_android "login" 8 200] "auth")
    as (_ & _ & _ & Hothers & _).
  apply Hothers. discriminate.
Defined.

Lemma progress_estimates_in_range_witness :
  10 <= BuildQueries.estimateProgress Build.pod_install "Installing Alamofire" <= 80.
Proof.
  destruct (progress_estimates_in_range Build.pod_install "Installing Alamofire")
    as (_ & _ & Hpod).
  apply Hpod. now left.
Defined.

Lemma build_ready_iff_nothing_failed_witness :
  Pre.ready (Pre.checkBuildPreConditions Sample.noIOSChecks Demo.config
               Sample.buildAndroid Sample.androidDisk Build.empty) = true.
Proof.
  destruct (build_ready_iff_nothing_failed Sample.noIOSChecks Demo.config
              Sample.buildAndroid Sample.androidDisk Build.empty)
    as (_ & _ & _ & Handroid).
  destruct (Handroid eq_refl) as [Hready _].
  apply Hready. repeat split.
Defined.

Lemma cli_branch_mapping_sets_branch_witness :
  Cli.addMapping [] "app-ios:feature-a" = inr [("app-ios", "feature-a")].
Proof.
  destruct (cli_branch_mapping_sets_branch []) as [Hgood _].
  destruct (Hgood "app-ios" "feature-a" eq_refl eq_refl eq_refl eq_refl)
    as [Hrun _]; [discriminate | exact Hrun].
Defined.




Lemma clean_refuses_all_under_root_with_trailing_slash_witness :
  fst (clean Demo.git "/home" Sample.slashConfig (Demo.remove "auth" true) Demo.withAuth)
  = [{| Cl.repoName := ""; Cl.success := false;
        Cl.message := "Security error: path traversal detected";
        Cl.status := Cl.error |}].
Proof.
  destruct (clean_refuses_all_under_root_with_trailing_slash Demo.git "/home"
              Sample.slashConfig (Demo.remove "auth" true) Demo.withAuth eq_refl)
    as [[msg [Hrun Hmsg]] _].
  rewrite Hrun, (Hmsg eq_refl). reflexivity.
Defined.
